(** * Simple (one byte) text encodings: [pdf/internal/textencoding/simple.go]

    A shallow embedding of the simple text encoders of the PDF library and
    the properties of their tables, accessors, serialisation and streaming
    transforms. *)

From Stdlib Require Import ZArith List Bool Lia.
From Stdlib Require Strings.Byte.
From stdpp Require Import base decidable countable gmap strings list sorting.

Open Scope Z_scope.

(** ** Go's primitive types *)

(** Go's [byte]: the 256 values [x00 .. xff]. *)
Abbreviation byte := Byte.byte.

#[global] Instance byte_eq_dec : EqDecision byte := Byte.byte_eq_dec.

#[global] Instance byte_countable : Countable byte :=
  inj_countable Byte.to_N Byte.of_N Byte.of_to_N.

(** The numeric value of a byte, and the conversion [byte(n)] of an unsigned
    integer, which keeps the low eight bits. *)
Definition byte_Z (b : byte) : Z := Z.of_N (Byte.to_N b).

Definition byte_of_N (n : N) : byte :=
  match Byte.of_N (n mod 256) with
  | Some b => b
  | None => Byte.x00
  end.

Definition byte_of_Z (z : Z) : byte := byte_of_N (Z.to_N (z mod 256)).

(** Go's [rune] is a signed 32 bit integer holding a code point. *)
Abbreviation rune := Z.

(** [CharCode] is an unsigned integer type wider than a byte (the source
    compares it with [0xff] and narrows it with [byte(code)]); its values
    are the natural numbers below the type's bound, so what holds for every
    [N] holds for every [CharCode]. *)
Abbreviation CharCode := N.

Abbreviation GlyphName := string.

Definition CharCode_of_byte (b : byte) : CharCode := Byte.to_N b.

(** ** Ranging over a map

    Go does not specify the order in which [for k, v := range m] visits the
    entries of [m]: each entry is visited once. The loops below take the
    order of the visit as an argument, and the theorems hold for every
    order. *)
Definition range_of {K V} `{Countable K} (m : gmap K V) (l : list (K * V)) : Prop :=
  l ≡ₚ map_to_list m.

(** ** [sort.Slice]

    The standard library sorts the slice in place with the given [less];
    the model is a sort by insertion, which Go's implementation uses for
    short slices. *)
Fixpoint sort_insert {A} (less : A -> A -> bool) (x : A) (l : list A) : list A :=
  match l with
  | [] => [x]
  | y :: l' => if less x y then x :: y :: l' else y :: sort_insert less x l'
  end.

Definition sort_Slice {A} (less : A -> A -> bool) (l : list A) : list A :=
  foldr (sort_insert less) [] l.

(** ** Package [unicode/utf8] of the Go standard library

    The four functions the encoders call, after the library's source:
    the table [first] gives for each leading byte the size of the sequence
    (low three bits) and the index of the range accepted for the second
    byte (high four bits). *)
Module utf8.

Definition RuneError : rune := 0xFFFD.
Definition MaxRune : rune := 0x10FFFF.
Definition UTFMax : nat := 4.

Definition surrogateMin : Z := 0xD800.
Definition surrogateMax : Z := 0xDFFF.

Definition tx : Z := 0x80.
Definition t2 : Z := 0xC0.
Definition t3 : Z := 0xE0.
Definition t4 : Z := 0xF0.

Definition maskx : Z := 0x3F.
Definition mask2 : Z := 0x1F.
Definition mask3 : Z := 0x0F.
Definition mask4 : Z := 0x07.

Definition rune1Max : Z := 0x7F.
Definition rune2Max : Z := 0x7FF.
Definition rune3Max : Z := 0xFFFF.

Definition locb : Z := 0x80.
Definition hicb : Z := 0xBF.

Definition xx : Z := 0xF1.
Definition as_ : Z := 0xF0.
Definition s1 : Z := 0x02.
Definition s2 : Z := 0x13.
Definition s3 : Z := 0x03.
Definition s4 : Z := 0x23.
Definition s5 : Z := 0x34.
Definition s6 : Z := 0x04.
Definition s7 : Z := 0x44.

(** [first[b]], the 256 entries of the library's table given by ranges. *)
Definition first (b : Z) : Z :=
  if b <=? 0x7F then as_
  else if b <=? 0xC1 then xx
  else if b <=? 0xDF then s1
  else if b =? 0xE0 then s2
  else if b <=? 0xEC then s3
  else if b =? 0xED then s4
  else if b <=? 0xEF then s3
  else if b =? 0xF0 then s5
  else if b <=? 0xF3 then s6
  else if b =? 0xF4 then s7
  else xx.

Record acceptRange : Type := { lo : Z; hi : Z }.

Definition acceptRanges (i : Z) : acceptRange :=
  if i =? 0 then {| lo := locb; hi := hicb |}
  else if i =? 1 then {| lo := 0xA0; hi := hicb |}
  else if i =? 2 then {| lo := locb; hi := 0x9F |}
  else if i =? 3 then {| lo := 0x90; hi := hicb |}
  else if i =? 4 then {| lo := locb; hi := 0x8F |}
  else {| lo := 0; hi := 0 |}.

(** [p[i]] as a number; the calls below are guarded by the length checks
    of the source, so the default is never read. *)
Definition idx (p : list byte) (i : nat) : Z := byte_Z (nth i p Byte.x00).

(** An 8 bit value: the conversion [byte(r)] keeps the low eight bits. *)
Definition to_byte (z : Z) : Z := z mod 256.

Definition RuneLen (r : rune) : Z :=
  if r <? 0 then -1
  else if r <=? rune1Max then 1
  else if r <=? rune2Max then 2
  else if (surrogateMin <=? r) && (r <=? surrogateMax) then -1
  else if r <=? rune3Max then 3
  else if r <=? MaxRune then 4
  else -1.

(** Writing [bs] at the start of [p]; [None] is the run-time panic of an
    index out of range. *)
Definition store (p : list byte) (bs : list Z) : option (list byte * nat) :=
  if (length bs <=? length p)%nat
  then Some (map byte_of_Z bs ++ drop (length bs) p, length bs)
  else None.

Definition EncodeRune (p : list byte) (r : rune) : option (list byte * nat) :=
  let i := r mod 2 ^ 32 in
  if i <=? rune1Max then
    store p [to_byte r]
  else if i <=? rune2Max then
    store p [Z.lor t2 (to_byte (Z.shiftr r 6));
             Z.lor tx (Z.land (to_byte r) maskx)]
  else
    let r3 := if (MaxRune <? i) || ((surrogateMin <=? i) && (i <=? surrogateMax))
              then Some RuneError
              else if i <=? rune3Max then Some r else None in
    match r3 with
    | Some r =>
        store p [Z.lor t3 (to_byte (Z.shiftr r 12));
                 Z.lor tx (Z.land (to_byte (Z.shiftr r 6)) maskx);
                 Z.lor tx (Z.land (to_byte r) maskx)]
    | None =>
        store p [Z.lor t4 (to_byte (Z.shiftr r 18));
                 Z.lor tx (Z.land (to_byte (Z.shiftr r 12)) maskx);
                 Z.lor tx (Z.land (to_byte (Z.shiftr r 6)) maskx);
                 Z.lor tx (Z.land (to_byte r) maskx)]
    end.

Definition FullRune (p : list byte) : bool :=
  let n := length p in
  if (n =? 0)%nat then false
  else
    let x := first (idx p 0) in
    if (Z.to_nat (Z.land x 7) <=? n)%nat then true
    else
      let accept := acceptRanges (Z.shiftr x 4) in
      if (1 <? n)%nat && ((idx p 1 <? lo accept) || (hi accept <? idx p 1)) then true
      else if (2 <? n)%nat && ((idx p 2 <? locb) || (hicb <? idx p 2)) then true
      else false.

Definition DecodeRune (p : list byte) : rune * nat :=
  let n := length p in
  if (n <? 1)%nat then (RuneError, 0%nat)
  else
    let p0 := idx p 0 in
    let x := first p0 in
    if as_ <=? x then
      (* mask is all zeros for [as] and all ones for [xx] *)
      let mask := if Z.odd x then -1 else 0 in
      (Z.lor (Z.land p0 (Z.lnot mask)) (Z.land RuneError mask), 1%nat)
    else
      let sz := Z.to_nat (Z.land x 7) in
      let accept := acceptRanges (Z.shiftr x 4) in
      if (n <? sz)%nat then (RuneError, 1%nat)
      else
        let b1 := idx p 1 in
        if (b1 <? lo accept) || (hi accept <? b1) then (RuneError, 1%nat)
        else if (sz <=? 2)%nat then
          (Z.lor (Z.shiftl (Z.land p0 mask2) 6) (Z.land b1 maskx), 2%nat)
        else
          let b2 := idx p 2 in
          if (b2 <? locb) || (hicb <? b2) then (RuneError, 1%nat)
          else if (sz <=? 3)%nat then
            (Z.lor (Z.lor (Z.shiftl (Z.land p0 mask3) 12)
                          (Z.shiftl (Z.land b1 maskx) 6))
                   (Z.land b2 maskx), 3%nat)
          else
            let b3 := idx p 3 in
            if (b3 <? locb) || (hicb <? b3) then (RuneError, 1%nat)
            else
              (Z.lor (Z.lor (Z.lor (Z.shiftl (Z.land p0 mask4) 18)
                                   (Z.shiftl (Z.land b1 maskx) 12))
                            (Z.shiftl (Z.land b2 maskx) 6))
                     (Z.land b3 maskx), 4%nat).

End utf8.

(** ** PDF objects *)

(** Modelled from the spec: the document object model of package [core]
    ([MakeName], [MakeDict], [Set], [MakeIndirectObject]) is not part of the
    source file; the spec treats it as an opaque builder, modelled here by
    free constructors, a dictionary being its entries in insertion order. *)
#[warnings="-register-all"]
Inductive PdfObject : Type :=
  | PdfObjectName (name : string)
  | PdfObjectInteger (n : Z)
  | PdfObjectArray (elems : list PdfObject)
  | PdfObjectDictionary (entries : list (string * PdfObject))
  | PdfIndirectObject (obj : PdfObject)
  | PdfObjectNull.

Definition MakeName (s : string) : PdfObject := PdfObjectName s.
Definition MakeDict : list (string * PdfObject) := [].
Definition MakeIndirectObject (entries : list (string * PdfObject)) : PdfObject :=
  PdfIndirectObject (PdfObjectDictionary entries).

Fixpoint dict_Set (key : string) (val : PdfObject) (d : list (string * PdfObject))
  : list (string * PdfObject) :=
  match d with
  | [] => [(key, val)]
  | (k, v) :: d' =>
      if String.eqb k key then (k, val) :: d' else (k, v) :: dict_Set key val d'
  end.

Fixpoint dict_Get (key : string) (d : list (string * PdfObject)) : option PdfObject :=
  match d with
  | [] => None
  | (k, v) :: d' => if String.eqb k key then Some v else dict_Get key d'
  end.

(** ** The encoder *)

(** [simpleEncoding] represents a 1 byte encoding. *)
Record simpleEncoding : Type := {
  baseName : string;
  encode : gmap Z byte;
  decode : gmap byte Z
}.

(** ** The standard 8 bit character encodings

    The literal tables of [simpleEncodings], entry for entry. *)
Definition MacExpertEncoding_table : list (byte * rune) :=
  [(Byte.x20, 0x0020); (Byte.x21, 0xf721); (Byte.x22, 0xf6f8); (Byte.x23, 0xf7a2); (Byte.x24, 0xf724);
   (Byte.x25, 0xf6e4); (Byte.x26, 0xf726); (Byte.x27, 0xf7b4); (Byte.x28, 0x207d); (Byte.x29, 0x207e);
   (Byte.x2a, 0x2025); (Byte.x2b, 0x2024); (Byte.x2c, 0x002c); (Byte.x2d, 0x002d); (Byte.x2e, 0x002e);
   (Byte.x2f, 0x2044); (Byte.x30, 0xf730); (Byte.x31, 0xf731); (Byte.x32, 0xf732); (Byte.x33, 0xf733);
   (Byte.x34, 0xf734); (Byte.x35, 0xf735); (Byte.x36, 0xf736); (Byte.x37, 0xf737); (Byte.x38, 0xf738);
   (Byte.x39, 0xf739); (Byte.x3a, 0x003a); (Byte.x3b, 0x003b); (Byte.x3d, 0xf6de); (Byte.x3f, 0xf73f);
   (Byte.x44, 0xf7f0); (Byte.x47, 0x00bc); (Byte.x48, 0x00bd); (Byte.x49, 0x00be); (Byte.x4a, 0x215b);
   (Byte.x4b, 0x215c); (Byte.x4c, 0x215d); (Byte.x4d, 0x215e); (Byte.x4e, 0x2153); (Byte.x4f, 0x2154);
   (Byte.x56, 0xfb00); (Byte.x57, 0xfb01); (Byte.x58, 0xfb02); (Byte.x59, 0xfb03); (Byte.x5a, 0xfb04);
   (Byte.x5b, 0x208d); (Byte.x5d, 0x208e); (Byte.x5e, 0xf6f6); (Byte.x5f, 0xf6e5); (Byte.x60, 0xf760);
   (Byte.x61, 0xf761); (Byte.x62, 0xf762); (Byte.x63, 0xf763); (Byte.x64, 0xf764); (Byte.x65, 0xf765);
   (Byte.x66, 0xf766); (Byte.x67, 0xf767); (Byte.x68, 0xf768); (Byte.x69, 0xf769); (Byte.x6a, 0xf76a);
   (Byte.x6b, 0xf76b); (Byte.x6c, 0xf76c); (Byte.x6d, 0xf76d); (Byte.x6e, 0xf76e); (Byte.x6f, 0xf76f);
   (Byte.x70, 0xf770); (Byte.x71, 0xf771); (Byte.x72, 0xf772); (Byte.x73, 0xf773); (Byte.x74, 0xf774);
   (Byte.x75, 0xf775); (Byte.x76, 0xf776); (Byte.x77, 0xf777); (Byte.x78, 0xf778); (Byte.x79, 0xf779);
   (Byte.x7a, 0xf77a); (Byte.x7b, 0x20a1); (Byte.x7c, 0xf6dc); (Byte.x7d, 0xf6dd); (Byte.x7e, 0xf6fe);
   (Byte.x81, 0xf6e9); (Byte.x82, 0xf6e0); (Byte.x87, 0xf7e1); (Byte.x88, 0xf7e0); (Byte.x89, 0xf7e2);
   (Byte.x8a, 0xf7e4); (Byte.x8b, 0xf7e3); (Byte.x8c, 0xf7e5); (Byte.x8d, 0xf7e7); (Byte.x8e, 0xf7e9);
   (Byte.x8f, 0xf7e8); (Byte.x90, 0xf7ea); (Byte.x91, 0xf7eb); (Byte.x92, 0xf7ed); (Byte.x93, 0xf7ec);
   (Byte.x94, 0xf7ee); (Byte.x95, 0xf7ef); (Byte.x96, 0xf7f1); (Byte.x97, 0xf7f3); (Byte.x98, 0xf7f2);
   (Byte.x99, 0xf7f4); (Byte.x9a, 0xf7f6); (Byte.x9b, 0xf7f5); (Byte.x9c, 0xf7fa); (Byte.x9d, 0xf7f9);
   (Byte.x9e, 0xf7fb); (Byte.x9f, 0xf7fc); (Byte.xa1, 0x2078); (Byte.xa2, 0x2084); (Byte.xa3, 0x2083);
   (Byte.xa4, 0x2086); (Byte.xa5, 0x2088); (Byte.xa6, 0x2087); (Byte.xa7, 0xf6fd); (Byte.xa9, 0xf6df);
   (Byte.xaa, 0x2082); (Byte.xac, 0xf7a8); (Byte.xae, 0xf6f5); (Byte.xaf, 0xf6f0); (Byte.xb0, 0x2085);
   (Byte.xb2, 0xf6e1); (Byte.xb3, 0xf6e7); (Byte.xb4, 0xf7fd); (Byte.xb6, 0xf6e3); (Byte.xb9, 0xf7fe);
   (Byte.xbb, 0x2089); (Byte.xbc, 0x2080); (Byte.xbd, 0xf6ff); (Byte.xbe, 0xf7e6); (Byte.xbf, 0xf7f8);
   (Byte.xc0, 0xf7bf); (Byte.xc1, 0x2081); (Byte.xc2, 0xf6f9); (Byte.xc9, 0xf7b8); (Byte.xcf, 0xf6fa);
   (Byte.xd0, 0x2012); (Byte.xd1, 0xf6e6); (Byte.xd6, 0xf7a1); (Byte.xd8, 0xf7ff); (Byte.xda, 0x00b9);
   (Byte.xdb, 0x00b2); (Byte.xdc, 0x00b3); (Byte.xdd, 0x2074); (Byte.xde, 0x2075); (Byte.xdf, 0x2076);
   (Byte.xe0, 0x2077); (Byte.xe1, 0x2079); (Byte.xe2, 0x2070); (Byte.xe4, 0xf6ec); (Byte.xe5, 0xf6f1);
   (Byte.xe6, 0xf6f3); (Byte.xe9, 0xf6ed); (Byte.xea, 0xf6f2); (Byte.xeb, 0xf6eb); (Byte.xf1, 0xf6ee);
   (Byte.xf2, 0xf6fb); (Byte.xf3, 0xf6f4); (Byte.xf4, 0xf7af); (Byte.xf5, 0xf6ea); (Byte.xf6, 0x207f);
   (Byte.xf7, 0xf6ef); (Byte.xf8, 0xf6e2); (Byte.xf9, 0xf6e8); (Byte.xfa, 0xf6f7); (Byte.xfb, 0xf6fc)].

Definition MacRomanEncoding_table : list (byte * rune) :=
  [(Byte.x01, 0x0001); (Byte.x02, 0x0002); (Byte.x03, 0x0003); (Byte.x04, 0x0004); (Byte.x05, 0x0005);
   (Byte.x06, 0x0006); (Byte.x07, 0x0007); (Byte.x08, 0x0008); (Byte.x09, 0x0009); (Byte.x0a, 0x000a);
   (Byte.x0b, 0x000b); (Byte.x0c, 0x000c); (Byte.x0d, 0x000d); (Byte.x0e, 0x000e); (Byte.x0f, 0x000f);
   (Byte.x10, 0x0010); (Byte.x11, 0x0011); (Byte.x12, 0x0012); (Byte.x13, 0x0013); (Byte.x14, 0x0014);
   (Byte.x15, 0x0015); (Byte.x16, 0x0016); (Byte.x17, 0x0017); (Byte.x18, 0x0018); (Byte.x19, 0x0019);
   (Byte.x1a, 0x001a); (Byte.x1b, 0x001b); (Byte.x1c, 0x001c); (Byte.x1d, 0x001d); (Byte.x1e, 0x001e);
   (Byte.x1f, 0x001f); (Byte.x20, 0x0020); (Byte.x21, 0x0021); (Byte.x22, 0x0022); (Byte.x23, 0x0023);
   (Byte.x24, 0x0024); (Byte.x25, 0x0025); (Byte.x26, 0x0026); (Byte.x27, 0x0027); (Byte.x28, 0x0028);
   (Byte.x29, 0x0029); (Byte.x2a, 0x002a); (Byte.x2b, 0x002b); (Byte.x2c, 0x002c); (Byte.x2d, 0x002d);
   (Byte.x2e, 0x002e); (Byte.x2f, 0x002f); (Byte.x30, 0x0030); (Byte.x31, 0x0031); (Byte.x32, 0x0032);
   (Byte.x33, 0x0033); (Byte.x34, 0x0034); (Byte.x35, 0x0035); (Byte.x36, 0x0036); (Byte.x37, 0x0037);
   (Byte.x38, 0x0038); (Byte.x39, 0x0039); (Byte.x3a, 0x003a); (Byte.x3b, 0x003b); (Byte.x3c, 0x003c);
   (Byte.x3d, 0x003d); (Byte.x3e, 0x003e); (Byte.x3f, 0x003f); (Byte.x40, 0x0040); (Byte.x41, 0x0041);
   (Byte.x42, 0x0042); (Byte.x43, 0x0043); (Byte.x44, 0x0044); (Byte.x45, 0x0045); (Byte.x46, 0x0046);
   (Byte.x47, 0x0047); (Byte.x48, 0x0048); (Byte.x49, 0x0049); (Byte.x4a, 0x004a); (Byte.x4b, 0x004b);
   (Byte.x4c, 0x004c); (Byte.x4d, 0x004d); (Byte.x4e, 0x004e); (Byte.x4f, 0x004f); (Byte.x50, 0x0050);
   (Byte.x51, 0x0051); (Byte.x52, 0x0052); (Byte.x53, 0x0053); (Byte.x54, 0x0054); (Byte.x55, 0x0055);
   (Byte.x56, 0x0056); (Byte.x57, 0x0057); (Byte.x58, 0x0058); (Byte.x59, 0x0059); (Byte.x5a, 0x005a);
   (Byte.x5b, 0x005b); (Byte.x5c, 0x005c); (Byte.x5d, 0x005d); (Byte.x5e, 0x005e); (Byte.x5f, 0x005f);
   (Byte.x60, 0x0060); (Byte.x61, 0x0061); (Byte.x62, 0x0062); (Byte.x63, 0x0063); (Byte.x64, 0x0064);
   (Byte.x65, 0x0065); (Byte.x66, 0x0066); (Byte.x67, 0x0067); (Byte.x68, 0x0068); (Byte.x69, 0x0069);
   (Byte.x6a, 0x006a); (Byte.x6b, 0x006b); (Byte.x6c, 0x006c); (Byte.x6d, 0x006d); (Byte.x6e, 0x006e);
   (Byte.x6f, 0x006f); (Byte.x70, 0x0070); (Byte.x71, 0x0071); (Byte.x72, 0x0072); (Byte.x73, 0x0073);
   (Byte.x74, 0x0074); (Byte.x75, 0x0075); (Byte.x76, 0x0076); (Byte.x77, 0x0077); (Byte.x78, 0x0078);
   (Byte.x79, 0x0079); (Byte.x7a, 0x007a); (Byte.x7b, 0x007b); (Byte.x7c, 0x007c); (Byte.x7d, 0x007d);
   (Byte.x7e, 0x007e); (Byte.x7f, 0x007f); (Byte.x80, 0x00c4); (Byte.x81, 0x00c5); (Byte.x82, 0x00c7);
   (Byte.x83, 0x00c9); (Byte.x84, 0x00d1); (Byte.x85, 0x00d6); (Byte.x86, 0x00dc); (Byte.x87, 0x00e1);
   (Byte.x88, 0x00e0); (Byte.x89, 0x00e2); (Byte.x8a, 0x00e4); (Byte.x8b, 0x00e3); (Byte.x8c, 0x00e5);
   (Byte.x8d, 0x00e7); (Byte.x8e, 0x00e9); (Byte.x8f, 0x00e8); (Byte.x90, 0x00ea); (Byte.x91, 0x00eb);
   (Byte.x92, 0x00ed); (Byte.x93, 0x00ec); (Byte.x94, 0x00ee); (Byte.x95, 0x00ef); (Byte.x96, 0x00f1);
   (Byte.x97, 0x00f3); (Byte.x98, 0x00f2); (Byte.x99, 0x00f4); (Byte.x9a, 0x00f6); (Byte.x9b, 0x00f5);
   (Byte.x9c, 0x00fa); (Byte.x9d, 0x00f9); (Byte.x9e, 0x00fb); (Byte.x9f, 0x00fc); (Byte.xa0, 0x2020);
   (Byte.xa1, 0x00b0); (Byte.xa2, 0x00a2); (Byte.xa3, 0x00a3); (Byte.xa4, 0x00a7); (Byte.xa5, 0x2022);
   (Byte.xa6, 0x00b6); (Byte.xa7, 0x00df); (Byte.xa8, 0x00ae); (Byte.xa9, 0x00a9); (Byte.xaa, 0x2122);
   (Byte.xab, 0x00b4); (Byte.xac, 0x00a8); (Byte.xad, 0x2260); (Byte.xae, 0x00c6); (Byte.xaf, 0x00d8);
   (Byte.xb0, 0x221e); (Byte.xb1, 0x00b1); (Byte.xb2, 0x2264); (Byte.xb3, 0x2265); (Byte.xb4, 0x00a5);
   (Byte.xb5, 0x00b5); (Byte.xb6, 0x2202); (Byte.xb7, 0x2211); (Byte.xb8, 0x220f); (Byte.xb9, 0x03c0);
   (Byte.xba, 0x222b); (Byte.xbb, 0x00aa); (Byte.xbc, 0x00ba); (Byte.xbd, 0x03a9); (Byte.xbe, 0x00e6);
   (Byte.xbf, 0x00f8); (Byte.xc0, 0x00bf); (Byte.xc1, 0x00a1); (Byte.xc2, 0x00ac); (Byte.xc3, 0x221a);
   (Byte.xc4, 0x0192); (Byte.xc5, 0x2248); (Byte.xc6, 0x2206); (Byte.xc7, 0x00ab); (Byte.xc8, 0x00bb);
   (Byte.xc9, 0x2026); (Byte.xca, 0x00a0); (Byte.xcb, 0x00c0); (Byte.xcc, 0x00c3); (Byte.xcd, 0x00d5);
   (Byte.xce, 0x0152); (Byte.xcf, 0x0153); (Byte.xd0, 0x2013); (Byte.xd1, 0x2014); (Byte.xd2, 0x201c);
   (Byte.xd3, 0x201d); (Byte.xd4, 0x2018); (Byte.xd5, 0x2019); (Byte.xd6, 0x00f7); (Byte.xd7, 0x25ca);
   (Byte.xd8, 0x00ff); (Byte.xd9, 0x0178); (Byte.xda, 0x2044); (Byte.xdb, 0x20ac); (Byte.xdc, 0x2039);
   (Byte.xdd, 0x203a); (Byte.xde, 0xfb01); (Byte.xdf, 0xfb02); (Byte.xe0, 0x2021); (Byte.xe1, 0x00b7);
   (Byte.xe2, 0x201a); (Byte.xe3, 0x201e); (Byte.xe4, 0x2030); (Byte.xe5, 0x00c2); (Byte.xe6, 0x00ca);
   (Byte.xe7, 0x00c1); (Byte.xe8, 0x00cb); (Byte.xe9, 0x00c8); (Byte.xea, 0x00cd); (Byte.xeb, 0x00ce);
   (Byte.xec, 0x00cf); (Byte.xed, 0x00cc); (Byte.xee, 0x00d3); (Byte.xef, 0x00d4); (Byte.xf0, 0xf8ff);
   (Byte.xf1, 0x00d2); (Byte.xf2, 0x00da); (Byte.xf3, 0x00db); (Byte.xf4, 0x00d9); (Byte.xf5, 0x0131);
   (Byte.xf6, 0x02c6); (Byte.xf7, 0x02dc); (Byte.xf8, 0x00af); (Byte.xf9, 0x02d8); (Byte.xfa, 0x02d9);
   (Byte.xfb, 0x02da); (Byte.xfc, 0x00b8); (Byte.xfd, 0x02dd); (Byte.xfe, 0x02db); (Byte.xff, 0x02c7)].

Definition PdfDocEncoding_table : list (byte * rune) :=
  [(Byte.x01, 0x0001); (Byte.x02, 0x0002); (Byte.x03, 0x0003); (Byte.x04, 0x0004); (Byte.x05, 0x0005);
   (Byte.x06, 0x0006); (Byte.x07, 0x0007); (Byte.x08, 0x0008); (Byte.x09, 0x0009); (Byte.x0a, 0x000a);
   (Byte.x0b, 0x000b); (Byte.x0c, 0x000c); (Byte.x0d, 0x000d); (Byte.x0e, 0x000e); (Byte.x0f, 0x000f);
   (Byte.x10, 0x0010); (Byte.x11, 0x0011); (Byte.x12, 0x0012); (Byte.x13, 0x0013); (Byte.x14, 0x0014);
   (Byte.x15, 0x0015); (Byte.x16, 0x0017); (Byte.x17, 0x0017); (Byte.x18, 0x02d8); (Byte.x19, 0x02c7);
   (Byte.x1a, 0x02c6); (Byte.x1b, 0x02d9); (Byte.x1c, 0x02dd); (Byte.x1d, 0x02db); (Byte.x1e, 0x02da);
   (Byte.x1f, 0x02dc); (Byte.x20, 0x0020); (Byte.x21, 0x0021); (Byte.x22, 0x0022); (Byte.x23, 0x0023);
   (Byte.x24, 0x0024); (Byte.x25, 0x0025); (Byte.x26, 0x0026); (Byte.x27, 0x0027); (Byte.x28, 0x0028);
   (Byte.x29, 0x0029); (Byte.x2a, 0x002a); (Byte.x2b, 0x002b); (Byte.x2c, 0x002c); (Byte.x2d, 0x002d);
   (Byte.x2e, 0x002e); (Byte.x2f, 0x002f); (Byte.x30, 0x0030); (Byte.x31, 0x0031); (Byte.x32, 0x0032);
   (Byte.x33, 0x0033); (Byte.x34, 0x0034); (Byte.x35, 0x0035); (Byte.x36, 0x0036); (Byte.x37, 0x0037);
   (Byte.x38, 0x0038); (Byte.x39, 0x0039); (Byte.x3a, 0x003a); (Byte.x3b, 0x003b); (Byte.x3c, 0x003c);
   (Byte.x3d, 0x003d); (Byte.x3e, 0x003e); (Byte.x3f, 0x003f); (Byte.x40, 0x0040); (Byte.x41, 0x0041);
   (Byte.x42, 0x0042); (Byte.x43, 0x0043); (Byte.x44, 0x0044); (Byte.x45, 0x0045); (Byte.x46, 0x0046);
   (Byte.x47, 0x0047); (Byte.x48, 0x0048); (Byte.x49, 0x0049); (Byte.x4a, 0x004a); (Byte.x4b, 0x004b);
   (Byte.x4c, 0x004c); (Byte.x4d, 0x004d); (Byte.x4e, 0x004e); (Byte.x4f, 0x004f); (Byte.x50, 0x0050);
   (Byte.x51, 0x0051); (Byte.x52, 0x0052); (Byte.x53, 0x0053); (Byte.x54, 0x0054); (Byte.x55, 0x0055);
   (Byte.x56, 0x0056); (Byte.x57, 0x0057); (Byte.x58, 0x0058); (Byte.x59, 0x0059); (Byte.x5a, 0x005a);
   (Byte.x5b, 0x005b); (Byte.x5c, 0x005c); (Byte.x5d, 0x005d); (Byte.x5e, 0x005e); (Byte.x5f, 0x005f);
   (Byte.x60, 0x0060); (Byte.x61, 0x0061); (Byte.x62, 0x0062); (Byte.x63, 0x0063); (Byte.x64, 0x0064);
   (Byte.x65, 0x0065); (Byte.x66, 0x0066); (Byte.x67, 0x0067); (Byte.x68, 0x0068); (Byte.x69, 0x0069);
   (Byte.x6a, 0x006a); (Byte.x6b, 0x006b); (Byte.x6c, 0x006c); (Byte.x6d, 0x006d); (Byte.x6e, 0x006e);
   (Byte.x6f, 0x006f); (Byte.x70, 0x0070); (Byte.x71, 0x0071); (Byte.x72, 0x0072); (Byte.x73, 0x0073);
   (Byte.x74, 0x0074); (Byte.x75, 0x0075); (Byte.x76, 0x0076); (Byte.x77, 0x0077); (Byte.x78, 0x0078);
   (Byte.x79, 0x0079); (Byte.x7a, 0x007a); (Byte.x7b, 0x007b); (Byte.x7c, 0x007c); (Byte.x7d, 0x007d);
   (Byte.x7e, 0x007e); (Byte.x80, 0x2022); (Byte.x81, 0x2020); (Byte.x82, 0x2021); (Byte.x83, 0x2026);
   (Byte.x84, 0x2014); (Byte.x85, 0x2013); (Byte.x86, 0x0192); (Byte.x87, 0x2044); (Byte.x88, 0x2039);
   (Byte.x89, 0x203a); (Byte.x8a, 0x2212); (Byte.x8b, 0x2030); (Byte.x8c, 0x201e); (Byte.x8d, 0x201c);
   (Byte.x8e, 0x201d); (Byte.x8f, 0x2018); (Byte.x90, 0x2019); (Byte.x91, 0x201a); (Byte.x92, 0x2122);
   (Byte.x93, 0xfb01); (Byte.x94, 0xfb02); (Byte.x95, 0x0141); (Byte.x96, 0x0152); (Byte.x97, 0x0160);
   (Byte.x98, 0x0178); (Byte.x99, 0x017d); (Byte.x9a, 0x0131); (Byte.x9b, 0x0142); (Byte.x9c, 0x0153);
   (Byte.x9d, 0x0161); (Byte.x9e, 0x017e); (Byte.xa0, 0x20ac); (Byte.xa1, 0x00a1); (Byte.xa2, 0x00a2);
   (Byte.xa3, 0x00a3); (Byte.xa4, 0x00a4); (Byte.xa5, 0x00a5); (Byte.xa6, 0x00a6); (Byte.xa7, 0x00a7);
   (Byte.xa8, 0x00a8); (Byte.xa9, 0x00a9); (Byte.xaa, 0x00aa); (Byte.xab, 0x00ab); (Byte.xac, 0x00ac);
   (Byte.xae, 0x00ae); (Byte.xaf, 0x00af); (Byte.xb0, 0x00b0); (Byte.xb1, 0x00b1); (Byte.xb2, 0x00b2);
   (Byte.xb3, 0x00b3); (Byte.xb4, 0x00b4); (Byte.xb5, 0x00b5); (Byte.xb6, 0x00b6); (Byte.xb7, 0x00b7);
   (Byte.xb8, 0x00b8); (Byte.xb9, 0x00b9); (Byte.xba, 0x00ba); (Byte.xbb, 0x00bb); (Byte.xbc, 0x00bc);
   (Byte.xbd, 0x00bd); (Byte.xbe, 0x00be); (Byte.xbf, 0x00bf); (Byte.xc0, 0x00c0); (Byte.xc1, 0x00c1);
   (Byte.xc2, 0x00c2); (Byte.xc3, 0x00c3); (Byte.xc4, 0x00c4); (Byte.xc5, 0x00c5); (Byte.xc6, 0x00c6);
   (Byte.xc7, 0x00c7); (Byte.xc8, 0x00c8); (Byte.xc9, 0x00c9); (Byte.xca, 0x00ca); (Byte.xcb, 0x00cb);
   (Byte.xcc, 0x00cc); (Byte.xcd, 0x00cd); (Byte.xce, 0x00ce); (Byte.xcf, 0x00cf); (Byte.xd0, 0x00d0);
   (Byte.xd1, 0x00d1); (Byte.xd2, 0x00d2); (Byte.xd3, 0x00d3); (Byte.xd4, 0x00d4); (Byte.xd5, 0x00d5);
   (Byte.xd6, 0x00d6); (Byte.xd7, 0x00d7); (Byte.xd8, 0x00d8); (Byte.xd9, 0x00d9); (Byte.xda, 0x00da);
   (Byte.xdb, 0x00db); (Byte.xdc, 0x00dc); (Byte.xdd, 0x00dd); (Byte.xde, 0x00de); (Byte.xdf, 0x00df);
   (Byte.xe0, 0x00e0); (Byte.xe1, 0x00e1); (Byte.xe2, 0x00e2); (Byte.xe3, 0x00e3); (Byte.xe4, 0x00e4);
   (Byte.xe5, 0x00e5); (Byte.xe6, 0x00e6); (Byte.xe7, 0x00e7); (Byte.xe8, 0x00e8); (Byte.xe9, 0x00e9);
   (Byte.xea, 0x00ea); (Byte.xeb, 0x00eb); (Byte.xec, 0x00ec); (Byte.xed, 0x00ed); (Byte.xee, 0x00ee);
   (Byte.xef, 0x00ef); (Byte.xf0, 0x00f0); (Byte.xf1, 0x00f1); (Byte.xf2, 0x00f2); (Byte.xf3, 0x00f3);
   (Byte.xf4, 0x00f4); (Byte.xf5, 0x00f5); (Byte.xf6, 0x00f6); (Byte.xf7, 0x00f7); (Byte.xf8, 0x00f8);
   (Byte.xf9, 0x00f9); (Byte.xfa, 0x00fa); (Byte.xfb, 0x00fb); (Byte.xfc, 0x00fc); (Byte.xfd, 0x00fd);
   (Byte.xfe, 0x00fe); (Byte.xff, 0x00ff)].

Definition StandardEncoding_table : list (byte * rune) :=
  [(Byte.x20, 0x0020); (Byte.x21, 0x0021); (Byte.x22, 0x0022); (Byte.x23, 0x0023); (Byte.x24, 0x0024);
   (Byte.x25, 0x0025); (Byte.x26, 0x0026); (Byte.x27, 0x2019); (Byte.x28, 0x0028); (Byte.x29, 0x0029);
   (Byte.x2a, 0x002a); (Byte.x2b, 0x002b); (Byte.x2c, 0x002c); (Byte.x2d, 0x002d); (Byte.x2e, 0x002e);
   (Byte.x2f, 0x002f); (Byte.x30, 0x0030); (Byte.x31, 0x0031); (Byte.x32, 0x0032); (Byte.x33, 0x0033);
   (Byte.x34, 0x0034); (Byte.x35, 0x0035); (Byte.x36, 0x0036); (Byte.x37, 0x0037); (Byte.x38, 0x0038);
   (Byte.x39, 0x0039); (Byte.x3a, 0x003a); (Byte.x3b, 0x003b); (Byte.x3c, 0x003c); (Byte.x3d, 0x003d);
   (Byte.x3e, 0x003e); (Byte.x3f, 0x003f); (Byte.x40, 0x0040); (Byte.x41, 0x0041); (Byte.x42, 0x0042);
   (Byte.x43, 0x0043); (Byte.x44, 0x0044); (Byte.x45, 0x0045); (Byte.x46, 0x0046); (Byte.x47, 0x0047);
   (Byte.x48, 0x0048); (Byte.x49, 0x0049); (Byte.x4a, 0x004a); (Byte.x4b, 0x004b); (Byte.x4c, 0x004c);
   (Byte.x4d, 0x004d); (Byte.x4e, 0x004e); (Byte.x4f, 0x004f); (Byte.x50, 0x0050); (Byte.x51, 0x0051);
   (Byte.x52, 0x0052); (Byte.x53, 0x0053); (Byte.x54, 0x0054); (Byte.x55, 0x0055); (Byte.x56, 0x0056);
   (Byte.x57, 0x0057); (Byte.x58, 0x0058); (Byte.x59, 0x0059); (Byte.x5a, 0x005a); (Byte.x5b, 0x005b);
   (Byte.x5c, 0x005c); (Byte.x5d, 0x005d); (Byte.x5e, 0x005e); (Byte.x5f, 0x005f); (Byte.x60, 0x0060);
   (Byte.x61, 0x0061); (Byte.x62, 0x0062); (Byte.x63, 0x0063); (Byte.x64, 0x0064); (Byte.x65, 0x0065);
   (Byte.x66, 0x0066); (Byte.x67, 0x0067); (Byte.x68, 0x0068); (Byte.x69, 0x0069); (Byte.x6a, 0x006a);
   (Byte.x6b, 0x006b); (Byte.x6c, 0x006c); (Byte.x6d, 0x006d); (Byte.x6e, 0x006e); (Byte.x6f, 0x006f);
   (Byte.x70, 0x0070); (Byte.x71, 0x0071); (Byte.x72, 0x0072); (Byte.x73, 0x0073); (Byte.x74, 0x0074);
   (Byte.x75, 0x0075); (Byte.x76, 0x0076); (Byte.x77, 0x0077); (Byte.x78, 0x0078); (Byte.x79, 0x0079);
   (Byte.x7a, 0x007a); (Byte.x7b, 0x007b); (Byte.x7c, 0x007c); (Byte.x7d, 0x007d); (Byte.x7e, 0x007e);
   (Byte.xa1, 0x00a1); (Byte.xa2, 0x00a2); (Byte.xa3, 0x00a3); (Byte.xa4, 0x2044); (Byte.xa5, 0x00a5);
   (Byte.xa6, 0x0192); (Byte.xa7, 0x00a7); (Byte.xa8, 0x00a4); (Byte.xa9, 0x0027); (Byte.xaa, 0x201c);
   (Byte.xab, 0x00ab); (Byte.xac, 0x2039); (Byte.xad, 0x203a); (Byte.xae, 0xfb01); (Byte.xaf, 0xfb02);
   (Byte.xb1, 0x2013); (Byte.xb2, 0x2020); (Byte.xb3, 0x2021); (Byte.xb4, 0x00b7); (Byte.xb6, 0x00b6);
   (Byte.xb7, 0x2022); (Byte.xb8, 0x201a); (Byte.xb9, 0x201e); (Byte.xba, 0x201d); (Byte.xbb, 0x00bb);
   (Byte.xbc, 0x2026); (Byte.xbd, 0x2030); (Byte.xbf, 0x00bf); (Byte.xc1, 0x0060); (Byte.xc2, 0x00b4);
   (Byte.xc3, 0x02c6); (Byte.xc4, 0x02dc); (Byte.xc5, 0x00af); (Byte.xc6, 0x02d8); (Byte.xc7, 0x02d9);
   (Byte.xc8, 0x00a8); (Byte.xca, 0x02da); (Byte.xcb, 0x00b8); (Byte.xcc, 0x02dd); (Byte.xcd, 0x02db);
   (Byte.xce, 0x02c7); (Byte.xcf, 0x2014); (Byte.xe0, 0x00c6); (Byte.xe2, 0x00aa); (Byte.xe7, 0x0141);
   (Byte.xe8, 0x00d8); (Byte.xe9, 0x0152); (Byte.xea, 0x00ba); (Byte.xf0, 0x00e6); (Byte.xf5, 0x0131);
   (Byte.xf7, 0x0142); (Byte.xf8, 0x00f8); (Byte.xf9, 0x0153); (Byte.xfa, 0x00df)].

(** [simpleEncodings] is a map of the standard 8 bit character encodings. *)
Definition simpleEncodings : gmap string (gmap byte Z) :=
  list_to_map
    [("MacExpertEncoding"%string, list_to_map MacExpertEncoding_table);
     ("MacRomanEncoding"%string, list_to_map MacRomanEncoding_table);
     ("PdfDocEncoding"%string, list_to_map PdfDocEncoding_table);
     ("StandardEncoding"%string, list_to_map StandardEncoding_table)].

(** ** Results of the transforms and of the constructors *)

(** The error of a [Transform]: [nil], [transform.ErrShortDst] or
    [transform.ErrShortSrc]. *)
Inductive error : Type := ErrNil | ErrShortDst | ErrShortSrc.

(** What a call of [Transform] leaves behind: the contents of the
    destination buffer and the three results. *)
Record TransformResult : Type := {
  buf : list byte;
  nDst : nat;
  nSrc : nat;
  err : error
}.

(** A call either returns or stops in a run-time panic. *)
Inductive outcome (A : Type) : Type :=
  | Returns (a : A)
  | Panics.
Arguments Returns {A} a.
Arguments Panics {A}.

(** A constructor returns an encoder or an error made by [errors.New]. *)
Inductive result (A : Type) : Type :=
  | Ok (a : A)
  | Err (msg : string).
Arguments Ok {A} a.
Arguments Err {A} msg.

Section Encoding.

(** Declared elsewhere in the package and taken as parameters: the rune
    standing for a missing code, the glyph list lookup, the base name of
    the WinAnsi encoding and the builder of a [Differences] array. *)
Variable MissingCodeRune : rune.
Variable GlyphToRune : GlyphName -> option rune.
Variable baseWinAnsi : string.
Variable toFontDifferences : gmap N string -> PdfObject.

Definition newSimpleEncoderFromMap (order : list (byte * rune))
    (name : string) (encoding : gmap byte Z) : simpleEncoding :=
  {| baseName := name;
     decode := encoding;
     encode := foldl (fun (e : gmap Z byte) '(b, r) => <[r := b]> e) ∅ order |}.

(** [BaseName] returns a base name of the encoder. *)
Definition BaseName (enc : simpleEncoding) : string := baseName enc.

Definition Charcodes (order : list (byte * rune)) (enc : simpleEncoding)
  : list CharCode :=
  let codes := foldl (fun codes '(b, _) => codes ++ [CharCode_of_byte b]) [] order in
  sort_Slice N.ltb codes.

Definition RuneToCharcode (enc : simpleEncoding) (r : rune) : CharCode * bool :=
  match encode enc !! r with
  | Some b => (CharCode_of_byte b, true)
  | None => (CharCode_of_byte Byte.x00, false)
  end.

Definition CharcodeToRune (enc : simpleEncoding) (code : CharCode) : rune * bool :=
  if (0xff <? code)%N then (MissingCodeRune, false)
  else
    let b := byte_of_N code in
    match decode enc !! b with
    | Some r => (r, true)
    | None => (0, false)
    end.

Definition ToPdfObject (enc : simpleEncoding) : PdfObject :=
  if String.eqb (baseName enc) "MacRomanEncoding"
     || String.eqb (baseName enc) "MacExpertEncoding"
     || String.eqb (baseName enc) baseWinAnsi
  then MakeName (baseName enc)
  else
    let dict := MakeDict in
    let dict := dict_Set "Type" (MakeName "Encoding") dict in
    let dict := dict_Set "BaseEncoding" (MakeName (baseName enc)) dict in
    let dict := dict_Set "Differences" (toFontDifferences ∅) dict in
    MakeIndirectObject dict.

(** The body of the loops over a map from codes to glyph names: a name
    that resolves sets the rune of [byte(code)], one that does not is
    skipped. *)
Definition setGlyph (m : gmap byte Z) '((code, glyph) : CharCode * GlyphName)
  : gmap byte Z :=
  match GlyphToRune glyph with
  | None => m
  | Some r => <[byte_of_N code := r]> m
  end.

(** Modelled from the spec: [ApplyDifferences] is defined in another file
    of the package. The new [decode] is the base's with every code of the
    differences whose glyph name resolves replaced by the resolved rune
    (names that do not resolve are skipped), [encode] is rebuilt by
    inverting the new [decode], and the base name is kept. *)
Definition ApplyDifferences (o_diff : list (CharCode * GlyphName))
    (o_inv : list (byte * rune)) (base : simpleEncoding)
    (differences : gmap N string) : simpleEncoding :=
  newSimpleEncoderFromMap o_inv (baseName base)
                          (foldl setGlyph (decode base) o_diff).

(** The map [baseEncoding] built by the loop of
    [NewCustomSimpleTextEncoder] over [encoding], visited in [order]. *)
Definition customBaseEncoding (order : list (CharCode * GlyphName)) : gmap byte Z :=
  foldl setGlyph ∅ order.

(** [NewCustomSimpleTextEncoder] returns a simpleEncoder based on map
    [encoding] and difference map [differences]. The first four arguments
    are the orders in which the maps are visited: [encoding], the base
    map, [differences] and the map with the differences applied. *)
Definition NewCustomSimpleTextEncoder
    (o_enc : list (CharCode * GlyphName)) (o_base : list (byte * rune))
    (o_diff : list (CharCode * GlyphName)) (o_inv : list (byte * rune))
    (encoding differences : gmap N string) : result simpleEncoding :=
  if (size encoding =? 0)%nat then Err "empty custom encoding"
  else
    let baseEncoding := customBaseEncoding o_enc in
    let enc := newSimpleEncoderFromMap o_base "custom" baseEncoding in
    let enc := if negb (size differences =? 0)%nat
               then ApplyDifferences o_diff o_inv enc differences
               else enc in
    Ok enc.

(** [NewSimpleTextEncoder] returns a simpleEncoder based on predefined
    encoding [baseName] and difference map [differences]; [simple] is the
    registry of constructors. *)
Definition NewSimpleTextEncoder (simple : gmap string simpleEncoding)
    (o_base : list (byte * rune))
    (o_diff : list (CharCode * GlyphName)) (o_inv : list (byte * rune))
    (name : string) (differences : gmap N string) : result simpleEncoding :=
  let enc :=
    match simple !! name with
    | Some fnc => Ok fnc
    | None =>
        match simpleEncodings !! name with
        | None => Err "unsupported font encoding"
        | Some baseEncoding => Ok (newSimpleEncoderFromMap o_base name baseEncoding)
        end
    end in
  match enc with
  | Err msg => Err msg
  | Ok enc =>
      Ok (if negb (size differences =? 0)%nat
          then ApplyDifferences o_diff o_inv enc differences
          else enc)
  end.

(** *** The decoder: bytes to UTF-8 text *)

(** The local variables of the loop are the part of the destination
    already passed ([done]), the rest of it ([dst]), the rest of the
    source and the two counters. *)
Fixpoint simpleDecoder_loop (m : gmap byte Z) (done dst src : list byte)
    (nDst nSrc : nat) : outcome TransformResult :=
  match src with
  | [] => Returns {| buf := done ++ dst; nDst := nDst; nSrc := nSrc; err := ErrNil |}
  | b :: src =>
      let r := match m !! b with
               | Some r => r
               | None => MissingCodeRune
               end in
      if Z.of_nat (length dst) <? utf8.RuneLen r then
        Returns {| buf := done ++ dst; nDst := nDst; nSrc := nSrc; err := ErrShortDst |}
      else
        match utf8.EncodeRune dst r with
        | None => Panics
        | Some (dst, n) =>
            simpleDecoder_loop m (done ++ take n dst) (drop n dst) src
                               (nDst + n) (nSrc + 1)
        end
  end.

(** [Transform] implements transform.Transformer. *)
Definition simpleDecoder_Transform (m : gmap byte Z) (dst src : list byte)
    (atEOF : bool) : outcome TransformResult :=
  simpleDecoder_loop m [] dst src 0 0.

(** *** The encoder: UTF-8 text to bytes *)

(** One pass of the loop consumes at least one byte of a source that is
    not empty: [fuel] bounds the number of passes and [None] means that
    it ran out. *)
Fixpoint simpleEncoder_loop (fuel : nat) (m : gmap Z byte) (done dst src : list byte)
    (atEOF : bool) (nDst nSrc : nat) : option TransformResult :=
  match src with
  | [] => Some {| buf := done ++ dst; nDst := nDst; nSrc := nSrc; err := ErrNil |}
  | _ :: _ =>
      if negb (utf8.FullRune src) && negb atEOF then
        Some {| buf := done ++ dst; nDst := nDst; nSrc := nSrc; err := ErrShortSrc |}
      else
        match dst with
        | [] =>
            Some {| buf := done ++ dst; nDst := nDst; nSrc := nSrc; err := ErrShortDst |}
        | _ :: dst' =>
            let '(r, n) := utf8.DecodeRune src in
            let r := if r =? utf8.RuneError then MissingCodeRune else r in
            let b := match m !! r with
                     | Some b => b
                     | None =>
                         match m !! MissingCodeRune with
                         | Some b => b
                         | None => Byte.x00
                         end
                     end in
            match fuel with
            | O => None
            | S fuel =>
                simpleEncoder_loop fuel m (done ++ [b]) dst' (drop n src) atEOF
                                   (nDst + 1) (nSrc + n)
            end
        end
  end.

(** [Transform] implements transform.Transformer. *)
Definition simpleEncoder_Transform (m : gmap Z byte) (dst src : list byte)
    (atEOF : bool) : option TransformResult :=
  simpleEncoder_loop (length src) m [] dst src atEOF 0 0.

End Encoding.

(** ** What the transforms compute *)

(** The bytes [utf8.EncodeRune] writes for a rune. *)
Definition utf8_bytes (r : rune) : list byte :=
  match utf8.EncodeRune (repeat Byte.x00 utf8.UTFMax) r with
  | Some (p, n) => take n p
  | None => []
  end.

(** The rune the decoder resolves a byte to. *)
Definition decoded_rune (mcr : rune) (m : gmap byte Z) (b : byte) : rune :=
  match m !! b with
  | Some r => r
  | None => mcr
  end.

(** The text of a whole source: the UTF-8 of the rune of each byte. *)
Definition decode_text (mcr : rune) (m : gmap byte Z) (src : list byte) : list byte :=
  flat_map (fun b => utf8_bytes (decoded_rune mcr m b)) src.

(** The byte the encoder writes for the rune [utf8.DecodeRune] returned. *)
Definition encoded_byte (mcr : rune) (m : gmap Z byte) (r : rune) : byte :=
  let r := if r =? utf8.RuneError then mcr else r in
  match m !! r with
  | Some b => b
  | None =>
      match m !! mcr with
      | Some b => b
      | None => Byte.x00
      end
  end.

(** The bytes of a whole UTF-8 source: one byte for each rune decoded in
    turn; [skip] counts the bytes left of the rune being passed. *)
Fixpoint encode_text_skip (mcr : rune) (m : gmap Z byte) (skip : nat) (src : list byte)
  : list byte :=
  match src with
  | [] => []
  | _ :: src' =>
      match skip with
      | S skip => encode_text_skip mcr m skip src'
      | O =>
          let '(r, n) := utf8.DecodeRune src in
          encoded_byte mcr m r :: encode_text_skip mcr m (n - 1) src'
      end
  end.

Definition encode_text (mcr : rune) (m : gmap Z byte) (src : list byte) : list byte :=
  encode_text_skip mcr m 0 src.

(** A rune that UTF-8 can encode: a Unicode scalar value. *)
Definition valid_rune (r : rune) : Prop :=
  0 <= r <= utf8.MaxRune /\ ~ (utf8.surrogateMin <= r <= utf8.surrogateMax).

(** The bytes of a scalar value, in arithmetic. *)
Definition utf8_arith (r : rune) : list Z :=
  if r <=? utf8.rune1Max then [r]
  else if r <=? utf8.rune2Max then [192 + r / 64; 128 + r mod 64]
  else if r <=? utf8.rune3Max then [224 + r / 4096; 128 + (r / 64) mod 64; 128 + r mod 64]
  else [240 + r / 262144; 128 + (r / 4096) mod 64; 128 + (r / 64) mod 64; 128 + r mod 64].

(** A source that starts with the UTF-8 encoding of a scalar value. *)
Definition utf8_valid_head (src : list byte) : Prop :=
  exists r : rune, valid_rune r /\ take (length (utf8_bytes r)) src = utf8_bytes r.

(** A source that is the start, and not the whole, of the UTF-8 encoding
    of a scalar value: more bytes are needed to complete the rune. *)
Definition utf8_incomplete (src : list byte) : Prop :=
  exists (r : rune) (ext : list byte),
    valid_rune r /\ ext <> [] /\ utf8_bytes r = src ++ ext.

(** Every rune the decoder can resolve a byte to is a scalar value. *)
Definition valid_runes (mcr : rune) (m : gmap byte Z) : Prop :=
  forall b : byte, valid_rune (decoded_rune mcr m b).

(** ** A caller of [Transform]

    The protocol of package [transform]: the caller hands the transformer
    the source bytes it holds and a destination buffer, keeps the bytes
    written and drops the bytes consumed. After [ErrShortDst] it calls again
    with the next buffer; after [ErrShortSrc], or when the source it held
    was used up, it appends the next chunk of the input to what is left;
    [atEOF] is set once no chunk is left. [None] stands for a run that does
    not end well: no buffer left, a panic, or a short source at the end of
    the input. *)
Definition Transformer : Type := list byte -> list byte -> bool -> option TransformResult.

Fixpoint resume (T : Transformer) (dsts : list (list byte)) (pending : list byte)
    (chunks : list (list byte)) (out : list byte) (consumed : nat)
  : option (list byte * nat) :=
  match dsts with
  | [] => None
  | dst :: dsts =>
      let atEOF := match chunks with [] => true | _ :: _ => false end in
      match T dst pending atEOF with
      | None => None
      | Some res =>
          let out := out ++ take (nDst res) (buf res) in
          let consumed := (consumed + nSrc res)%nat in
          let pending := drop (nSrc res) pending in
          match err res, chunks with
          | ErrShortDst, _ => resume T dsts pending chunks out consumed
          | ErrNil, [] => Some (out, consumed)
          | ErrShortSrc, [] => None
          | _, chunk :: chunks => resume T dsts (pending ++ chunk) chunks out consumed
          end
      end
  end.

(** The total output and the total count of consumed bytes of a source fed
    in [chunks], with the destination buffers [dsts]. *)
Definition transformChunks (T : Transformer) (dsts : list (list byte))
    (chunks : list (list byte)) : option (list byte * nat) :=
  resume T dsts [] chunks [] 0%nat.

Definition returned {A} (o : outcome A) : option A :=
  match o with
  | Returns a => Some a
  | Panics => None
  end.

Definition decoderOf (mcr : rune) (enc : simpleEncoding) : Transformer :=
  fun dst src atEOF => returned (simpleDecoder_Transform mcr (decode enc) dst src atEOF).

Definition encoderOf (mcr : rune) (enc : simpleEncoding) : Transformer :=
  fun dst src atEOF => simpleEncoder_Transform mcr (encode enc) dst src atEOF.

(** ** Values for the examples *)

(** The package declares [MissingCodeRune] as U+FFFD, the Unicode
    replacement character, in another file; the definitions above take the
    rune as a parameter and the examples use this value. *)
Definition MissingCodeRune_value : rune := 0xFFFD.

(** A few entries of the glyph list, enough for the examples. *)
Definition sampleGlyphToRune (glyph : GlyphName) : option rune :=
  if String.eqb glyph "A" then Some 0x41
  else if String.eqb glyph "B" then Some 0x42
  else if String.eqb glyph "Adieresis" then Some 0xC4
  else None.

Definition sampleFontDifferences (diffs : gmap N string) : PdfObject :=
  PdfObjectArray
    (flat_map (fun '(c, g) => [PdfObjectInteger (Z.of_N c); PdfObjectName g])
              (map_to_list diffs)).

(** The encoder of a base table, its entries visited in the order of
    [map_to_list]. *)
Definition tableEncoder (name : string) (table : list (byte * rune)) : simpleEncoding :=
  newSimpleEncoderFromMap (map_to_list (list_to_map (M := gmap byte Z) table))
                          name (list_to_map table).

Definition MacRoman : simpleEncoding :=
  tableEncoder "MacRomanEncoding" MacRomanEncoding_table.

Definition StandardEncoding : simpleEncoding :=
  tableEncoder "StandardEncoding" StandardEncoding_table.

(** A code is in the decode map when it is the value of a byte that the map
    has as a key. *)
Definition in_decode (enc : simpleEncoding) (code : CharCode) : Prop :=
  exists b : byte, CharCode_of_byte b = code /\ is_Some (decode enc !! b).

(** The base names for which [ToPdfObject] answers with a name. *)
Definition intrinsic (baseWinAnsi name : string) : Prop :=
  name = "MacRomanEncoding"%string \/ name = "MacExpertEncoding"%string
  \/ name = baseWinAnsi.

(** A table of two entries: the glyph name of code 0x41 does not resolve,
    and code 0x141, whose low byte is 0x41 too, names the glyph A. *)
Definition collidingEncoding : gmap N string :=
  {[ 0x41%N := "nonexistent"%string; 0x141%N := "A"%string ]}.

(** ** The registry, the glyph accessors and the name *)

(** [RegisterSimpleEncoding] registers a SimpleEncoder constructer by PDF
    encoding name. The registry [simple] is a package variable: it is
    passed and returned; as in [NewSimpleTextEncoder], a constructor
    stands as the encoder it returns. Registering a name twice panics. *)
Definition RegisterSimpleEncoding (simple : gmap string simpleEncoding)
    (name : string) (fnc : simpleEncoding) : outcome (gmap string simpleEncoding) :=
  match simple !! name with
  | Some _ => Panics
  | None => Returns (<[name := fnc]> simple)
  end.

(** [String] returns a text representation of encoding. *)
Definition String_ (enc : simpleEncoding) : string :=
  ("simpleEncoding(" ++ baseName enc ++ ")")%string.

Section Glyphs.

(** The glyph list of the package, declared in other files: the lookup of
    a glyph name, and the lookup of a rune with its [ok] flag. *)
Variable MissingCodeRune : rune.
Variable GlyphToRune : GlyphName -> option rune.
Variable runeToGlyph : rune -> GlyphName * bool.

Definition RuneToGlyph (enc : simpleEncoding) (r : rune) : GlyphName * bool :=
  runeToGlyph r.

Definition CharcodeToGlyph (enc : simpleEncoding) (code : CharCode) : GlyphName * bool :=
  let '(r, ok) := CharcodeToRune MissingCodeRune enc code in
  if negb ok then (""%string, false)
  else RuneToGlyph enc r.

Definition GlyphToCharcode (enc : simpleEncoding) (glyph : GlyphName) : CharCode * bool :=
  match GlyphToRune glyph with
  | None => (Z.to_N MissingCodeRune, false)
  | Some r => RuneToCharcode enc r
  end.

End Glyphs.

(** ** Tests on tables and runes *)

(** A rune as Go holds it: a signed 32 bit integer. *)
Definition int32 (r : rune) : Prop := - 2 ^ 31 <= r < 2 ^ 31.

Definition valid_runeb (r : rune) : bool :=
  (0 <=? r) && (r <=? utf8.MaxRune)
  && negb ((utf8.surrogateMin <=? r) && (r <=? utf8.surrogateMax)).

(** No two entries of the table have the same rune. *)
Definition injective_table (table : list (byte * rune)) : bool :=
  forallb (fun '(b, r) =>
             forallb (fun '(b', r') => implb (r =? r') (Byte.eqb b b')) table) table.

(** No two bytes of the map have the same rune. *)
Definition injective_map (m : gmap byte Z) : Prop :=
  forall (b b' : byte) (r : rune), m !! b = Some r -> m !! b' = Some r -> b = b'.

(** The printable ASCII codes, 0x20 to 0x7e. *)
Definition printable (b : byte) : Prop := 0x20 <= byte_Z b <= 0x7e.

Definition printable_identity (table : list (byte * rune)) : bool :=
  forallb (fun n : nat =>
             match list_to_map (M := gmap byte Z) table !! byte_of_N (N.of_nat n) with
             | Some r => r =? Z.of_nat n
             | None => false
             end) (seq 0x20 95).

(** The sample glyph list read the other way. *)
Definition sampleRuneToGlyph (r : rune) : GlyphName * bool :=
  if r =? 0x41 then ("A"%string, true)
  else if r =? 0x42 then ("B"%string, true)
  else if r =? 0xC4 then ("Adieresis"%string, true)
  else (""%string, false).

(** A table with a rune that is not a scalar value. *)
Definition surrogateTable : gmap byte Z := {[ Byte.x00 := 0xD800 ]}.

(** The encoder of that table: a [simpleEncoding] whose decode map has a
    surrogate. *)
Definition surrogateEncoding : simpleEncoding :=
  newSimpleEncoderFromMap (map_to_list surrogateTable) "custom" surrogateTable.

(** A custom encoding of two codes, both below 256. *)
Definition sampleCustomEncoding : gmap N string :=
  {[ 0x41%N := "A"%string; 0x80%N := "Adieresis"%string ]}.

(** * Properties *)

(** ** Bytes *)

Lemma byte_to_N_inj (a b : byte) : Byte.to_N a = Byte.to_N b -> a = b.
Proof.
  intros E. apply (f_equal Byte.of_N) in E.
  rewrite !Byte.of_to_N in E. congruence.
Qed.

Lemma byte_to_N_lt (b : byte) : (Byte.to_N b < 256)%N.
Proof. pose proof (Byte.to_N_bounded b). lia. Qed.

Lemma byte_of_N_to_N (b : byte) : byte_of_N (Byte.to_N b) = b.
Proof.
  unfold byte_of_N. rewrite N.mod_small by apply byte_to_N_lt.
  now rewrite Byte.of_to_N.
Qed.

Lemma byte_to_N_of_N (n : N) : Byte.to_N (byte_of_N n) = (n mod 256)%N.
Proof.
  unfold byte_of_N. destruct (Byte.of_N (n mod 256)) as [b|] eqn:E.
  - now apply Byte.to_of_N.
  - apply Byte.of_N_None_iff in E.
    pose proof (N.mod_upper_bound n 256). lia.
Qed.

Lemma byte_to_N_of_N_small (n : N) : (n < 256)%N -> Byte.to_N (byte_of_N n) = n.
Proof. intros. rewrite byte_to_N_of_N. now apply N.mod_small. Qed.

(** ** The tables and the constructors on examples *)

(** The number of entries of each table, as the comments of the source give
    them. *)
Example table_sizes :
  size (list_to_map (M := gmap byte Z) MacExpertEncoding_table) = 165%nat
  /\ size (list_to_map (M := gmap byte Z) MacRomanEncoding_table) = 255%nat
  /\ size (list_to_map (M := gmap byte Z) PdfDocEncoding_table) = 252%nat
  /\ size (list_to_map (M := gmap byte Z) StandardEncoding_table) = 149%nat.
Proof. repeat split; vm_compute; reflexivity. Qed.

Example MacRoman_code_0x80 :
  CharcodeToRune MissingCodeRune_value MacRoman 0x80 = (0xC4, true).
Proof. vm_compute. reflexivity. Qed.

Example StandardEncoding_code_0x27 :
  CharcodeToRune MissingCodeRune_value StandardEncoding 0x27 = (0x2019, true).
Proof. vm_compute. reflexivity. Qed.

Example StandardEncoding_code_0x01 :
  CharcodeToRune MissingCodeRune_value StandardEncoding 0x01 = (0, false).
Proof. vm_compute. reflexivity. Qed.

Example NewCustomSimpleTextEncoder_empty :
  NewCustomSimpleTextEncoder sampleGlyphToRune [] [] [] [] ∅ ∅
  = Err "empty custom encoding".
Proof. reflexivity. Qed.

Example NewSimpleTextEncoder_bogus :
  NewSimpleTextEncoder sampleGlyphToRune ∅ [] [] [] "Bogus" ∅
  = Err "unsupported font encoding".
Proof. vm_compute. reflexivity. Qed.

(** ** The accessors *)

Lemma in_decode_le enc code : in_decode enc code -> (code <= 255)%N.
Proof. intros (b & <- & _). apply Byte.to_N_bounded. Qed.

Lemma in_decode_lookup enc code :
  (code <= 255)%N -> in_decode enc code <-> is_Some (decode enc !! byte_of_N code).
Proof.
  intros Hle. split.
  - intros (b & <- & Hb). now rewrite byte_of_N_to_N.
  - intros Hb. exists (byte_of_N code). split; [|done].
    apply byte_to_N_of_N_small. lia.
Qed.

(** C1, as the code has it: for a code absent from the decode map the
    lookup fails; the rune returned with the failure is the zero value when
    the code is at most 255, and [MissingCodeRune] when it is greater. *)
Theorem CharcodeToRune_absent (mcr : rune) (enc : simpleEncoding) (code : CharCode) :
  ~ in_decode enc code ->
  CharcodeToRune mcr enc code = (if (255 <? code)%N then mcr else 0, false).
Proof.
  intros Habs. unfold CharcodeToRune.
  destruct (255 <? code)%N eqn:Hc; [done|].
  apply N.ltb_ge in Hc.
  destruct (decode enc !! byte_of_N code) as [r|] eqn:E; [|done].
  exfalso. apply Habs. apply (proj2 (in_decode_lookup enc code Hc)). by rewrite E.
Qed.

Lemma CharcodeToRune_absent_witness :
  CharcodeToRune MissingCodeRune_value StandardEncoding 0x01 = (0, false)
  /\ CharcodeToRune MissingCodeRune_value StandardEncoding 0x127 = (0xFFFD, false).
Proof.
  split.
  - apply (CharcodeToRune_absent MissingCodeRune_value StandardEncoding 0x01).
    intros Hin. apply in_decode_lookup in Hin; [|vm_compute; discriminate].
    vm_compute in Hin. destruct Hin as [r Hr]. discriminate Hr.
  - apply (CharcodeToRune_absent MissingCodeRune_value StandardEncoding 0x127).
    intros Hin. apply in_decode_le in Hin. vm_compute in Hin. apply Hin. reflexivity.
Defined.

(** C1 as stated fails above 255: code 256 is in no decode map, and the rune
    that comes back with [ok = false] is [MissingCodeRune], not rune 0. *)
Lemma CharcodeToRune_above_255_not_zero :
  ~ in_decode MacRoman 256
  /\ CharcodeToRune MissingCodeRune_value MacRoman 256 = (0xFFFD, false)
  /\ CharcodeToRune MissingCodeRune_value MacRoman 256 <> (0, false).
Proof.
  split; [|split].
  - intros Hin. apply in_decode_le in Hin. vm_compute in Hin. apply Hin. reflexivity.
  - reflexivity.
  - vm_compute. discriminate.
Qed.

(** ** [sort.Slice] with [<] on codes *)

Lemma sort_insert_perm {A} (less : A -> A -> bool) (x : A) (l : list A) :
  sort_insert less x l ≡ₚ x :: l.
Proof.
  induction l as [|y l IH]; simpl; [done|].
  destruct (less x y); [done|].
  rewrite IH. apply Permutation_swap.
Qed.

Lemma sort_Slice_perm {A} (less : A -> A -> bool) (l : list A) :
  sort_Slice less l ≡ₚ l.
Proof.
  unfold sort_Slice. induction l as [|x l IH]; simpl; [done|].
  rewrite sort_insert_perm. by rewrite IH.
Qed.

Lemma sort_insert_sorted (x : N) (l : list N) :
  StronglySorted N.le l -> StronglySorted N.le (sort_insert N.ltb x l).
Proof.
  induction 1 as [|y l Hl IH Hy]; simpl.
  - repeat constructor.
  - destruct (N.ltb_spec x y) as [Hlt|Hge].
    + constructor; [by constructor|].
      constructor; [lia|].
      eapply Forall_impl; [exact Hy|]. intros z Hz. simpl in Hz. lia.
    + constructor; [done|].
      rewrite sort_insert_perm. by constructor.
Qed.

Lemma sort_Slice_sorted (l : list N) : StronglySorted N.le (sort_Slice N.ltb l).
Proof.
  unfold sort_Slice. induction l as [|x l IH]; simpl.
  - constructor.
  - by apply sort_insert_sorted.
Qed.

Lemma sorted_le_NoDup_lt (l : list N) :
  StronglySorted N.le l -> NoDup l -> StronglySorted N.lt l.
Proof.
  induction 1 as [|x l Hl IH Hx]; intros Hnd; [constructor|].
  apply NoDup_cons in Hnd as [Hnin Hnd].
  constructor; [by apply IH|].
  rewrite Forall_forall in Hx |- *. intros y Hy.
  specialize (Hx y Hy). assert (x <> y) by (intros ->; done). lia.
Qed.

(** ** [Charcodes] *)

Lemma Charcodes_collect (order : list (byte * rune)) (acc : list CharCode) :
  foldl (fun codes '(b, _) => codes ++ [CharCode_of_byte b]) acc order
  = acc ++ ((CharCode_of_byte ∘ fst) <$> order).
Proof.
  revert acc. induction order as [|[b r] order IH]; intros acc; simpl.
  - by rewrite app_nil_r.
  - rewrite IH. by rewrite <- app_assoc.
Qed.

#[local] Instance CharCode_of_byte_inj : Inj (=) (=) CharCode_of_byte.
Proof. intros a b. apply byte_to_N_inj. Qed.

Lemma Charcodes_perm (order : list (byte * rune)) (enc : simpleEncoding) :
  range_of (decode enc) order ->
  Charcodes order enc ≡ₚ CharCode_of_byte <$> (map_to_list (decode enc)).*1.
Proof.
  intros Hr. unfold Charcodes. rewrite Charcodes_collect. simpl.
  rewrite sort_Slice_perm. unfold range_of in Hr. rewrite Hr.
  by rewrite list_fmap_compose.
Qed.

Lemma Charcodes_elem (order : list (byte * rune)) (enc : simpleEncoding) (c : CharCode) :
  range_of (decode enc) order ->
  c ∈ Charcodes order enc <-> in_decode enc c.
Proof.
  intros Hr. rewrite (Charcodes_perm order enc Hr).
  rewrite list_elem_of_fmap. unfold in_decode. split.
  - intros (b & -> & Hb). exists b. split; [done|].
    apply list_elem_of_fmap in Hb as ([b' r] & -> & Hbr).
    apply elem_of_map_to_list in Hbr. simpl. by rewrite Hbr.
  - intros (b & <- & [r Hb]). exists b. split; [done|].
    apply list_elem_of_fmap. exists (b, r). split; [done|].
    by apply elem_of_map_to_list.
Qed.

(** C9: for every order in which the loop visits [decode], [Charcodes]
    returns the codes of the decode map, each once, in strictly ascending
    order; it is the only strictly ascending list of exactly these codes. *)
Theorem Charcodes_sorted_keys (order : list (byte * rune)) (enc : simpleEncoding) :
  range_of (decode enc) order ->
  StronglySorted N.lt (Charcodes order enc)
  /\ NoDup (Charcodes order enc)
  /\ (forall c : CharCode, c ∈ Charcodes order enc <-> in_decode enc c)
  /\ (forall l : list CharCode,
        StronglySorted N.lt l -> (forall c, c ∈ l <-> in_decode enc c) ->
        Charcodes order enc = l).
Proof.
  intros Hr.
  assert (Hnd : NoDup (Charcodes order enc)).
  { rewrite (Charcodes_perm order enc Hr).
    apply NoDup_fmap_2; [apply _|]. apply NoDup_fst_map_to_list. }
  assert (Hs : StronglySorted N.lt (Charcodes order enc)).
  { apply sorted_le_NoDup_lt; [|done]. apply sort_Slice_sorted. }
  split; [done|]. split; [done|].
  split; [intros c; by apply Charcodes_elem|].
  intros l Hl Hel.
  apply (StronglySorted_unique_strong N.lt); [intros; lia|done|done|].
  apply NoDup_Permutation; [done| |].
  - clear Hel. induction Hl as [|x l Hl IH Hx]; constructor; [|done].
    intros Hin. rewrite Forall_forall in Hx. specialize (Hx x Hin). lia.
  - intros c. rewrite Hel. by apply Charcodes_elem.
Qed.

Lemma Charcodes_sorted_keys_witness :
  StronglySorted N.lt (Charcodes (map_to_list (decode StandardEncoding)) StandardEncoding).
Proof.
  apply (Charcodes_sorted_keys (map_to_list (decode StandardEncoding)) StandardEncoding).
  unfold range_of. reflexivity.
Defined.

(** ** The inverse map built by [newSimpleEncoderFromMap] *)

Lemma invert_lookup (order : list (byte * rune)) (e : gmap Z byte) (r : rune) (b : byte) :
  foldl (fun (e : gmap Z byte) '(b, r) => <[r := b]> e) e order !! r = Some b ->
  e !! r = Some b \/ (b, r) ∈ order.
Proof.
  revert e. induction order as [|[b' r'] order IH]; intros e; simpl; [by left|].
  intros H. apply IH in H as [H|H].
  - destruct (decide (r' = r)) as [->|Hne].
    + rewrite lookup_insert_eq in H. injection H as ->. right. by left.
    + rewrite lookup_insert_ne in H by done. by left.
  - right. by right.
Qed.

Lemma encode_sound (order : list (byte * rune)) (name : string) (encoding : gmap byte Z)
    (r : rune) (b : byte) :
  range_of encoding order ->
  encode (newSimpleEncoderFromMap order name encoding) !! r = Some b ->
  encoding !! b = Some r.
Proof.
  intros Hr H. simpl in H. apply invert_lookup in H as [H|H].
  - by rewrite lookup_empty in H.
  - unfold range_of in Hr. rewrite Hr in H. by apply elem_of_map_to_list in H.
Qed.

(** C5: for an encoder made by [newSimpleEncoderFromMap], whatever the order
    in which the constructor visits the table, a rune that [RuneToCharcode]
    maps to a code is the rune [CharcodeToRune] returns for that code. *)
Theorem RuneToCharcode_roundtrip (mcr : rune) (order : list (byte * rune))
    (name : string) (encoding : gmap byte Z) (r : rune) (c : CharCode) :
  range_of encoding order ->
  RuneToCharcode (newSimpleEncoderFromMap order name encoding) r = (c, true) ->
  CharcodeToRune mcr (newSimpleEncoderFromMap order name encoding) c = (r, true).
Proof.
  intros Hr H. unfold RuneToCharcode in H.
  destruct (encode (newSimpleEncoderFromMap order name encoding) !! r) as [b|] eqn:E;
    [|discriminate].
  injection H as <-.
  apply (encode_sound order name encoding r b Hr) in E.
  unfold CharcodeToRune, CharCode_of_byte.
  pose proof (Byte.to_N_bounded b) as Hb.
  destruct (N.ltb_spec 255 (Byte.to_N b)) as [Hlt|_]; [lia|].
  rewrite byte_of_N_to_N. simpl. by rewrite E.
Qed.

Lemma RuneToCharcode_roundtrip_witness :
  RuneToCharcode MacRoman 0xC4 = (0x80%N, true)
  /\ CharcodeToRune MissingCodeRune_value MacRoman 0x80 = (0xC4, true).
Proof.
  split; [reflexivity|].
  apply (RuneToCharcode_roundtrip MissingCodeRune_value
           (map_to_list (list_to_map (M := gmap byte Z) MacRomanEncoding_table))
           "MacRomanEncoding" (list_to_map MacRomanEncoding_table) 0xC4 0x80%N).
  - unfold range_of. reflexivity.
  - vm_compute. reflexivity.
Defined.

(** ** Serialisation *)

Lemma intrinsic_test (baseWinAnsi name : string) :
  String.eqb name "MacRomanEncoding" || String.eqb name "MacExpertEncoding"
  || String.eqb name baseWinAnsi = true <-> intrinsic baseWinAnsi name.
Proof.
  unfold intrinsic. rewrite !orb_true_iff, !String.eqb_eq. tauto.
Qed.

Lemma ToPdfObject_dict (baseWinAnsi : string) (tfd : gmap N string -> PdfObject)
    (enc : simpleEncoding) :
  ~ intrinsic baseWinAnsi (baseName enc) ->
  ToPdfObject baseWinAnsi tfd enc
  = PdfIndirectObject (PdfObjectDictionary
      [("Type"%string, PdfObjectName "Encoding");
       ("BaseEncoding"%string, PdfObjectName (baseName enc));
       ("Differences"%string, tfd ∅)]).
Proof.
  intros Hn. unfold ToPdfObject.
  destruct (String.eqb (baseName enc) "MacRomanEncoding"
            || String.eqb (baseName enc) "MacExpertEncoding"
            || String.eqb (baseName enc) baseWinAnsi) eqn:E.
  - exfalso. apply Hn. by apply intrinsic_test.
  - reflexivity.
Qed.

Lemma ToPdfObject_name (baseWinAnsi : string) (tfd : gmap N string -> PdfObject)
    (enc : simpleEncoding) :
  intrinsic baseWinAnsi (baseName enc) ->
  ToPdfObject baseWinAnsi tfd enc = PdfObjectName (baseName enc).
Proof.
  intros Hi. unfold ToPdfObject. apply intrinsic_test in Hi. by rewrite Hi.
Qed.

(** C2: whenever [ToPdfObject] emits a dictionary, its [Differences] entry
    is [toFontDifferences] of the empty map, whatever the maps of the
    encoder hold: two encoders with the same base name serialise alike, and
    applying differences to an encoder does not change what it serialises
    to. *)
Theorem ToPdfObject_Differences_empty (baseWinAnsi : string)
    (tfd : gmap N string -> PdfObject) (enc : simpleEncoding)
    (entries : list (string * PdfObject)) :
  ToPdfObject baseWinAnsi tfd enc = PdfIndirectObject (PdfObjectDictionary entries) ->
  dict_Get "Differences" entries = Some (tfd ∅)
  /\ (forall enc' : simpleEncoding,
        baseName enc' = baseName enc ->
        ToPdfObject baseWinAnsi tfd enc' = ToPdfObject baseWinAnsi tfd enc)
  /\ (forall (g : GlyphName -> option rune) o_diff o_inv (differences : gmap N string),
        ToPdfObject baseWinAnsi tfd (ApplyDifferences g o_diff o_inv enc differences)
        = PdfIndirectObject (PdfObjectDictionary entries)).
Proof.
  intros H.
  assert (Hn : ~ intrinsic baseWinAnsi (baseName enc)).
  { intros Hi. rewrite (ToPdfObject_name _ _ _ Hi) in H. discriminate. }
  rewrite (ToPdfObject_dict _ _ _ Hn) in H. injection H as <-.
  split; [reflexivity|]. split.
  - intros enc' He. unfold ToPdfObject. by rewrite He.
  - intros g o_diff o_inv differences.
    rewrite ToPdfObject_dict; [reflexivity|done].
Qed.

Lemma ToPdfObject_Differences_empty_witness :
  dict_Get "Differences"
    [("Type"%string, PdfObjectName "Encoding");
     ("BaseEncoding"%string, PdfObjectName "StandardEncoding");
     ("Differences"%string, sampleFontDifferences ∅)]
  = Some (sampleFontDifferences ∅).
Proof.
  apply (ToPdfObject_Differences_empty "WinAnsiEncoding" sampleFontDifferences
           StandardEncoding).
  reflexivity.
Defined.

(** C10: [ToPdfObject] answers with the bare name exactly for the base
    names MacRomanEncoding, MacExpertEncoding and the WinAnsi base name; for
    every other base name it answers with an indirect dictionary whose
    [Type] is the name Encoding and whose [BaseEncoding] is the base name
    of the encoder. StandardEncoding and custom are such other names, the
    WinAnsi base name being neither. *)
Theorem ToPdfObject_name_or_dict (baseWinAnsi : string)
    (tfd : gmap N string -> PdfObject) (enc : simpleEncoding) :
  (intrinsic baseWinAnsi (baseName enc) ->
     ToPdfObject baseWinAnsi tfd enc = PdfObjectName (baseName enc))
  /\ (~ intrinsic baseWinAnsi (baseName enc) ->
      exists entries,
        ToPdfObject baseWinAnsi tfd enc = PdfIndirectObject (PdfObjectDictionary entries)
        /\ dict_Get "Type" entries = Some (PdfObjectName "Encoding")
        /\ dict_Get "BaseEncoding" entries = Some (PdfObjectName (baseName enc)))
  /\ ((exists name, ToPdfObject baseWinAnsi tfd enc = PdfObjectName name) ->
      intrinsic baseWinAnsi (baseName enc))
  /\ (baseWinAnsi <> "StandardEncoding"%string -> baseWinAnsi <> "custom"%string ->
      baseName enc = "StandardEncoding"%string \/ baseName enc = "custom"%string ->
      ~ intrinsic baseWinAnsi (baseName enc)).
Proof.
  split; [apply ToPdfObject_name|]. split; [|split].
  - intros Hn. eexists. split; [by apply ToPdfObject_dict|]. split; reflexivity.
  - intros [name H].
    destruct (decide (baseName enc = "MacRomanEncoding"%string)) as [|N1]; [by left|].
    destruct (decide (baseName enc = "MacExpertEncoding"%string)) as [|N2];
      [by right; left|].
    destruct (decide (baseName enc = baseWinAnsi)) as [|N3]; [by right; right|].
    rewrite ToPdfObject_dict in H; [discriminate|].
    unfold intrinsic. tauto.
  - intros Hs Hc [E|E] [H|[H|H]]; rewrite E in H; try discriminate; congruence.
Qed.

Lemma ToPdfObject_name_or_dict_witness :
  ToPdfObject "WinAnsiEncoding" sampleFontDifferences MacRoman
  = PdfObjectName "MacRomanEncoding"
  /\ ~ intrinsic "WinAnsiEncoding" (baseName StandardEncoding).
Proof.
  destruct (ToPdfObject_name_or_dict "WinAnsiEncoding" sampleFontDifferences MacRoman)
    as (Hname & _).
  destruct (ToPdfObject_name_or_dict "WinAnsiEncoding" sampleFontDifferences
              StandardEncoding) as (_ & _ & _ & Hstd).
  split.
  - apply Hname. left. reflexivity.
  - apply Hstd; [discriminate|discriminate|left; reflexivity].
Defined.

(** ** [NewCustomSimpleTextEncoder] *)

Lemma customBase_lookup (g : GlyphName -> option rune)
    (order : list (CharCode * GlyphName)) (acc : gmap byte Z) (b : byte) :
  is_Some (foldl (setGlyph g) acc order !! b) <->
  is_Some (acc !! b)
  \/ exists code glyph r, (code, glyph) ∈ order /\ g glyph = Some r /\ byte_of_N code = b.
Proof.
  revert acc. induction order as [|[code glyph] order IH]; intros acc; simpl.
  - split; [by left|]. intros [H|(c & gl & r & H & _)]; [done|]. by inv H.
  - rewrite IH. split.
    + intros [H|(c & gl & r & Hin & Hg & Hb)].
      * destruct (g glyph) as [r|] eqn:Eg; [|by left].
        destruct (decide (byte_of_N code = b)) as [Heq|Hne].
        -- right. exists code, glyph, r. split; [by left|done].
        -- rewrite lookup_insert_ne in H by done. by left.
      * right. exists c, gl, r. split; [by right|done].
    + intros [H|(c & gl & r & Hin & Hg & Hb)].
      * left. destruct (g glyph) as [r|]; [|done].
        destruct (decide (byte_of_N code = b)) as [->|Hne].
        -- rewrite lookup_insert_eq. by eexists.
        -- by rewrite lookup_insert_ne.
      * inv Hin.
        -- left. rewrite Hg. rewrite lookup_insert_eq. by eexists.
        -- right. exists c, gl, r. done.
Qed.

Lemma customBaseEncoding_keys (g : GlyphName -> option rune)
    (o_enc : list (CharCode * GlyphName)) (encoding : gmap N string) (b : byte) :
  range_of encoding o_enc ->
  is_Some (customBaseEncoding g o_enc !! b) <->
  exists code glyph r,
    encoding !! code = Some glyph /\ g glyph = Some r /\ byte_of_N code = b.
Proof.
  intros Hr. unfold customBaseEncoding.
  rewrite customBase_lookup. rewrite lookup_empty. unfold range_of in Hr.
  split.
  - intros [[x Hx]|(c & gl & r & Hin & Hg & Hb)]; [discriminate|].
    exists c, gl, r. rewrite Hr in Hin. by apply elem_of_map_to_list in Hin.
  - intros (c & gl & r & Hin & Hg & Hb). right. exists c, gl, r.
    rewrite Hr. by rewrite elem_of_map_to_list.
Qed.

(** C8, as the code has it: the constructor fails, with the error of an
    empty encoding, exactly when the encoding map is empty; otherwise it
    returns an encoder whose base name is custom. The base map has a byte as
    key exactly when some entry whose glyph name resolves has a code with
    that low byte, so an entry whose name does not resolve adds nothing;
    the decode map of the result is the base map with the differences
    applied. The code of a skipped entry is absent from the result unless
    another entry, of the table or of the differences, whose glyph name
    resolves has a code with the same low byte. *)
Theorem NewCustomSimpleTextEncoder_result (g : GlyphName -> option rune)
    (o_enc : list (CharCode * GlyphName)) (o_base : list (byte * rune))
    (o_diff : list (CharCode * GlyphName)) (o_inv : list (byte * rune))
    (encoding differences : gmap N string) :
  range_of encoding o_enc ->
  range_of differences o_diff ->
  (NewCustomSimpleTextEncoder g o_enc o_base o_diff o_inv encoding differences
   = Err "empty custom encoding" <-> encoding = ∅)
  /\ (encoding <> ∅ ->
      exists enc,
        NewCustomSimpleTextEncoder g o_enc o_base o_diff o_inv encoding differences = Ok enc
        /\ BaseName enc = "custom"%string
        /\ decode enc = foldl (setGlyph g) (customBaseEncoding g o_enc) o_diff)
  /\ (forall b : byte,
        is_Some (customBaseEncoding g o_enc !! b) <->
        exists code glyph r,
          encoding !! code = Some glyph /\ g glyph = Some r /\ byte_of_N code = b)
  /\ (forall (mcr : rune) enc code glyph,
        NewCustomSimpleTextEncoder g o_enc o_base o_diff o_inv encoding differences = Ok enc ->
        encoding !! code = Some glyph -> g glyph = None ->
        (forall code' glyph',
           encoding !! code' = Some glyph' \/ differences !! code' = Some glyph' ->
           is_Some (g glyph') ->
           byte_of_N code' <> byte_of_N code) ->
        ~ in_decode enc code /\ snd (CharcodeToRune mcr enc code) = false).
Proof.
  intros Hr Hrd.
  assert (Hdec : forall enc,
    NewCustomSimpleTextEncoder g o_enc o_base o_diff o_inv encoding differences = Ok enc ->
    baseName enc = "custom"%string
    /\ decode enc = foldl (setGlyph g) (customBaseEncoding g o_enc) o_diff).
  { unfold NewCustomSimpleTextEncoder. intros enc H.
    destruct (size encoding =? 0)%nat; [discriminate|]. injection H as <-.
    destruct (Nat.eqb_spec (size differences) 0) as [Hz|Hnz]; simpl; [|done].
    apply map_size_empty_iff in Hz. subst differences.
    unfold range_of in Hrd. rewrite map_to_list_empty in Hrd.
    apply Permutation_nil_r in Hrd. by subst o_diff. }
  split; [|split; [|split]].
  - unfold NewCustomSimpleTextEncoder.
    destruct (Nat.eqb_spec (size encoding) 0) as [Hz|Hnz].
    + by apply map_size_empty_iff in Hz.
    + split; [discriminate|]. intros He. exfalso. apply Hnz.
      by apply map_size_empty_iff.
  - intros Hne.
    assert (exists enc, NewCustomSimpleTextEncoder g o_enc o_base o_diff o_inv
                          encoding differences = Ok enc) as [enc Hok].
    { unfold NewCustomSimpleTextEncoder.
      destruct (Nat.eqb_spec (size encoding) 0) as [Hz|Hnz]; [|by eexists].
      by apply map_size_empty_iff in Hz. }
    exists enc. split; [done|]. by apply Hdec.
  - intros b. by apply customBaseEncoding_keys.
  - intros mcr enc code glyph Hok Hc Hg Hother.
    apply Hdec in Hok as [_ Hd].
    assert (Habs : decode enc !! byte_of_N code = None).
    { apply eq_None_not_Some. rewrite Hd. intros Hs.
      apply customBase_lookup in Hs as [Hs|(c' & gl' & r' & Hin & Hg' & Hb')].
      - apply (customBaseEncoding_keys g o_enc encoding _ Hr) in Hs
          as (c' & gl' & r' & Hc' & Hg' & Hb').
        apply (Hother c' gl'); [by left|by rewrite Hg'|done].
      - unfold range_of in Hrd. rewrite Hrd in Hin.
        apply elem_of_map_to_list in Hin.
        apply (Hother c' gl'); [by right|by rewrite Hg'|done]. }
    split.
    + intros (b & <- & Hb). rewrite byte_of_N_to_N in Habs.
      rewrite Habs in Hb. by destruct Hb.
    + unfold CharcodeToRune. destruct (255 <? code)%N; [done|]. simpl.
      by rewrite Habs.
Qed.

Lemma NewCustomSimpleTextEncoder_result_witness :
  exists enc,
    NewCustomSimpleTextEncoder sampleGlyphToRune
      (map_to_list collidingEncoding) [(Byte.x41, 0x41)] [] [] collidingEncoding ∅ = Ok enc
    /\ BaseName enc = "custom"%string
    /\ decode enc
       = foldl (setGlyph sampleGlyphToRune)
           (customBaseEncoding sampleGlyphToRune (map_to_list collidingEncoding)) [].
Proof.
  destruct (NewCustomSimpleTextEncoder_result sampleGlyphToRune
              (map_to_list collidingEncoding) [(Byte.x41, 0x41)] [] []
              collidingEncoding ∅) as (_ & H & _).
  - unfold range_of. reflexivity.
  - unfold range_of. rewrite map_to_list_empty. reflexivity.
  - apply H. vm_compute. discriminate.
Defined.

(** C8 as stated fails: the entry for code 0x41 is skipped, its glyph name
    not resolving, and yet code 0x41 is present in the returned encoder,
    in whichever order the two entries are visited: [byte(code)] maps the
    resolved entry of code 0x141 to byte 0x41. *)
Lemma NewCustomSimpleTextEncoder_skipped_code_present :
  collidingEncoding !! 0x41%N = Some "nonexistent"%string
  /\ sampleGlyphToRune "nonexistent" = None
  /\ (forall o_enc,
        range_of collidingEncoding o_enc ->
        exists enc,
          NewCustomSimpleTextEncoder sampleGlyphToRune o_enc
            [(Byte.x41, 0x41)] [] [] collidingEncoding ∅ = Ok enc
          /\ CharcodeToRune MissingCodeRune_value enc 0x41 = (0x41, true)
          /\ in_decode enc 0x41).
Proof.
  split; [reflexivity|]. split; [reflexivity|].
  intros o_enc Hr. unfold range_of in Hr.
  assert (Hl : map_to_list collidingEncoding
               = [(0x141%N, "A"%string); (0x41%N, "nonexistent"%string)])
    by (vm_compute; reflexivity).
  rewrite Hl in Hr. clear Hl.
  assert (Ho : o_enc = [(0x41%N, "nonexistent"%string); (0x141%N, "A"%string)]
               \/ o_enc = [(0x141%N, "A"%string); (0x41%N, "nonexistent"%string)]).
  { pose proof (Permutation_length Hr) as Hlen.
    destruct o_enc as [|x [|y [|z o]]]; try discriminate Hlen.
    assert (Hx : x ∈ [(0x141%N, "A"%string); (0x41%N, "nonexistent"%string)])
      by (rewrite <- Hr; left).
    assert (Hy : y ∈ [(0x141%N, "A"%string); (0x41%N, "nonexistent"%string)])
      by (rewrite <- Hr; right; left).
    assert (Hnd : NoDup [x; y]).
    { rewrite Hr. apply NoDup_cons. split; [|apply NoDup_singleton].
      intros Hin. apply list_elem_of_singleton in Hin. discriminate Hin. }
    apply NoDup_cons in Hnd as [Hxy _].
    apply list_elem_of_In in Hx, Hy. simpl in Hx, Hy.
    destruct Hx as [<-|[<-|[]]], Hy as [<-|[<-|[]]]; try tauto;
      exfalso; apply Hxy; left. }
  destruct Ho as [-> | ->].
  - eexists. split; [reflexivity|]. split; [vm_compute; reflexivity|].
    exists Byte.x41. split; [reflexivity|]. vm_compute. eexists. reflexivity.
  - eexists. split; [reflexivity|]. split; [vm_compute; reflexivity|].
    exists Byte.x41. split; [reflexivity|]. vm_compute. eexists. reflexivity.
Qed.

(** ** UTF-8 *)

Lemma first_cases (b : Z) :
  utf8.first b = utf8.as_ \/ utf8.first b = utf8.xx \/ utf8.first b = utf8.s1
  \/ utf8.first b = utf8.s2 \/ utf8.first b = utf8.s3 \/ utf8.first b = utf8.s4
  \/ utf8.first b = utf8.s5 \/ utf8.first b = utf8.s6 \/ utf8.first b = utf8.s7.
Proof.
  unfold utf8.first.
  repeat match goal with |- context [if ?c then _ else _] => destruct c end; tauto.
Qed.

Lemma idx_app_l (p q : list byte) (i : nat) :
  (i < length p)%nat -> utf8.idx (p ++ q) i = utf8.idx p i.
Proof. intros H. unfold utf8.idx. by rewrite app_nth1. Qed.

(** Case analysis on every test of a goal about the UTF-8 functions. *)
Ltac utf8_tests :=
  repeat match goal with
    | |- context [if ?c then _ else _] => destruct c eqn:?
    | H : context [if ?c then _ else _] |- _ => destruct c eqn:?
    end.

(** A full rune decodes alike whatever follows it. *)
Lemma FullRune_DecodeRune_app (p q : list byte) :
  utf8.FullRune p = true -> utf8.DecodeRune (p ++ q) = utf8.DecodeRune p.
Proof.
  unfold utf8.FullRune, utf8.DecodeRune.
  destruct p as [|a0 p]; [discriminate|].
  rewrite !idx_app_l by (simpl; lia).
  set (x := utf8.first (utf8.idx (a0 :: p) 0)).
  destruct (first_cases (utf8.idx (a0 :: p) 0)) as [H|[H|[H|[H|[H|[H|[H|[H|H]]]]]]]];
    fold x in H; rewrite H; clear H x.
  all: destruct p as [|a1 [|a2 [|a3 p]]]; simpl; try discriminate; try reflexivity.
  all: rewrite ?length_app; simpl.
  all: unfold utf8.idx; simpl nth; intros HF.
  all: utf8_tests; try reflexivity; try discriminate.
Qed.

(** Decoding a source that is not empty takes at least one byte, and no
    more than there are. *)
Lemma DecodeRune_size (p : list byte) :
  p <> [] -> (1 <= snd (utf8.DecodeRune p) <= length p)%nat.
Proof.
  intros Hp. unfold utf8.DecodeRune.
  destruct p as [|a0 p]; [done|].
  set (x := utf8.first (utf8.idx (a0 :: p) 0)).
  destruct (first_cases (utf8.idx (a0 :: p) 0)) as [H|[H|[H|[H|[H|[H|[H|[H|H]]]]]]]];
    fold x in H; rewrite H; clear H x.
  all: destruct p as [|a1 [|a2 [|a3 p]]]; simpl.
  all: utf8_tests; simpl; try lia; try discriminate.
Qed.

Lemma to_byte_range (z : Z) : 0 <= utf8.to_byte z < 256.
Proof. unfold utf8.to_byte. apply Z.mod_pos_bound. lia. Qed.

Lemma EncodeRune_store (r : rune) :
  exists bs : list Z,
    (1 <= length bs <= 4)%nat /\ forall p, utf8.EncodeRune p r = utf8.store p bs.
Proof.
  unfold utf8.EncodeRune.
  utf8_tests; eexists; (split; [|intros p; reflexivity]); simpl; lia.
Qed.

Lemma utf8_bytes_store (r : rune) (bs : list Z) :
  (1 <= length bs <= 4)%nat ->
  (forall p, utf8.EncodeRune p r = utf8.store p bs) ->
  utf8_bytes r = map byte_of_Z bs.
Proof.
  intros Hlen H. unfold utf8_bytes. rewrite H. unfold utf8.store, utf8.UTFMax.
  rewrite repeat_length.
  destruct (Nat.leb_spec (length bs) 4) as [_|?]; [|lia].
  rewrite take_app_length'; [done|]. by rewrite length_map.
Qed.

Lemma EncodeRune_bytes (p : list byte) (r : rune) :
  utf8.EncodeRune p r =
  if (length (utf8_bytes r) <=? length p)%nat
  then Some (utf8_bytes r ++ drop (length (utf8_bytes r)) p, length (utf8_bytes r))
  else None.
Proof.
  destruct (EncodeRune_store r) as (bs & Hlen & H).
  rewrite (utf8_bytes_store r bs Hlen H), H. unfold utf8.store.
  by rewrite length_map.
Qed.

Lemma utf8_bytes_length (r : rune) :
  (1 <= length (utf8_bytes r) <= utf8.UTFMax)%nat.
Proof.
  destruct (EncodeRune_store r) as (bs & Hlen & H).
  rewrite (utf8_bytes_store r bs Hlen H), length_map. unfold utf8.UTFMax. lia.
Qed.

Lemma valid_rune_RuneLen (r : rune) : valid_rune r <-> 0 < utf8.RuneLen r.
Proof.
  unfold valid_rune, utf8.RuneLen, utf8.MaxRune, utf8.surrogateMin, utf8.surrogateMax,
    utf8.rune1Max, utf8.rune2Max, utf8.rune3Max.
  utf8_tests; lia.
Qed.

(** For a scalar value [utf8.RuneLen] is the number of bytes written; for
    any other rune it is -1, and three bytes are written. *)
Lemma RuneLen_bytes (r : rune) :
  valid_rune r -> utf8.RuneLen r = Z.of_nat (length (utf8_bytes r)).
Proof.
  unfold valid_rune, utf8.MaxRune, utf8.surrogateMin, utf8.surrogateMax.
  intros [Hr Hs].
  unfold utf8_bytes, utf8.EncodeRune, utf8.store, utf8.RuneLen.
  rewrite (Z.mod_small r (2 ^ 32)) by lia.
  unfold utf8.MaxRune, utf8.surrogateMin, utf8.surrogateMax,
    utf8.rune1Max, utf8.rune2Max, utf8.rune3Max.
  utf8_tests; simpl in *; try discriminate; try reflexivity; lia.
Qed.

Lemma RuneLen_le_bytes (r : rune) :
  utf8.RuneLen r <= Z.of_nat (length (utf8_bytes r)).
Proof.
  destruct (decide (0 < utf8.RuneLen r)) as [H|H].
  - apply valid_rune_RuneLen in H. rewrite (RuneLen_bytes r H). lia.
  - pose proof (utf8_bytes_length r). lia.
Qed.

(** ** The decoder loop *)

Section Decoder.

Variable mcr : rune.
Variable m : gmap byte Z.

Local Abbreviation rune_of := (decoded_rune mcr m).
Local Abbreviation text := (decode_text mcr m).

Lemma decode_text_cons (b : byte) (src : list byte) :
  text (b :: src) = utf8_bytes (rune_of b) ++ text src.
Proof. reflexivity. Qed.

Lemma decode_text_app (s1 s2 : list byte) : text (s1 ++ s2) = text s1 ++ text s2.
Proof. unfold text, decode_text. apply flat_map_app. Qed.

(** The step that stops: the rune needs more room than is left. *)
Lemma simpleDecoder_loop_short (done dst src : list byte) (b : byte) (nDst nSrc : nat) :
  Z.of_nat (length dst) < utf8.RuneLen (rune_of b) ->
  simpleDecoder_loop mcr m done dst (b :: src) nDst nSrc
  = Returns {| buf := done ++ dst; nDst := nDst; nSrc := nSrc; err := ErrShortDst |}.
Proof.
  intros H. simpl. fold (decoded_rune mcr m b). fold rune_of.
  destruct (Z.ltb_spec (Z.of_nat (length dst)) (utf8.RuneLen (rune_of b))); [done|lia].
Qed.

(** The step that goes on: the bytes of the rune are written and one
    byte of the source is consumed. *)
Lemma simpleDecoder_loop_fits (done dst src : list byte) (b : byte) (nDst nSrc : nat) :
  (length (utf8_bytes (rune_of b)) <= length dst)%nat ->
  simpleDecoder_loop mcr m done dst (b :: src) nDst nSrc
  = simpleDecoder_loop mcr m (done ++ utf8_bytes (rune_of b))
      (drop (length (utf8_bytes (rune_of b))) dst) src
      (nDst + length (utf8_bytes (rune_of b))) (nSrc + 1).
Proof.
  intros H. simpl. fold (decoded_rune mcr m b). fold rune_of.
  pose proof (RuneLen_le_bytes (rune_of b)) as Hl.
  destruct (Z.ltb_spec (Z.of_nat (length dst)) (utf8.RuneLen (rune_of b))); [lia|].
  rewrite EncodeRune_bytes.
  destruct (Nat.leb_spec (length (utf8_bytes (rune_of b))) (length dst)); [|lia].
  rewrite take_app_length, drop_app_length. reflexivity.
Qed.

(** The step that panics: [utf8.RuneLen] lets a rune pass that
    [utf8.EncodeRune] has no room for. *)
Lemma simpleDecoder_loop_panics (done dst src : list byte) (b : byte) (nDst nSrc : nat) :
  utf8.RuneLen (rune_of b) <= Z.of_nat (length dst) ->
  (length dst < length (utf8_bytes (rune_of b)))%nat ->
  simpleDecoder_loop mcr m done dst (b :: src) nDst nSrc = Panics.
Proof.
  intros H1 H2. simpl. fold (decoded_rune mcr m b). fold rune_of.
  destruct (Z.ltb_spec (Z.of_nat (length dst)) (utf8.RuneLen (rune_of b))); [lia|].
  rewrite EncodeRune_bytes.
  destruct (Nat.leb_spec (length (utf8_bytes (rune_of b))) (length dst)); [lia|done].
Qed.

(** What a call that returns has done: it consumed some [k] bytes, wrote
    their text at the start of the destination, and either used the source
    up or stopped before a rune that does not fit. *)
Lemma simpleDecoder_loop_returns (src done dst : list byte) (nDst0 nSrc0 : nat)
    (res : TransformResult) :
  simpleDecoder_loop mcr m done dst src nDst0 nSrc0 = Returns res ->
  exists k : nat,
    (k <= length src)%nat
    /\ nSrc res = (nSrc0 + k)%nat
    /\ nDst res = (nDst0 + length (text (take k src)))%nat
    /\ buf res = done ++ text (take k src) ++ drop (length (text (take k src))) dst
    /\ (length (text (take k src)) <= length dst)%nat
    /\ ((err res = ErrNil /\ k = length src)
        \/ (err res = ErrShortDst
            /\ exists b, src !! k = Some b
                 /\ Z.of_nat (length dst - length (text (take k src)))
                    < utf8.RuneLen (rune_of b))).
Proof.
  revert done dst nDst0 nSrc0.
  induction src as [|b src IH]; intros done dst nDst0 nSrc0 H.
  - simpl in H. injection H as <-. exists 0%nat. simpl.
    rewrite drop_0. repeat split; try lia. by left.
  - destruct (Z.ltb_spec (Z.of_nat (length dst)) (utf8.RuneLen (rune_of b))) as [Hs|Hs].
    + rewrite simpleDecoder_loop_short in H by done. injection H as <-.
      exists 0%nat. simpl. rewrite drop_0. repeat split; try lia.
      right. split; [done|]. exists b. split; [done|]. lia.
    + destruct (Nat.leb_spec (length (utf8_bytes (rune_of b))) (length dst)) as [Hf|Hf].
      * rewrite simpleDecoder_loop_fits in H by done.
        apply IH in H as (k & Hk & HnS & HnD & Hbuf & Hlen & Herr).
        rewrite length_drop in Hlen.
        exists (S k). rewrite firstn_cons, decode_text_cons, length_app.
        split; [simpl; lia|]. split; [lia|]. split; [lia|].
        split.
        { rewrite Hbuf, drop_drop, <- !app_assoc. reflexivity. }
        split; [lia|].
        destruct Herr as [[He ->]|(He & b' & Hb' & Hlt)]; [by left|].
        right. split; [done|]. exists b'. split; [done|].
        rewrite length_drop in Hlt. lia.
      * by rewrite simpleDecoder_loop_panics in H by done.
Qed.

(** With room for the whole text the call uses the source up. *)
Lemma simpleDecoder_loop_whole (src done dst : list byte) (nDst0 nSrc0 : nat) :
  (length (text src) <= length dst)%nat ->
  simpleDecoder_loop mcr m done dst src nDst0 nSrc0
  = Returns {| buf := done ++ text src ++ drop (length (text src)) dst;
               nDst := nDst0 + length (text src);
               nSrc := nSrc0 + length src;
               err := ErrNil |}.
Proof.
  revert done dst nDst0 nSrc0.
  induction src as [|b src IH]; intros done dst nDst0 nSrc0 Hlen.
  - simpl. rewrite drop_0, !Nat.add_0_r. reflexivity.
  - rewrite decode_text_cons, length_app in Hlen.
    rewrite simpleDecoder_loop_fits by lia.
    rewrite IH by (rewrite length_drop; lia).
    rewrite decode_text_cons, length_app, drop_drop, <- !app_assoc. simpl.
    do 2 f_equal; lia.
Qed.

(** When every rune is a scalar value the call returns. *)
Lemma simpleDecoder_loop_total (src done dst : list byte) (nDst0 nSrc0 : nat) :
  (forall b, valid_rune (rune_of b)) ->
  exists res, simpleDecoder_loop mcr m done dst src nDst0 nSrc0 = Returns res.
Proof.
  intros Hv. revert done dst nDst0 nSrc0.
  induction src as [|b src IH]; intros done dst nDst0 nSrc0.
  - simpl. by eexists.
  - destruct (Z.ltb_spec (Z.of_nat (length dst)) (utf8.RuneLen (rune_of b))) as [Hs|Hs].
    + rewrite simpleDecoder_loop_short by done. by eexists.
    + rewrite (RuneLen_bytes _ (Hv b)) in Hs.
      rewrite simpleDecoder_loop_fits by lia. apply IH.
Qed.

End Decoder.

(** ** The encoder loop *)

Section Encoder.

Variable mcr : rune.
Variable m : gmap Z byte.

Local Abbreviation text := (encode_text mcr m).
Local Abbreviation byte_for := (encoded_byte mcr m).

Lemma encode_text_skip_drop (src : list byte) (k : nat) :
  encode_text_skip mcr m k src = text (drop k src).
Proof.
  revert k. induction src as [|a src IH]; intros k.
  - by rewrite drop_nil.
  - destruct k as [|k]; [reflexivity|]. simpl. apply IH.
Qed.

(** The text of a source that is not empty: the byte of its first rune,
    then the text of what follows the rune. *)
Lemma encode_text_unfold (src : list byte) :
  src <> [] ->
  text src = byte_for (fst (utf8.DecodeRune src))
             :: text (drop (snd (utf8.DecodeRune src)) src).
Proof.
  intros Hne. pose proof (DecodeRune_size src Hne) as Hn.
  destruct src as [|a src]; [done|].
  unfold text, encode_text. simpl encode_text_skip.
  destruct (utf8.DecodeRune (a :: src)) as [r n]. simpl in *.
  rewrite encode_text_skip_drop.
  destruct n as [|n]; [lia|]. simpl. by rewrite Nat.sub_0_r.
Qed.

Lemma simpleEncoder_loop_nil (fuel : nat) (done dst : list byte) (atEOF : bool)
    (nDst nSrc : nat) :
  simpleEncoder_loop mcr fuel m done dst [] atEOF nDst nSrc
  = Some {| buf := done ++ dst; nDst := nDst; nSrc := nSrc; err := ErrNil |}.
Proof. by destruct fuel. Qed.

(** The step that stops for want of source bytes. *)
Lemma simpleEncoder_loop_short_src (fuel : nat) (done dst src : list byte)
    (nDst nSrc : nat) :
  src <> [] -> utf8.FullRune src = false ->
  simpleEncoder_loop mcr fuel m done dst src false nDst nSrc
  = Some {| buf := done ++ dst; nDst := nDst; nSrc := nSrc; err := ErrShortSrc |}.
Proof.
  intros Hne Hf. destruct src as [|a src]; [done|].
  destruct fuel; simpl; by rewrite Hf.
Qed.

(** The step that stops for want of room. *)
Lemma simpleEncoder_loop_short_dst (fuel : nat) (done src : list byte) (atEOF : bool)
    (nDst nSrc : nat) :
  src <> [] -> utf8.FullRune src = true \/ atEOF = true ->
  simpleEncoder_loop mcr fuel m done [] src atEOF nDst nSrc
  = Some {| buf := done ++ []; nDst := nDst; nSrc := nSrc; err := ErrShortDst |}.
Proof.
  intros Hne Hf. destruct src as [|a src]; [done|].
  assert (negb (utf8.FullRune (a :: src)) && negb atEOF = false) as Hc.
  { destruct Hf as [-> | ->]; [done|]. by rewrite andb_false_r. }
  destruct fuel; simpl; by rewrite Hc.
Qed.

(** The step that goes on: one rune is consumed and one byte written. *)
Lemma simpleEncoder_loop_step (fuel : nat) (done dst src : list byte) (d : byte)
    (atEOF : bool) (nDst nSrc : nat) :
  src <> [] -> utf8.FullRune src = true \/ atEOF = true ->
  simpleEncoder_loop mcr (S fuel) m done (d :: dst) src atEOF nDst nSrc
  = simpleEncoder_loop mcr fuel m
      (done ++ [byte_for (fst (utf8.DecodeRune src))]) dst
      (drop (snd (utf8.DecodeRune src)) src) atEOF
      (nDst + 1) (nSrc + snd (utf8.DecodeRune src)).
Proof.
  intros Hne Hf. destruct src as [|a src]; [done|].
  assert (negb (utf8.FullRune (a :: src)) && negb atEOF = false) as Hc.
  { destruct Hf as [-> | ->]; [done|]. by rewrite andb_false_r. }
  cbn [simpleEncoder_loop]. rewrite Hc.
  by destruct (utf8.DecodeRune (a :: src)) as [r n].
Qed.

(** What a call does, given fuel for every byte of the source: it
    returns, having consumed some [k] bytes and written the bytes [w] of
    their runes; [future] is what the caller will append to the source
    later, nothing when [atEOF] is set. *)
Lemma simpleEncoder_loop_returns (fuel : nat) :
  forall (src done dst : list byte) (atEOF : bool) (nDst0 nSrc0 : nat)
         (future : list byte),
    (length src <= fuel)%nat ->
    (atEOF = true -> future = []) ->
    exists (res : TransformResult) (k : nat) (w : list byte),
      simpleEncoder_loop mcr fuel m done dst src atEOF nDst0 nSrc0 = Some res
      /\ (k <= length src)%nat
      /\ nSrc res = (nSrc0 + k)%nat
      /\ nDst res = (nDst0 + length w)%nat
      /\ buf res = done ++ w ++ drop (length w) dst
      /\ (length w <= length dst)%nat
      /\ (length w <= k)%nat
      /\ text (src ++ future) = w ++ text (drop k src ++ future)
      /\ match err res with
         | ErrNil => k = length src
         | ErrShortSrc => atEOF = false /\ (k < length src)%nat
         | ErrShortDst => (k < length src)%nat /\ length w = length dst
         end.
Proof.
  induction fuel as [|fuel IH]; intros src done dst atEOF nDst0 nSrc0 future Hfuel Heof.
  - destruct src; [|simpl in Hfuel; lia].
    rewrite simpleEncoder_loop_nil. eexists _, 0%nat, []. simpl.
    rewrite drop_0. repeat split; try done; lia.
  - destruct (decide (src = [])) as [->|Hne].
    { rewrite simpleEncoder_loop_nil. eexists _, 0%nat, []. simpl.
      rewrite drop_0. repeat split; try done; lia. }
    assert (0 < length src)%nat as Hpos by (destruct src; [done|simpl; lia]).
    destruct (negb (utf8.FullRune src) && negb atEOF) eqn:Hc.
    { apply andb_true_iff in Hc as [Hfull Hat].
      apply negb_true_iff in Hfull, Hat. subst atEOF.
      rewrite simpleEncoder_loop_short_src by done.
      eexists _, 0%nat, []. simpl. rewrite drop_0. repeat split; try done; lia. }
    assert (utf8.FullRune src = true \/ atEOF = true) as Hgo.
    { apply andb_false_iff in Hc as [Hc|Hc]; apply negb_false_iff in Hc; tauto. }
    clear Hc.
    all: destruct dst as [|d dst];
      [ rewrite simpleEncoder_loop_short_dst by done;
        eexists _, 0%nat, []; simpl; repeat split; try done; lia |].
    all: rewrite simpleEncoder_loop_step by done.
    all: pose proof (DecodeRune_size src Hne) as Hn.
    all: assert (utf8.DecodeRune (src ++ future) = utf8.DecodeRune src) as Hdec
        by (destruct Hgo as [Hg|Hg];
            [ by apply FullRune_DecodeRune_app
            | rewrite (Heof Hg); by rewrite app_nil_r ]).
    all: destruct (IH (drop (snd (utf8.DecodeRune src)) src)
                     (done ++ [byte_for (fst (utf8.DecodeRune src))]) dst atEOF
                     (nDst0 + 1)%nat (nSrc0 + snd (utf8.DecodeRune src))%nat future)
        as (res & k & w & Hres & Hk & HnS & HnD & Hbuf & Hlen & Hwk & Htext & Herr);
      [ rewrite length_drop; lia | done | ].
    all: rewrite length_drop in Hk.
    all: exists res, (snd (utf8.DecodeRune src) + k)%nat,
           (byte_for (fst (utf8.DecodeRune src)) :: w).
    all: split; [done|]; split; [lia|]; split; [lia|]; split; [simpl; lia|].
    all: split; [rewrite Hbuf, <- !app_assoc; reflexivity|].
    all: split; [simpl; lia|].
    all: split; [simpl; lia|].
    all: split;
      [ rewrite encode_text_unfold by (destruct src; done);
        rewrite Hdec; rewrite drop_app_le by lia;
        fold text in Htext; rewrite Htext, drop_drop; reflexivity |].
    all: destruct (err res); rewrite ?length_drop in Herr; simpl;
      [ lia | destruct Herr; split; lia | destruct Herr; split; [done|lia] ].
Qed.

End Encoder.

(** ** Feeding a transformer in chunks *)

Section Resume.

(** A transformer [T] that computes the text [F] piecewise: a call
    consumes a prefix of its source and writes the text of that prefix,
    whatever the caller appends to the source later. *)
Variable T : Transformer.
Variable F : list byte -> list byte.

Hypothesis F_nil : F [] = [].

Hypothesis T_prefix :
  forall (dst src : list byte) (atEOF : bool) (res : TransformResult)
         (future : list byte),
    (atEOF = true -> future = []) ->
    T dst src atEOF = Some res ->
    (nSrc res <= length src)%nat
    /\ F (src ++ future) = take (nDst res) (buf res) ++ F (drop (nSrc res) src ++ future)
    /\ match err res with
       | ErrNil => nSrc res = length src
       | ErrShortSrc => atEOF = false
       | ErrShortDst => True
       end.

Lemma resume_sound (dsts : list (list byte)) :
  forall (pending : list byte) (chunks : list (list byte)) (out : list byte)
         (consumed : nat) (out' : list byte) (n' : nat),
    resume T dsts pending chunks out consumed = Some (out', n') ->
    out' = out ++ F (pending ++ concat chunks)
    /\ n' = (consumed + length (pending ++ concat chunks))%nat.
Proof.
  induction dsts as [|dst dsts IH]; intros pending chunks out consumed out' n' H;
    [discriminate|].
  simpl in H.
  destruct (T dst pending (match chunks with [] => true | _ :: _ => false end))
    as [res|] eqn:HT; [|discriminate].
  apply (T_prefix _ _ _ _ (concat chunks)) in HT as (Hk & HF & Herr);
    [|by destruct chunks].
  assert (Hlen : (nSrc res + length (drop (nSrc res) pending ++ concat chunks)
                  = length (pending ++ concat chunks))%nat).
  { rewrite !length_app, length_drop. lia. }
  destruct (err res) eqn:He, chunks as [|chunk chunks]; simpl in *;
    rewrite ?app_nil_r in *.
  - injection H as <- <-. rewrite HF, Herr, drop_all, F_nil, app_nil_r.
    split; [done|lia].
  - apply IH in H as [-> ->]. simpl. rewrite ?app_nil_r, <- ?app_assoc, HF.
    split; [done|].
    rewrite <- Hlen, ?length_app. lia.
  - apply IH in H as [-> ->]. simpl. rewrite ?app_nil_r, <- ?app_assoc, HF.
    split; [done|].
    rewrite <- Hlen, ?length_app. lia.
  - apply IH in H as [-> ->]. simpl. rewrite ?app_nil_r, <- ?app_assoc, HF.
    split; [done|].
    rewrite <- Hlen, ?length_app. lia.
  - discriminate.
  - apply IH in H as [-> ->]. simpl. rewrite ?app_nil_r, <- ?app_assoc, HF.
    split; [done|].
    rewrite <- Hlen, ?length_app. lia.
Qed.

(** The run ends well when every buffer has [room] bytes, [room] being
    enough for a call to consume something, and the buffers are more than
    the bytes and the chunks of the input. *)
Variable room : nat.

Hypothesis T_total :
  forall (dst src : list byte) (atEOF : bool),
    (room <= length dst)%nat ->
    exists res,
      T dst src atEOF = Some res
      /\ (nSrc res <= length src)%nat
      /\ match err res with
         | ErrNil => True
         | ErrShortSrc => atEOF = false
         | ErrShortDst => (1 <= nSrc res)%nat
         end.

Lemma resume_total (dsts : list (list byte)) :
  forall (pending : list byte) (chunks : list (list byte)) (out : list byte)
         (consumed : nat),
    Forall (fun dst => (room <= length dst)%nat) dsts ->
    (length pending + length (concat chunks) + length chunks < length dsts)%nat ->
    is_Some (resume T dsts pending chunks out consumed).
Proof.
  induction dsts as [|dst dsts IH]; intros pending chunks out consumed Hroom Hlen;
    [simpl in Hlen; lia|].
  apply Forall_cons in Hroom as [Hdst Hroom]. simpl in Hlen. simpl.
  destruct (T_total dst pending (match chunks with [] => true | _ :: _ => false end)
              Hdst) as (res & -> & Hk & Herr).
  destruct (err res) eqn:He, chunks as [|chunk chunks]; simpl in *.
  - by eexists.
  - apply IH; [done|]. simpl in *. rewrite ?length_app, ?length_drop in *.
    clear - Hlen Hk Herr. lia.
  - apply IH; [done|]. simpl in *. rewrite ?length_app, ?length_drop in *.
    clear - Hlen Hk Herr. lia.
  - apply IH; [done|]. simpl in *. rewrite ?length_app, ?length_drop in *.
    clear - Hlen Hk Herr. lia.
  - discriminate.
  - apply IH; [done|]. simpl in *. rewrite ?length_app, ?length_drop in *.
    clear - Hlen Hk Herr. lia.
Qed.

End Resume.

(** ** The two transformers fed in chunks *)

Lemma decoderOf_prefix (mcr : rune) (enc : simpleEncoding)
    (dst src : list byte) (atEOF : bool) (res : TransformResult) (future : list byte) :
  (atEOF = true -> future = []) ->
  decoderOf mcr enc dst src atEOF = Some res ->
  (nSrc res <= length src)%nat
  /\ decode_text mcr (decode enc) (src ++ future)
     = take (nDst res) (buf res)
       ++ decode_text mcr (decode enc) (drop (nSrc res) src ++ future)
  /\ match err res with
     | ErrNil => nSrc res = length src
     | ErrShortSrc => atEOF = false
     | ErrShortDst => True
     end.
Proof.
  intros _ H. unfold decoderOf, simpleDecoder_Transform in H.
  destruct (simpleDecoder_loop mcr (decode enc) [] dst src 0 0) as [res'|] eqn:E;
    [|discriminate].
  injection H as ->.
  apply simpleDecoder_loop_returns in E as (k & Hk & HnS & HnD & Hbuf & Hlen & Herr).
  simpl in HnS, HnD, Hbuf. rewrite HnS, HnD, Hbuf, take_app_length.
  split; [done|]. split.
  - rewrite <- decode_text_app, app_assoc, take_drop. reflexivity.
  - destruct Herr as [[-> ->]|[-> _]]; done.
Qed.

Lemma decoderOf_total (mcr : rune) (enc : simpleEncoding)
    (dst src : list byte) (atEOF : bool) :
  valid_runes mcr (decode enc) ->
  (utf8.UTFMax <= length dst)%nat ->
  exists res,
    decoderOf mcr enc dst src atEOF = Some res
    /\ (nSrc res <= length src)%nat
    /\ match err res with
       | ErrNil => True
       | ErrShortSrc => atEOF = false
       | ErrShortDst => (1 <= nSrc res)%nat
       end.
Proof.
  intros Hv Hroom. unfold decoderOf, simpleDecoder_Transform.
  destruct (simpleDecoder_loop_total mcr (decode enc) src [] dst 0 0 Hv) as [res E].
  rewrite E. exists res. split; [done|].
  apply simpleDecoder_loop_returns in E as (k & Hk & HnS & HnD & Hbuf & Hlen & Herr).
  simpl in HnS. rewrite HnS. split; [done|].
  destruct Herr as [[-> _]|(-> & b & Hb & Hlt)]; [done|].
  destruct k as [|k]; [|lia]. simpl in Hlt.
  pose proof (RuneLen_le_bytes (decoded_rune mcr (decode enc) b)) as H1.
  pose proof (utf8_bytes_length (decoded_rune mcr (decode enc) b)) as H2.
  lia.
Qed.

Lemma encoderOf_returns (mcr : rune) (enc : simpleEncoding)
    (dst src : list byte) (atEOF : bool) (future : list byte) :
  (atEOF = true -> future = []) ->
  exists res,
    encoderOf mcr enc dst src atEOF = Some res
    /\ (nSrc res <= length src)%nat
    /\ (nDst res <= nSrc res)%nat
    /\ (nDst res <= length dst)%nat
    /\ encode_text mcr (encode enc) (src ++ future)
       = take (nDst res) (buf res)
         ++ encode_text mcr (encode enc) (drop (nSrc res) src ++ future)
    /\ match err res with
       | ErrNil => nSrc res = length src
       | ErrShortSrc => atEOF = false /\ (nSrc res < length src)%nat
       | ErrShortDst => (nSrc res < length src)%nat /\ nDst res = length dst
       end.
Proof.
  intros Heof. unfold encoderOf, simpleEncoder_Transform.
  destruct (simpleEncoder_loop_returns mcr (encode enc) (length src) src [] dst atEOF
              0 0 future (Nat.le_refl _) Heof)
    as (res & k & w & E & Hk & HnS & HnD & Hbuf & Hlen & Hwk & Htext & Herr).
  exists res. simpl in HnS, HnD, Hbuf.
  rewrite E, HnS, HnD, Hbuf, take_app_length.
  split; [done|]. split; [done|]. split; [done|]. split; [done|]. split; [done|].
  by destruct (err res).
Qed.

Lemma encoderOf_prefix (mcr : rune) (enc : simpleEncoding)
    (dst src : list byte) (atEOF : bool) (res : TransformResult) (future : list byte) :
  (atEOF = true -> future = []) ->
  encoderOf mcr enc dst src atEOF = Some res ->
  (nSrc res <= length src)%nat
  /\ encode_text mcr (encode enc) (src ++ future)
     = take (nDst res) (buf res)
       ++ encode_text mcr (encode enc) (drop (nSrc res) src ++ future)
  /\ match err res with
     | ErrNil => nSrc res = length src
     | ErrShortSrc => atEOF = false
     | ErrShortDst => True
     end.
Proof.
  intros Heof H.
  destruct (encoderOf_returns mcr enc dst src atEOF future Heof)
    as (res' & E & Hk & _ & _ & Htext & Herr).
  rewrite E in H. injection H as <-.
  split; [done|]. split; [done|].
  destruct (err res'); tauto.
Qed.

Lemma encoderOf_total (mcr : rune) (enc : simpleEncoding)
    (dst src : list byte) (atEOF : bool) :
  (1 <= length dst)%nat ->
  exists res,
    encoderOf mcr enc dst src atEOF = Some res
    /\ (nSrc res <= length src)%nat
    /\ match err res with
       | ErrNil => True
       | ErrShortSrc => atEOF = false
       | ErrShortDst => (1 <= nSrc res)%nat
       end.
Proof.
  intros Hroom.
  destruct (encoderOf_returns mcr enc dst src atEOF [])
    as (res & E & Hk & Hwk & _ & _ & Herr); [done|].
  exists res. split; [done|]. split; [done|].
  destruct (err res); [done| |tauto]. lia.
Qed.

(** Chunking invariance of the runs that end well: a source given to
    [Transform] in one call that uses it up, and the same source cut into
    chunks at any places and fed call after call by the resume protocol
    with any destination buffers, give the same output bytes and the same
    count of consumed bytes, for the decoder and for the encoder. The one
    call uses the source up when the buffer has room for the output. The
    run in chunks of the encoder ends well when the buffers have one byte
    or more and are more than the bytes and the chunks of the source; the
    run of the decoder does so with buffers of [utf8.UTFMax] bytes when
    every rune is a scalar value; with a rune that is not, it can panic. *)
Theorem transform_chunking_invariance (mcr : rune) (enc : simpleEncoding)
    (chunks : list (list byte)) :
  (forall dst atEOF res dsts out n,
     simpleDecoder_Transform mcr (decode enc) dst (concat chunks) atEOF = Returns res ->
     err res = ErrNil ->
     transformChunks (decoderOf mcr enc) dsts chunks = Some (out, n) ->
     out = take (nDst res) (buf res) /\ n = nSrc res)
  /\ (forall dst atEOF,
        (length (decode_text mcr (decode enc) (concat chunks)) <= length dst)%nat ->
        exists res,
          simpleDecoder_Transform mcr (decode enc) dst (concat chunks) atEOF = Returns res
          /\ err res = ErrNil)
  /\ (forall dsts,
        valid_runes mcr (decode enc) ->
        Forall (fun dst => (utf8.UTFMax <= length dst)%nat) dsts ->
        (length (concat chunks) + length chunks < length dsts)%nat ->
        is_Some (transformChunks (decoderOf mcr enc) dsts chunks))
  /\ (forall dst atEOF res dsts out n,
        simpleEncoder_Transform mcr (encode enc) dst (concat chunks) atEOF = Some res ->
        err res = ErrNil ->
        transformChunks (encoderOf mcr enc) dsts chunks = Some (out, n) ->
        out = take (nDst res) (buf res) /\ n = nSrc res)
  /\ (forall dst,
        (length (concat chunks) <= length dst)%nat ->
        exists res,
          simpleEncoder_Transform mcr (encode enc) dst (concat chunks) true = Some res
          /\ err res = ErrNil)
  /\ (forall dsts,
        Forall (fun dst => (1 <= length dst)%nat) dsts ->
        (length (concat chunks) + length chunks < length dsts)%nat ->
        is_Some (transformChunks (encoderOf mcr enc) dsts chunks))
  /\ (forall dsts out n,
        transformChunks (decoderOf mcr enc) dsts chunks = Some (out, n) ->
        out = decode_text mcr (decode enc) (concat chunks)
        /\ n = length (concat chunks))
  /\ (forall dsts out n,
        transformChunks (encoderOf mcr enc) dsts chunks = Some (out, n) ->
        out = encode_text mcr (encode enc) (concat chunks)
        /\ n = length (concat chunks)).
Proof.
  split; [|split; [|split; [|split; [|split; [|split; [|split]]]]]].
  - intros dst atEOF res dsts out n Hone Hnil Hrun.
    assert (Hone' : decoderOf mcr enc dst (concat chunks) atEOF = Some res)
      by (unfold decoderOf; by rewrite Hone).
    apply (decoderOf_prefix mcr enc _ _ _ _ []) in Hone' as (_ & Htext & Hk); [|done].
    rewrite Hnil in Hk. rewrite Hk, drop_all, !app_nil_r in Htext.
    change (decode_text mcr (decode enc) []) with (@nil byte) in Htext.
    rewrite ?app_nil_r in Htext.
    apply (resume_sound (decoderOf mcr enc) (decode_text mcr (decode enc)))
      in Hrun as [-> ->]; [|done|apply decoderOf_prefix].
    simpl. by rewrite Htext, Hk.
  - intros dst atEOF Hroom. unfold simpleDecoder_Transform.
    rewrite simpleDecoder_loop_whole by done. by eexists.
  - intros dsts Hv Hroom Hlen.
    apply (resume_total (decoderOf mcr enc) utf8.UTFMax); [|done|simpl; lia].
    intros dst src atEOF Hdst. by apply decoderOf_total.
  - intros dst atEOF res dsts out n Hone Hnil Hrun.
    apply (encoderOf_prefix mcr enc _ _ _ _ []) in Hone as (_ & Htext & Hk); [|done].
    rewrite Hnil in Hk. rewrite Hk, drop_all, !app_nil_r in Htext.
    change (encode_text mcr (encode enc) []) with (@nil byte) in Htext.
    rewrite ?app_nil_r in Htext.
    apply (resume_sound (encoderOf mcr enc) (encode_text mcr (encode enc)))
      in Hrun as [-> ->]; [|done|apply encoderOf_prefix].
    simpl. by rewrite Htext, Hk.
  - intros dst Hroom.
    destruct (encoderOf_returns mcr enc dst (concat chunks) true [])
      as (res & E & Hk & Hwk & Hd & _ & Herr); [done|].
    exists res. split; [done|].
    destruct (err res); [done|lia|]. by destruct Herr.
  - intros dsts Hroom Hlen.
    apply (resume_total (encoderOf mcr enc) 1); [|done|simpl; lia].
    intros dst src atEOF Hdst. by apply encoderOf_total.
  - intros dsts out n Hrun.
    apply (resume_sound (decoderOf mcr enc) (decode_text mcr (decode enc)))
      in Hrun as [-> ->]; [done|done|apply decoderOf_prefix].
  - intros dsts out n Hrun.
    apply (resume_sound (encoderOf mcr enc) (encode_text mcr (encode enc)))
      in Hrun as [-> ->]; [done|done|apply encoderOf_prefix].
Qed.

Lemma transform_chunking_invariance_witness :
  ([Byte.xc3; Byte.x84; Byte.xc3; Byte.x85]
   = take 4 [Byte.xc3; Byte.x84; Byte.xc3; Byte.x85; Byte.x00] /\ 2%nat = 2%nat)
  /\ ([Byte.x80; Byte.x81] = take 2 [Byte.x80; Byte.x81; Byte.x00] /\ 4%nat = 4%nat).
Proof.
  split.
  - apply (proj1 (transform_chunking_invariance MissingCodeRune_value MacRoman
                    [[Byte.x80]; [Byte.x81]])
             (repeat Byte.x00 5) true
             {| buf := [Byte.xc3; Byte.x84; Byte.xc3; Byte.x85; Byte.x00];
                nDst := 4; nSrc := 2; err := ErrNil |}
             (repeat (repeat Byte.x00 3) 4)).
    + vm_compute. reflexivity.
    + reflexivity.
    + vm_compute. reflexivity.
  - apply (proj1 (proj2 (proj2 (proj2
             (transform_chunking_invariance MissingCodeRune_value MacRoman
                [[Byte.xc3]; [Byte.x84; Byte.xc3]; [Byte.x85]]))))
             (repeat Byte.x00 3) true
             {| buf := [Byte.x80; Byte.x81; Byte.x00];
                nDst := 2; nSrc := 4; err := ErrNil |}
             (repeat (repeat Byte.x00 1) 6)).
    + vm_compute. reflexivity.
    + reflexivity.
    + vm_compute. reflexivity.
Defined.

(** ** UTF-8: what [utf8.DecodeRune] accepts *)

Lemma byte_Z_range (a : byte) : 0 <= byte_Z a < 256.
Proof. unfold byte_Z. pose proof (byte_to_N_lt a). lia. Qed.

Lemma byte_of_Z_byte_Z (a : byte) : byte_of_Z (byte_Z a) = a.
Proof.
  unfold byte_of_Z. pose proof (byte_Z_range a).
  rewrite Z.mod_small by done. unfold byte_Z. rewrite N2Z.id.
  apply byte_of_N_to_N.
Qed.

Lemma land_disjoint (k q c : Z) : 0 <= k -> 0 <= c < 2 ^ k -> Z.land (q * 2 ^ k) c = 0.
Proof.
  intros Hk Hc. apply Z.bits_inj'. intros n Hn.
  rewrite Z.land_spec, Z.bits_0.
  destruct (Z.lt_ge_cases n k) as [Hlt|Hge].
  - by rewrite Z.mul_pow2_bits_low.
  - destruct (Z.eq_dec c 0) as [->|Hc0].
    + by rewrite Z.bits_0, andb_false_r.
    + rewrite (Z.bits_above_log2 c n), andb_false_r; [done|lia|].
      assert (Z.log2 c < k) by (apply Z.log2_lt_pow2; lia). lia.
Qed.

(** Or-ing a field into the zero bits below a multiple of a power of two is
    adding it. *)
Lemma lor_add (k q c : Z) : 0 <= k -> 0 <= c < 2 ^ k -> Z.lor (q * 2 ^ k) c = q * 2 ^ k + c.
Proof.
  intros Hk Hc. pose proof (Z.add_lor_land (q * 2 ^ k) c) as H.
  rewrite land_disjoint in H by done. lia.
Qed.

Lemma land_maskx (z : Z) : Z.land z utf8.maskx = z mod 64.
Proof. change utf8.maskx with (Z.ones 6). by rewrite Z.land_ones. Qed.

Lemma land_mask2 (z : Z) : Z.land z utf8.mask2 = z mod 32.
Proof. change utf8.mask2 with (Z.ones 5). by rewrite Z.land_ones. Qed.

Lemma land_mask3 (z : Z) : Z.land z utf8.mask3 = z mod 16.
Proof. change utf8.mask3 with (Z.ones 4). by rewrite Z.land_ones. Qed.

Lemma land_mask4 (z : Z) : Z.land z utf8.mask4 = z mod 8.
Proof. change utf8.mask4 with (Z.ones 3). by rewrite Z.land_ones. Qed.

(** The continuation byte for the six bits of [r] at position [s]. *)
Lemma continuation_byte (r s : Z) :
  0 <= s ->
  Z.lor utf8.tx (Z.land (utf8.to_byte (Z.shiftr r s)) utf8.maskx)
  = 128 + (r / 2 ^ s) mod 64.
Proof.
  intros Hs. unfold utf8.to_byte. rewrite land_maskx, Z.shiftr_div_pow2 by done.
  generalize (r / 2 ^ s). intros x.
  assert (Hx : (x mod 256) mod 64 = x mod 64).
  { apply Z.mod_mod_divide. by exists 4. }
  rewrite Hx. pose proof (Z.mod_pos_bound x 64 ltac:(lia)) as Hb.
  change utf8.tx with (1 * 2 ^ 7).
  rewrite lor_add; change (2 ^ 7) with 128; lia.
Qed.

Lemma continuation_byte_0 (r : Z) :
  Z.lor utf8.tx (Z.land (utf8.to_byte r) utf8.maskx) = 128 + r mod 64.
Proof.
  pose proof (continuation_byte r 0 (Z.le_refl 0)) as H.
  rewrite Z.shiftr_0_r in H. rewrite H. by rewrite Z.div_1_r.
Qed.

(** Linear arithmetic with division and remainder by constants. *)
Ltac zlia := Z.div_mod_to_equations; lia.

Lemma leading_byte_2 (r : Z) :
  0 <= r <= utf8.rune2Max -> Z.lor utf8.t2 (utf8.to_byte (Z.shiftr r 6)) = 192 + r / 64.
Proof.
  unfold utf8.rune2Max, utf8.to_byte. intros Hr.
  rewrite Z.shiftr_div_pow2 by lia. change (2 ^ 6) with 64.
  rewrite Z.mod_small by zlia.
  change utf8.t2 with (3 * 2 ^ 6). rewrite lor_add; change (2 ^ 6) with 64; zlia.
Qed.

Lemma leading_byte_3 (r : Z) :
  0 <= r <= utf8.rune3Max -> Z.lor utf8.t3 (utf8.to_byte (Z.shiftr r 12)) = 224 + r / 4096.
Proof.
  unfold utf8.rune3Max, utf8.to_byte. intros Hr.
  rewrite Z.shiftr_div_pow2 by lia. change (2 ^ 12) with 4096.
  rewrite Z.mod_small by zlia.
  change utf8.t3 with (7 * 2 ^ 5). rewrite lor_add; change (2 ^ 5) with 32; zlia.
Qed.

Lemma leading_byte_4 (r : Z) :
  0 <= r <= utf8.MaxRune -> Z.lor utf8.t4 (utf8.to_byte (Z.shiftr r 18)) = 240 + r / 262144.
Proof.
  unfold utf8.MaxRune, utf8.to_byte. intros Hr.
  rewrite Z.shiftr_div_pow2 by lia. change (2 ^ 18) with 262144.
  rewrite Z.mod_small by zlia.
  change utf8.t4 with (15 * 2 ^ 4). rewrite lor_add; change (2 ^ 4) with 16; zlia.
Qed.

Lemma utf8_bytes_arith (r : rune) :
  valid_rune r -> utf8_bytes r = map byte_of_Z (utf8_arith r).
Proof.
  unfold valid_rune, utf8.MaxRune, utf8.surrogateMin, utf8.surrogateMax.
  intros [Hr Hs]. apply utf8_bytes_store.
  { unfold utf8_arith. repeat case_match; simpl; lia. }
  intros p. unfold utf8.EncodeRune, utf8_arith.
  rewrite (Z.mod_small r (2 ^ 32)) by lia.
  destruct (Z.leb_spec r utf8.rune1Max) as [H1|H1].
  { unfold utf8.rune1Max in H1. unfold utf8.to_byte. by rewrite Z.mod_small by lia. }
  destruct (Z.leb_spec r utf8.rune2Max) as [H2|H2].
  { rewrite leading_byte_2, continuation_byte_0 by lia. reflexivity. }
  unfold utf8.rune2Max in H2.
  destruct ((utf8.MaxRune <? r) || ((utf8.surrogateMin <=? r) && (r <=? utf8.surrogateMax)))
    eqn:Hbad.
  { exfalso. unfold utf8.MaxRune, utf8.surrogateMin, utf8.surrogateMax in Hbad.
    apply orb_true_iff in Hbad as [Hbad|Hbad]; [lia|].
    apply andb_true_iff in Hbad as [? ?]. lia. }
  destruct (Z.leb_spec r utf8.rune3Max) as [H3|H3].
  { rewrite leading_byte_3, (continuation_byte r 6), continuation_byte_0 by lia.
    reflexivity. }
  rewrite leading_byte_4, (continuation_byte r 12), (continuation_byte r 6),
    continuation_byte_0 by (unfold utf8.MaxRune; lia).
  reflexivity.
Qed.

Lemma decode_field_2 (p0 b1 : Z) :
  Z.lor (Z.shiftl (Z.land p0 utf8.mask2) 6) (Z.land b1 utf8.maskx)
  = (p0 mod 32) * 64 + b1 mod 64.
Proof.
  rewrite land_mask2, land_maskx, Z.shiftl_mul_pow2 by lia.
  rewrite lor_add; change (2 ^ 6) with 64; zlia.
Qed.

Lemma decode_field_3 (p0 b1 b2 : Z) :
  Z.lor (Z.lor (Z.shiftl (Z.land p0 utf8.mask3) 12)
               (Z.shiftl (Z.land b1 utf8.maskx) 6))
        (Z.land b2 utf8.maskx)
  = (p0 mod 16) * 4096 + (b1 mod 64) * 64 + b2 mod 64.
Proof.
  rewrite land_mask3, !land_maskx, !Z.shiftl_mul_pow2 by lia.
  rewrite (lor_add 12) by (change (2 ^ 12) with 4096; change (2 ^ 6) with 64; zlia).
  replace (p0 mod 16 * 2 ^ 12 + b1 mod 64 * 2 ^ 6)
    with ((p0 mod 16 * 64 + b1 mod 64) * 2 ^ 6) by lia.
  rewrite lor_add; change (2 ^ 6) with 64; zlia.
Qed.

Lemma decode_field_4 (p0 b1 b2 b3 : Z) :
  Z.lor (Z.lor (Z.lor (Z.shiftl (Z.land p0 utf8.mask4) 18)
                      (Z.shiftl (Z.land b1 utf8.maskx) 12))
               (Z.shiftl (Z.land b2 utf8.maskx) 6))
        (Z.land b3 utf8.maskx)
  = (p0 mod 8) * 262144 + (b1 mod 64) * 4096 + (b2 mod 64) * 64 + b3 mod 64.
Proof.
  rewrite land_mask4, !land_maskx, !Z.shiftl_mul_pow2 by lia.
  rewrite (lor_add 18) by (change (2 ^ 18) with 262144; change (2 ^ 12) with 4096; zlia).
  replace (p0 mod 8 * 2 ^ 18 + b1 mod 64 * 2 ^ 12)
    with ((p0 mod 8 * 64 + b1 mod 64) * 2 ^ 12) by lia.
  rewrite (lor_add 12) by (change (2 ^ 12) with 4096; change (2 ^ 6) with 64; zlia).
  replace ((p0 mod 8 * 64 + b1 mod 64) * 2 ^ 12 + b2 mod 64 * 2 ^ 6)
    with (((p0 mod 8 * 64 + b1 mod 64) * 64 + b2 mod 64) * 2 ^ 6) by lia.
  rewrite lor_add; change (2 ^ 6) with 64; zlia.
Qed.

(** The table [first], read back: the class of each leading byte. *)
Lemma first_spec (b : Z) :
  0 <= b < 256 ->
  (b <= 0x7F /\ utf8.first b = utf8.as_)
  \/ ((0x80 <= b <= 0xC1 \/ 0xF5 <= b) /\ utf8.first b = utf8.xx)
  \/ (0xC2 <= b <= 0xDF /\ utf8.first b = utf8.s1)
  \/ (b = 0xE0 /\ utf8.first b = utf8.s2)
  \/ ((0xE1 <= b <= 0xEC \/ 0xEE <= b <= 0xEF) /\ utf8.first b = utf8.s3)
  \/ (b = 0xED /\ utf8.first b = utf8.s4)
  \/ (b = 0xF0 /\ utf8.first b = utf8.s5)
  \/ (0xF1 <= b <= 0xF3 /\ utf8.first b = utf8.s6)
  \/ (b = 0xF4 /\ utf8.first b = utf8.s7).
Proof.
  intros Hb. unfold utf8.first.
  repeat match goal with
    | |- context [?x <=? ?y] => destruct (Z.leb_spec x y)
    | |- context [?x =? ?y] => destruct (Z.eqb_spec x y)
    end; lia.
Qed.

(** Closing a goal on the bytes of a decoded rune: [a :: l = byte_of_Z e :: l'],
    where [e] is the value of [a] by arithmetic. *)
Ltac bytes_eq :=
  repeat match goal with
    | |- ?a :: _ = byte_of_Z ?e :: _ =>
        replace e with (byte_Z a) by zlia; rewrite (byte_of_Z_byte_Z a); f_equal
    end.

(** The accepted sequence: the rune [r] is a scalar value and the [n] bytes
    taken are its encoding. *)
Ltac decoded_valid :=
  right;
  match goal with
  | |- valid_rune ?r /\ _ =>
      assert (valid_rune r) as Hvalid
        by (unfold valid_rune, utf8.MaxRune, utf8.surrogateMin, utf8.surrogateMax; zlia);
      split; [exact Hvalid|];
      rewrite (utf8_bytes_arith r Hvalid); unfold utf8_arith,
        utf8.rune1Max, utf8.rune2Max, utf8.rune3Max;
      repeat match goal with
        | |- context [?x <=? ?y] => destruct (Z.leb_spec x y); [try (exfalso; zlia)|]
        end;
      try (exfalso; zlia);
      (split; [simpl; bytes_eq|reflexivity])
  end.

(** [utf8.DecodeRune] either reports an error of width 1, or returns a
    scalar value together with the length of its encoding, which is what
    the source starts with. *)
Lemma DecodeRune_spec (src : list byte) (r : rune) (n : nat) :
  src <> [] ->
  utf8.DecodeRune src = (r, n) ->
  (r = utf8.RuneError /\ n = 1%nat)
  \/ (valid_rune r /\ take n src = utf8_bytes r /\ n = length (utf8_bytes r)).
Proof.
  destruct src as [|a0 t]; [done|]. intros _.
  unfold utf8.DecodeRune.
  change (utf8.idx (a0 :: t) 0) with (byte_Z a0).
  rewrite decode_field_2, decode_field_3, decode_field_4.
  pose proof (byte_Z_range a0) as H0.
  remember (byte_Z a0) as p0 eqn:Hp0.
  remember (utf8.idx (a0 :: t) 1) as b1 eqn:Hb1.
  remember (utf8.idx (a0 :: t) 2) as b2 eqn:Hb2.
  remember (utf8.idx (a0 :: t) 3) as b3 eqn:Hb3.
  remember (p0 mod 32 * 64 + b1 mod 64) as r2 eqn:Hr2.
  remember (p0 mod 16 * 4096 + b1 mod 64 * 64 + b2 mod 64) as r3 eqn:Hr3.
  remember (p0 mod 8 * 262144 + b1 mod 64 * 4096 + b2 mod 64 * 64 + b3 mod 64)
    as r4 eqn:Hr4.
  destruct (first_spec p0 H0)
    as [[Hp ->]|[[Hp ->]|[[Hp ->]|[[Hp ->]|[[Hp ->]|[[Hp ->]|[[Hp ->]|[[Hp ->]|[Hp ->]]]]]]]]].
  1: { simpl. change (Z.lnot 0) with (-1).
       rewrite Z.land_m1_r, Z.land_0_r, Z.lor_0_r. intros H. injection H as <- <-.
       clear Hr2 Hr3 Hr4 Hb1 Hb2 Hb3. subst p0. decoded_valid. }
  1: { simpl. change (Z.lnot (-1)) with 0.
       rewrite Z.land_0_r, Z.land_m1_r, Z.lor_0_l. intros H. injection H as <- <-.
       by left. }
  all: intros H.
  all: destruct t as [|a1 [|a2 [|a3 t]]]; simpl in H.
  all: unfold utf8.idx in *; simpl nth in *; unfold utf8.locb, utf8.hicb in *.
  all: repeat match type of H with
         | context [?x <? ?y] => destruct (Z.ltb_spec x y)
         end; simpl in H; injection H as <- <-.
  all: try (left; split; reflexivity).
  all: decoded_valid.
Qed.

(** Bytes that do not start with the encoding of a scalar value decode to
    [utf8.RuneError], one byte wide. *)
Lemma DecodeRune_invalid (src : list byte) :
  src <> [] -> ~ utf8_valid_head src -> utf8.DecodeRune src = (utf8.RuneError, 1%nat).
Proof.
  intros Hne Hinv. destruct (utf8.DecodeRune src) as [r n] eqn:E.
  destruct (DecodeRune_spec src r n Hne E) as [[-> ->]|(Hv & Ht & Hn)]; [done|].
  exfalso. apply Hinv. exists r. split; [done|]. by rewrite <- Hn.
Qed.

(** ** UTF-8: what [utf8.FullRune] waits for *)

Lemma byte_Z_byte_of_Z (z : Z) : 0 <= z < 256 -> byte_Z (byte_of_Z z) = z.
Proof.
  intros Hz. unfold byte_Z, byte_of_Z. rewrite Z.mod_small by done.
  rewrite byte_to_N_of_N_small by lia. lia.
Qed.

Lemma first_2 (b : Z) : 0xC2 <= b <= 0xDF -> utf8.first b = utf8.s1.
Proof.
  intros Hb. unfold utf8.first.
  repeat match goal with
    | |- context [?x <=? ?y] => destruct (Z.leb_spec x y)
    | |- context [?x =? ?y] => destruct (Z.eqb_spec x y)
    end; lia.
Qed.

Lemma first_3 (b : Z) :
  0xE0 <= b <= 0xEF ->
  utf8.first b = if b =? 0xE0 then utf8.s2 else if b =? 0xED then utf8.s4 else utf8.s3.
Proof.
  intros Hb. unfold utf8.first.
  repeat match goal with
    | |- context [?x <=? ?y] => destruct (Z.leb_spec x y)
    | |- context [?x =? ?y] => destruct (Z.eqb_spec x y)
    end; lia.
Qed.

Lemma first_4 (b : Z) :
  0xF0 <= b <= 0xF4 ->
  utf8.first b = if b =? 0xF0 then utf8.s5 else if b =? 0xF4 then utf8.s7 else utf8.s6.
Proof.
  intros Hb. unfold utf8.first.
  repeat match goal with
    | |- context [?x <=? ?y] => destruct (Z.leb_spec x y)
    | |- context [?x =? ?y] => destruct (Z.eqb_spec x y)
    end; lia.
Qed.

(** A source that is the start, and not the whole, of the encoding of a
    scalar value is not a full rune. *)
Lemma FullRune_incomplete (src : list byte) :
  src <> [] -> utf8_incomplete src -> utf8.FullRune src = false.
Proof.
  intros Hne (r & ext & Hv & Hext & Hbytes).
  rewrite (utf8_bytes_arith r Hv) in Hbytes.
  destruct Hv as [Hr Hs].
  unfold utf8.MaxRune, utf8.surrogateMin, utf8.surrogateMax in *.
  unfold utf8_arith, utf8.rune1Max, utf8.rune2Max, utf8.rune3Max in Hbytes.
  destruct (Z.leb_spec r 127) as [H1|H1].
  { destruct src as [|? [|? ?]], ext as [|? ?]; done. }
  destruct (Z.leb_spec r 2047) as [H2|H2].
  { destruct src as [|a0 [|a1 src]]; [done| |destruct src, ext; done].
    injection Hbytes as Ha; intros; subst.
    unfold utf8.FullRune, utf8.idx. simpl nth. simpl length.
    rewrite byte_Z_byte_of_Z by zlia. rewrite first_2 by zlia. reflexivity. }
  destruct (Z.leb_spec r 65535) as [H3|H3].
  { destruct src as [|a0 [|a1 [|a2 src]]]; [done| | |destruct src, ext; done].
    all: injection Hbytes as Ha; intros; subst.
    all: unfold utf8.FullRune, utf8.idx; simpl nth; simpl length.
    all: rewrite !byte_Z_byte_of_Z by zlia; rewrite first_3 by zlia.
    all: destruct (Z.eqb_spec (224 + r / 4096) 224);
      [|destruct (Z.eqb_spec (224 + r / 4096) 237)].
    all: simpl; try reflexivity.
    all: unfold utf8.locb, utf8.hicb.
    all: repeat match goal with
           | |- context [?x <? ?y] => destruct (Z.ltb_spec x y); [exfalso; zlia|]
           end; reflexivity. }
  destruct src as [|a0 [|a1 [|a2 [|a3 src]]]]; [done| | | |destruct src, ext; done].
  all: injection Hbytes as Ha; intros; subst.
  all: unfold utf8.FullRune, utf8.idx; simpl nth; simpl length.
  all: rewrite !byte_Z_byte_of_Z by zlia; rewrite first_4 by zlia.
  all: destruct (Z.eqb_spec (240 + r / 262144) 240);
    [|destruct (Z.eqb_spec (240 + r / 262144) 244)].
  all: simpl; try reflexivity.
  all: unfold utf8.locb, utf8.hicb.
  all: repeat match goal with
         | |- context [?x <? ?y] => destruct (Z.ltb_spec x y); [exfalso; zlia|]
         end; reflexivity.
Qed.

Lemma incomplete_by_decoding (src ext : list byte) (r : rune) :
  ext <> [] -> (2 <= length (src ++ ext))%nat ->
  utf8.DecodeRune (src ++ ext) = (r, length (src ++ ext)) ->
  utf8_incomplete src.
Proof.
  intros Hext Hlen H.
  destruct (DecodeRune_spec (src ++ ext) r _ ltac:(by destruct src, ext) H)
    as [[_ Hn]|(Hv & Ht & _)]; [lia|].
  exists r, ext. split; [done|]. split; [done|].
  rewrite <- Ht. by rewrite firstn_all.
Qed.

(** Completing the source with the bytes [ext]: the whole decodes as one
    rune, the tests on the bytes of the source following from those that
    [utf8.FullRune] made. *)
Ltac complete_with ext :=
  solve [ eapply (incomplete_by_decoding _ ext); [discriminate|simpl; lia|];
          unfold utf8.DecodeRune, utf8.idx; simpl nth; simpl length;
          match goal with Hf : utf8.first _ = _ |- _ => rewrite Hf end;
          simpl; unfold utf8.locb, utf8.hicb in *;
          repeat match goal with
            | |- context [?x <? ?y] => destruct (Z.ltb_spec x y); [exfalso; lia|]
            end;
          reflexivity ].

(** A source that is not a full rune is the start of the encoding of a
    scalar value. *)
Lemma FullRune_false_incomplete (src : list byte) :
  src <> [] -> utf8.FullRune src = false -> utf8_incomplete src.
Proof.
  destruct src as [|a0 t]; [done|]. intros _ H.
  pose proof (byte_Z_range a0) as H0.
  unfold utf8.FullRune in H. change (utf8.idx (a0 :: t) 0) with (byte_Z a0) in H.
  destruct (first_spec (byte_Z a0) H0)
    as [[Hp Hf]|[[Hp Hf]|[[Hp Hf]|[[Hp Hf]|[[Hp Hf]|[[Hp Hf]|[[Hp Hf]|[[Hp Hf]|[Hp Hf]]]]]]]]].
  all: rewrite Hf in H.
  all: destruct t as [|a1 [|a2 [|a3 t]]]; simpl in H; try discriminate H.
  all: unfold utf8.idx, utf8.locb, utf8.hicb in H; simpl nth in H.
  all: repeat match type of H with
         | context [?x <? ?y] => destruct (Z.ltb_spec x y)
         end; simpl in H; try discriminate H.
  all: first
    [ complete_with [Byte.x80]
    | complete_with [Byte.xa0; Byte.x80]
    | complete_with [Byte.x80; Byte.x80]
    | complete_with [Byte.xa0; Byte.x80; Byte.x80]
    | complete_with [Byte.x80; Byte.x80; Byte.x80] ].
Qed.

Lemma FullRune_false_iff (src : list byte) :
  src <> [] -> utf8.FullRune src = false <-> utf8_incomplete src.
Proof.
  intros Hne. split.
  - by apply FullRune_false_incomplete.
  - by apply FullRune_incomplete.
Qed.

Lemma first_1 (b : Z) : 0 <= b <= 0x7F -> utf8.first b = utf8.as_.
Proof.
  intros Hb. unfold utf8.first. destruct (Z.leb_spec b 127); [done|lia].
Qed.

(** Decoding the encoding of a scalar value gives the value back, with the
    length of the encoding, whatever follows. *)
Lemma DecodeRune_utf8_bytes (r : rune) (rest : list byte) :
  valid_rune r ->
  utf8.DecodeRune (utf8_bytes r ++ rest) = (r, length (utf8_bytes r)).
Proof.
  intros Hv. rewrite (utf8_bytes_arith r Hv). destruct Hv as [Hr Hs].
  unfold utf8.MaxRune, utf8.surrogateMin, utf8.surrogateMax in *.
  unfold utf8_arith, utf8.rune1Max, utf8.rune2Max, utf8.rune3Max.
  unfold utf8.DecodeRune. rewrite decode_field_2, decode_field_3, decode_field_4.
  destruct (Z.leb_spec r 127) as [H1|H1];
    [|destruct (Z.leb_spec r 2047) as [H2|H2];
      [|destruct (Z.leb_spec r 65535) as [H3|H3]]].
  all: unfold utf8.idx; simpl map; simpl app; simpl nth; simpl length.
  all: rewrite !byte_Z_byte_of_Z by zlia.
  - rewrite first_1 by lia. simpl. change (Z.lnot 0) with (-1).
    by rewrite Z.land_m1_r, Z.land_0_r, Z.lor_0_r.
  - rewrite first_2 by zlia. simpl. unfold utf8.locb, utf8.hicb.
    repeat match goal with
      | |- context [?x <? ?y] => destruct (Z.ltb_spec x y); [exfalso; zlia|]
      end.
    simpl. f_equal. zlia.
  - rewrite first_3 by zlia.
    destruct (Z.eqb_spec (224 + r / 4096) 224);
      [|destruct (Z.eqb_spec (224 + r / 4096) 237)].
    all: simpl; unfold utf8.locb, utf8.hicb.
    all: repeat match goal with
           | |- context [?x <? ?y] => destruct (Z.ltb_spec x y); [exfalso; zlia|]
           end.
    all: simpl; f_equal; zlia.
  - rewrite first_4 by zlia.
    destruct (Z.eqb_spec (240 + r / 262144) 240);
      [|destruct (Z.eqb_spec (240 + r / 262144) 244)].
    all: simpl; unfold utf8.locb, utf8.hicb.
    all: repeat match goal with
           | |- context [?x <? ?y] => destruct (Z.ltb_spec x y); [exfalso; zlia|]
           end.
    all: simpl; f_equal; zlia.
Qed.

(** The encoding of a scalar value is a full rune. *)
Lemma FullRune_utf8_bytes (r : rune) (rest : list byte) :
  valid_rune r -> utf8.FullRune (utf8_bytes r ++ rest) = true.
Proof.
  intros Hv.
  destruct (utf8.FullRune (utf8_bytes r ++ rest)) eqn:E; [done|].
  pose proof (utf8_bytes_length r) as Hl.
  apply FullRune_false_incomplete in E as (r' & ext & Hv' & Hext & Hb);
    [|destruct (utf8_bytes r); [simpl in Hl; lia|done]].
  pose proof (DecodeRune_utf8_bytes r (rest ++ ext) Hv) as H1.
  pose proof (DecodeRune_utf8_bytes r' [] Hv') as H2.
  rewrite app_nil_r, Hb, <- app_assoc, H1 in H2. injection H2 as -> Hlen.
  apply (f_equal length) in Hb. rewrite !length_app in Hb.
  destruct ext; [done|]. simpl in Hb. lia.
Qed.

(** The encoder's text of the UTF-8 of scalar values: one byte for each. *)
Lemma encode_text_runes (mcr : rune) (m : gmap Z byte) (rs : list rune) :
  Forall valid_rune rs ->
  encode_text mcr m (flat_map utf8_bytes rs) = map (encoded_byte mcr m) rs.
Proof.
  induction 1 as [|r rs Hv _ IH]; [reflexivity|].
  pose proof (utf8_bytes_length r) as Hl.
  simpl flat_map. rewrite encode_text_unfold.
  - rewrite (DecodeRune_utf8_bytes r _ Hv). simpl fst. simpl snd.
    rewrite drop_app_length, IH. reflexivity.
  - destruct (utf8_bytes r); [simpl in Hl; lia|done].
Qed.

(** ** The claims on single steps *)

Lemma Some_eq_inv {A} (x y : A) : Some x = Some y -> x = y.
Proof. intros H. by injection H. Qed.

Lemma MacRoman_table :
  simpleEncodings !! "MacRomanEncoding"%string = Some (decode MacRoman).
Proof.
  unfold simpleEncodings. cbn [list_to_map foldr uncurry fst snd].
  rewrite lookup_insert_ne by discriminate.
  rewrite lookup_insert_eq. reflexivity.
Qed.

Lemma MacRoman_x80 (mcr : rune) : decoded_rune mcr (decode MacRoman) Byte.x80 = 0xC4.
Proof. vm_compute. reflexivity. Qed.

Lemma MacRoman_x81 (mcr : rune) : decoded_rune mcr (decode MacRoman) Byte.x81 = 0xC5.
Proof. vm_compute. reflexivity. Qed.

(** C4, as the code has it: a step of the decoder whose rune has a
    [utf8.RuneLen] greater than the room left, which for a scalar value
    means that its UTF-8 encoding does not fit, stops with [ErrShortDst],
    the destination and both counters as they were before the step. With
    the MacRomanEncoding table and the source [0x80, 0x81]: a destination of
    one byte gives [ErrShortDst] with nothing written and nothing consumed;
    a retry with four bytes of room or more gives the UTF-8 of U+00C4 and
    then of U+00C5; a retry with two or three bytes gives the UTF-8 of
    U+00C4 alone, one byte consumed, and [ErrShortDst] again, and one more
    retry with at least two bytes gives the UTF-8 of U+00C5. *)
Theorem decoder_short_destination (mcr : rune) :
  (forall (m : gmap byte Z) (done dst src : list byte) (b : byte) (nDst nSrc : nat),
     Z.of_nat (length dst) < utf8.RuneLen (decoded_rune mcr m b) ->
     simpleDecoder_loop mcr m done dst (b :: src) nDst nSrc
     = Returns {| buf := done ++ dst; nDst := nDst; nSrc := nSrc; err := ErrShortDst |})
  /\ (forall (r : rune) (dst : list byte),
        valid_rune r ->
        (Z.of_nat (length dst) < utf8.RuneLen r
         <-> (length dst < length (utf8_bytes r))%nat))
  /\ (forall (m : gmap byte Z) (d : byte) (atEOF : bool),
        simpleEncodings !! "MacRomanEncoding"%string = Some m ->
        simpleDecoder_Transform mcr m [d] [Byte.x80; Byte.x81] atEOF
        = Returns {| buf := [d]; nDst := 0; nSrc := 0; err := ErrShortDst |})
  /\ (forall (m : gmap byte Z) (dst : list byte) (atEOF : bool),
        simpleEncodings !! "MacRomanEncoding"%string = Some m ->
        (4 <= length dst)%nat ->
        simpleDecoder_Transform mcr m dst [Byte.x80; Byte.x81] atEOF
        = Returns {| buf := [Byte.xc3; Byte.x84; Byte.xc3; Byte.x85] ++ drop 4 dst;
                     nDst := 4; nSrc := 2; err := ErrNil |})
  /\ (forall (m : gmap byte Z) (dst dst' : list byte) (atEOF : bool),
        simpleEncodings !! "MacRomanEncoding"%string = Some m ->
        (2 <= length dst < 4)%nat -> (2 <= length dst')%nat ->
        simpleDecoder_Transform mcr m dst [Byte.x80; Byte.x81] atEOF
        = Returns {| buf := [Byte.xc3; Byte.x84] ++ drop 2 dst;
                     nDst := 2; nSrc := 1; err := ErrShortDst |}
        /\ simpleDecoder_Transform mcr m dst' [Byte.x81] atEOF
           = Returns {| buf := [Byte.xc3; Byte.x85] ++ drop 2 dst';
                        nDst := 2; nSrc := 1; err := ErrNil |})
  /\ (forall (d : byte) (dsts : list (list byte)),
        Forall (fun dst => (2 <= length dst)%nat) dsts ->
        (2 <= length dsts)%nat ->
        resume (decoderOf mcr MacRoman) ([d] :: dsts) [Byte.x80; Byte.x81] [] [] 0
        = Some ([Byte.xc3; Byte.x84; Byte.xc3; Byte.x85], 2%nat)).
Proof.
  assert (Hb0 : utf8_bytes 0xC4 = [Byte.xc3; Byte.x84]) by (vm_compute; reflexivity).
  assert (Hb1 : utf8_bytes 0xC5 = [Byte.xc3; Byte.x85]) by (vm_compute; reflexivity).
  assert (Hl1 : utf8.RuneLen 0xC5 = 2) by reflexivity.
  assert (Hl0 : utf8.RuneLen 0xC4 = 2) by reflexivity.
  assert (Hone : forall d atEOF,
    simpleDecoder_Transform mcr (decode MacRoman) [d] [Byte.x80; Byte.x81] atEOF
    = Returns {| buf := [d]; nDst := 0; nSrc := 0; err := ErrShortDst |}).
  { intros d atEOF. unfold simpleDecoder_Transform.
    rewrite simpleDecoder_loop_short; [reflexivity|].
    rewrite MacRoman_x80, Hl0. simpl length. lia. }
  assert (Hfour : forall dst atEOF, (4 <= length dst)%nat ->
    simpleDecoder_Transform mcr (decode MacRoman) dst [Byte.x80; Byte.x81] atEOF
    = Returns {| buf := [Byte.xc3; Byte.x84; Byte.xc3; Byte.x85] ++ drop 4 dst;
                 nDst := 4; nSrc := 2; err := ErrNil |}).
  { intros dst atEOF Hd. unfold simpleDecoder_Transform.
    rewrite simpleDecoder_loop_fits; rewrite MacRoman_x80, Hb0; [|simpl length; lia].
    rewrite simpleDecoder_loop_fits; rewrite MacRoman_x81, Hb1;
      [|rewrite length_drop; simpl length; lia].
    cbn [simpleDecoder_loop length app]. rewrite drop_drop. reflexivity. }
  assert (Htwo : forall dst atEOF, (2 <= length dst < 4)%nat ->
    simpleDecoder_Transform mcr (decode MacRoman) dst [Byte.x80; Byte.x81] atEOF
    = Returns {| buf := [Byte.xc3; Byte.x84] ++ drop 2 dst;
                 nDst := 2; nSrc := 1; err := ErrShortDst |}).
  { intros dst atEOF Hd. unfold simpleDecoder_Transform.
    rewrite simpleDecoder_loop_fits; rewrite MacRoman_x80, Hb0; [|simpl length; lia].
    rewrite simpleDecoder_loop_short; [reflexivity|].
    rewrite MacRoman_x81, Hl1, length_drop. simpl length. lia. }
  assert (Hlast : forall dst atEOF, (2 <= length dst)%nat ->
    simpleDecoder_Transform mcr (decode MacRoman) dst [Byte.x81] atEOF
    = Returns {| buf := [Byte.xc3; Byte.x85] ++ drop 2 dst;
                 nDst := 2; nSrc := 1; err := ErrNil |}).
  { intros dst atEOF Hd. unfold simpleDecoder_Transform.
    rewrite simpleDecoder_loop_fits; rewrite MacRoman_x81, Hb1; [|simpl length; lia].
    reflexivity. }
  split; [|split; [|split; [|split; [|split]]]].
  - intros m done dst src b nDst nSrc Hlen. by apply simpleDecoder_loop_short.
  - intros r dst Hv. rewrite (RuneLen_bytes _ Hv). lia.
  - intros m d atEOF Hm. rewrite MacRoman_table in Hm.
    apply Some_eq_inv in Hm. subst m. apply Hone.
  - intros m dst atEOF Hm. rewrite MacRoman_table in Hm.
    apply Some_eq_inv in Hm. subst m. apply Hfour.
  - intros m dst dst' atEOF Hm Hd Hd'. rewrite MacRoman_table in Hm.
    apply Some_eq_inv in Hm. subst m. split; [apply Htwo; exact Hd|apply Hlast; exact Hd'].
  - intros d dsts Hroom Hn.
    destruct dsts as [|d1 [|d2 dsts]]; [simpl in Hn; lia..|].
    apply Forall_cons in Hroom as [H1 Hroom]. apply Forall_cons in Hroom as [H2 _].
    cbn [resume]. unfold decoderOf at 1. rewrite Hone. cbn [returned err nSrc nDst buf].
    rewrite drop_0. unfold decoderOf at 1.
    destruct (Nat.le_gt_cases 4 (length d1)) as [Hbig|Hsmall].
    + rewrite Hfour by done. cbn [returned err nSrc nDst buf]. reflexivity.
    + rewrite Htwo by lia. cbn [returned err nSrc nDst buf resume].
      unfold decoderOf at 1. change (drop 1 [Byte.x80; Byte.x81]) with [Byte.x81].
      rewrite Hlast by done. cbn [returned err nSrc nDst buf]. reflexivity.
Qed.

Lemma decoder_short_destination_witness :
  simpleDecoder_loop MissingCodeRune_value (decode MacRoman) [] [Byte.x00]
    [Byte.x80; Byte.x81] 0 0
  = Returns {| buf := [] ++ [Byte.x00]; nDst := 0; nSrc := 0; err := ErrShortDst |}.
Proof.
  apply (proj1 (decoder_short_destination MissingCodeRune_value)
           (decode MacRoman) [] [Byte.x00] [Byte.x81] Byte.x80 0%nat 0%nat).
  rewrite MacRoman_x80. vm_compute. reflexivity.
Defined.

(** C4 as stated fails for a retry with two bytes of room: the call writes
    the UTF-8 of U+00C4 only, consumes one of the two source bytes and
    returns [ErrShortDst] again; the UTF-8 of U+00C5 is not produced. *)
Lemma decoder_retry_two_bytes :
  simpleEncodings !! "MacRomanEncoding"%string = Some (decode MacRoman)
  /\ simpleDecoder_Transform MissingCodeRune_value (decode MacRoman)
       [Byte.x00; Byte.x00] [Byte.x80; Byte.x81] false
     = Returns {| buf := [Byte.xc3; Byte.x84]; nDst := 2; nSrc := 1; err := ErrShortDst |}
  /\ simpleDecoder_Transform MissingCodeRune_value (decode MacRoman)
       [Byte.x00; Byte.x00] [Byte.x80; Byte.x81] true
     = Returns {| buf := [Byte.xc3; Byte.x84]; nDst := 2; nSrc := 1; err := ErrShortDst |}
  /\ utf8_bytes 0xC4 ++ utf8_bytes 0xC5 = [Byte.xc3; Byte.x84; Byte.xc3; Byte.x85]
  /\ [Byte.xc3; Byte.x84] <> utf8_bytes 0xC4 ++ utf8_bytes 0xC5.
Proof.
  split; [apply MacRoman_table|].
  split; [vm_compute; reflexivity|]. split; [vm_compute; reflexivity|].
  split; [vm_compute; reflexivity|]. vm_compute. discriminate.
Qed.

(** C6: at a step of the encoder with source bytes left: if they are not a
    full rune, that is, if they are the start and not the whole of the
    UTF-8 encoding of a scalar value, and [atEOF] is not set, the call
    returns [ErrShortSrc]; if they are a full rune (or [atEOF] is set) and
    no room is left in the destination, it returns [ErrShortDst]. In both
    cases the step consumes and writes nothing: the destination is as it was
    and the counters returned are those accumulated before the step. *)
Theorem encoder_short_signals (mcr : rune) (m : gmap Z byte) (fuel : nat)
    (done dst src : list byte) (atEOF : bool) (nDst nSrc : nat) :
  src <> [] ->
  (utf8.FullRune src = false <-> utf8_incomplete src)
  /\ (utf8.FullRune src = false -> atEOF = false ->
      simpleEncoder_loop mcr fuel m done dst src atEOF nDst nSrc
      = Some {| buf := done ++ dst; nDst := nDst; nSrc := nSrc; err := ErrShortSrc |})
  /\ (utf8.FullRune src = true \/ atEOF = true -> dst = [] ->
      simpleEncoder_loop mcr fuel m done dst src atEOF nDst nSrc
      = Some {| buf := done ++ dst; nDst := nDst; nSrc := nSrc; err := ErrShortDst |}).
Proof.
  intros Hne. split; [by apply FullRune_false_iff|]. split.
  - intros Hf ->. by apply simpleEncoder_loop_short_src.
  - intros Hf ->. by apply simpleEncoder_loop_short_dst.
Qed.

Lemma encoder_short_signals_witness :
  simpleEncoder_Transform MissingCodeRune_value (encode MacRoman)
    [Byte.x00; Byte.x00] [Byte.xc3] false
  = Some {| buf := [Byte.x00; Byte.x00]; nDst := 0; nSrc := 0; err := ErrShortSrc |}
  /\ simpleEncoder_Transform MissingCodeRune_value (encode MacRoman)
       [] [Byte.xc3; Byte.x84] false
     = Some {| buf := []; nDst := 0; nSrc := 0; err := ErrShortDst |}.
Proof.
  split.
  - apply (proj1 (proj2 (encoder_short_signals MissingCodeRune_value (encode MacRoman) 1
                    [] [Byte.x00; Byte.x00] [Byte.xc3] false 0 0 ltac:(discriminate))));
      reflexivity.
  - apply (proj2 (proj2 (encoder_short_signals MissingCodeRune_value (encode MacRoman) 2
                    [] [] [Byte.xc3; Byte.x84] false 0 0 ltac:(discriminate))));
      [left|]; reflexivity.
Defined.

(** C7: a step of the encoder that consumes a rune writes one byte. The
    rune is the one [utf8.DecodeRune] returns, which is the scalar value
    whose UTF-8 encoding the source starts with, and [utf8.RuneError] for
    bytes that start with no such encoding, no error being raised; the rune
    [utf8.RuneError] is replaced by [MissingCodeRune]. The byte is the
    rune's code in the encode map, else the code of [MissingCodeRune] in the
    map, else 0x00; it is the next byte of the destination of the call,
    which the later steps leave as it is. *)
Theorem encoder_step_output (mcr : rune) (m : gmap Z byte) (fuel : nat)
    (done dst src : list byte) (d : byte) (atEOF : bool) (nDst0 nSrc0 : nat) :
  src <> [] ->
  utf8.FullRune src = true \/ atEOF = true ->
  exists (r : rune) (n : nat) (b : byte),
    utf8.DecodeRune src = (r, n)
    /\ (1 <= n <= length src)%nat
    /\ simpleEncoder_loop mcr (S fuel) m done (d :: dst) src atEOF nDst0 nSrc0
       = simpleEncoder_loop mcr fuel m (done ++ [b]) dst (drop n src) atEOF
           (nDst0 + 1) (nSrc0 + n)
    /\ (forall (r0 : rune) (rest : list byte),
          valid_rune r0 -> src = utf8_bytes r0 ++ rest ->
          r = r0 /\ n = length (utf8_bytes r0))
    /\ (~ utf8_valid_head src -> (if r =? utf8.RuneError then mcr else r) = mcr)
    /\ match m !! (if r =? utf8.RuneError then mcr else r) with
       | Some c => b = c
       | None =>
           match m !! mcr with
           | Some c => b = c
           | None => b = Byte.x00
           end
       end
    /\ ((length src <= S fuel)%nat ->
        exists res,
          simpleEncoder_loop mcr (S fuel) m done (d :: dst) src atEOF nDst0 nSrc0 = Some res
          /\ take (length done) (buf res) = done
          /\ buf res !! length done = Some b
          /\ length (buf res) = length (done ++ d :: dst)
          /\ (nDst0 + 1 <= nDst res)%nat
          /\ (nSrc0 + n <= nSrc res)%nat).
Proof.
  intros Hne Hgo.
  pose proof (DecodeRune_size src Hne) as Hn.
  exists (fst (utf8.DecodeRune src)), (snd (utf8.DecodeRune src)),
    (encoded_byte mcr m (fst (utf8.DecodeRune src))).
  split; [by destruct (utf8.DecodeRune src)|]. split; [done|].
  split; [by apply simpleEncoder_loop_step|].
  split.
  { intros r0 rest Hv ->. by rewrite (DecodeRune_utf8_bytes r0 rest Hv). }
  split.
  { intros Hinv. by rewrite (DecodeRune_invalid src Hne Hinv). }
  split.
  { unfold encoded_byte.
    destruct (m !! (if fst (utf8.DecodeRune src) =? utf8.RuneError then mcr
                    else fst (utf8.DecodeRune src))); [done|].
    by destruct (m !! mcr). }
  intros Hfuel. rewrite simpleEncoder_loop_step by done.
  destruct (simpleEncoder_loop_returns mcr m fuel
              (drop (snd (utf8.DecodeRune src)) src)
              (done ++ [encoded_byte mcr m (fst (utf8.DecodeRune src))]) dst atEOF
              (nDst0 + 1)%nat (nSrc0 + snd (utf8.DecodeRune src))%nat [])
    as (res & k & w & Hres & Hk & HnS & HnD & Hbuf & Hlen & Hwk & Htext & Herr).
  { rewrite length_drop. lia. }
  { done. }
  exists res. split; [done|]. rewrite Hbuf, <- !app_assoc.
  split; [by rewrite take_app_length|].
  split; [by rewrite lookup_app_r, Nat.sub_diag by lia|].
  split; [|lia].
  rewrite !length_app, length_drop. simpl. lia.
Qed.

Lemma encoder_step_output_witness :
  exists (r : rune) (n : nat) (b : byte),
    utf8.DecodeRune [Byte.xff; Byte.x41] = (r, n)
    /\ (1 <= n <= 2)%nat
    /\ simpleEncoder_loop MissingCodeRune_value 2 (encode MacRoman) []
         [Byte.x01; Byte.x01] [Byte.xff; Byte.x41] false 0 0
       = simpleEncoder_loop MissingCodeRune_value 1 (encode MacRoman) ([] ++ [b])
           [Byte.x01] (drop n [Byte.xff; Byte.x41]) false (0 + 1) (0 + n).
Proof.
  destruct (encoder_step_output MissingCodeRune_value (encode MacRoman) 1 []
              [Byte.x01] [Byte.xff; Byte.x41] Byte.x01 false 0 0)
    as (r & n & b & H1 & H2 & H3 & _).
  - discriminate.
  - left. reflexivity.
  - exists r, n, b. split; [exact H1|]. split; [exact H2|exact H3].
Defined.

(** ** The accessors composed *)

Lemma CharcodeToRune_ok (mcr : rune) (enc : simpleEncoding) (c : CharCode) (r : rune) :
  CharcodeToRune mcr enc c = (r, true) <->
  (c <= 255)%N /\ decode enc !! byte_of_N c = Some r.
Proof.
  unfold CharcodeToRune. destruct (N.ltb_spec 0xff c) as [Hc|Hc].
  - split; [discriminate|]. intros [Hle _]. lia.
  - destruct (decode enc !! byte_of_N c) as [r'|] eqn:Hb.
    + split.
      * intros [= ->]. split; [lia|done].
      * intros [_ [= ->]]. done.
    + split; [discriminate|]. intros [_ H]. discriminate.
Qed.

Lemma CharcodeToRune_byte (mcr : rune) (enc : simpleEncoding) (b : byte) (r : rune) :
  CharcodeToRune mcr enc (CharCode_of_byte b) = (r, true) <-> decode enc !! b = Some r.
Proof.
  rewrite CharcodeToRune_ok. unfold CharCode_of_byte. rewrite byte_of_N_to_N.
  pose proof (byte_to_N_lt b) as Hlt. split; [tauto|]. intros H. split; [lia|done].
Qed.

Lemma RuneToCharcode_ok (enc : simpleEncoding) (r : rune) (c : CharCode) :
  RuneToCharcode enc r = (c, true) <->
  exists b : byte, encode enc !! r = Some b /\ c = CharCode_of_byte b.
Proof.
  unfold RuneToCharcode. destruct (encode enc !! r) as [b|].
  - split.
    + intros [= <-]. by exists b.
    + intros (b' & [= <-] & ->). done.
  - split; [discriminate|]. intros (b' & H & _). discriminate.
Qed.

(** X1: a code is listed by [Charcodes] exactly when [CharcodeToRune]
    accepts it, the rune returned then is the one the decode map has for
    the code, and the list has one code for each entry of the map. *)
Theorem CharcodeToRune_Charcodes (mcr : rune) (order : list (byte * rune))
    (enc : simpleEncoding) :
  range_of (decode enc) order ->
  (forall c : CharCode,
     c ∈ Charcodes order enc <-> exists r, CharcodeToRune mcr enc c = (r, true))
  /\ (forall (c : CharCode) (r : rune),
        CharcodeToRune mcr enc c = (r, true) ->
        (c <= 255)%N /\ decode enc !! byte_of_N c = Some r)
  /\ (forall c : CharCode,
        c ∉ Charcodes order enc -> snd (CharcodeToRune mcr enc c) = false)
  /\ length (Charcodes order enc) = size (decode enc).
Proof.
  intros Hr.
  assert (forall c : CharCode,
     c ∈ Charcodes order enc <-> exists r, CharcodeToRune mcr enc c = (r, true)) as Hiff.
  { intros c. rewrite (Charcodes_elem order enc c Hr). split.
    - intros Hin. pose proof (in_decode_le enc c Hin) as Hle.
      apply (in_decode_lookup enc c Hle) in Hin as [r Hb].
      exists r. by apply CharcodeToRune_ok.
    - intros [r H]. apply CharcodeToRune_ok in H as [Hle Hb].
      apply (in_decode_lookup enc c Hle). by exists r. }
  split; [exact Hiff|]. split; [|split].
  - intros c r H. by apply CharcodeToRune_ok in H.
  - intros c Hc. destruct (CharcodeToRune mcr enc c) as [r [|]] eqn:E; [|done].
    exfalso. apply Hc, Hiff. by exists r.
  - rewrite (Charcodes_perm order enc Hr). rewrite !length_fmap.
    apply length_map_to_list.
Qed.

Lemma CharcodeToRune_Charcodes_witness :
  0x27%N ∈ Charcodes (map_to_list (decode StandardEncoding)) StandardEncoding
  <-> exists r, CharcodeToRune MissingCodeRune_value StandardEncoding 0x27 = (r, true).
Proof.
  refine (proj1 (CharcodeToRune_Charcodes MissingCodeRune_value
                   (map_to_list (decode StandardEncoding)) StandardEncoding _) 0x27%N).
  unfold range_of. reflexivity.
Defined.

(** ** The inverse map, both ways *)

Lemma invert_complete (order : list (byte * rune)) (e : gmap Z byte) (r : rune) :
  is_Some (foldl (fun (e : gmap Z byte) '(b, r) => <[r := b]> e) e order !! r) <->
  is_Some (e !! r) \/ exists b, (b, r) ∈ order.
Proof.
  revert e. induction order as [|[b' r'] order IH]; intros e; simpl.
  - split; [by left|]. intros [H|[b H]]; [done|]. by apply elem_of_nil in H.
  - rewrite IH. destruct (decide (r' = r)) as [->|Hne].
    + rewrite lookup_insert_eq. split.
      * intros _. right. exists b'. by left.
      * intros _. left. by eexists.
    + rewrite lookup_insert_ne by done. split.
      * intros [H|[b H]]; [by left|]. right. exists b. by right.
      * intros [H|[b H]]; [by left|]. right. exists b.
        apply elem_of_cons in H as [[= -> ->]|H]; [done|exact H].
Qed.

Lemma encode_complete (order : list (byte * rune)) (name : string)
    (encoding : gmap byte Z) (r : rune) :
  range_of encoding order ->
  is_Some (encode (newSimpleEncoderFromMap order name encoding) !! r) <->
  exists b, encoding !! b = Some r.
Proof.
  intros Hr. simpl. rewrite invert_complete. unfold range_of in Hr. split.
  - intros [H|[b H]].
    + rewrite lookup_empty in H. by destruct H.
    + exists b. rewrite Hr in H. by apply elem_of_map_to_list in H.
  - intros [b H]. right. exists b. rewrite Hr. by apply elem_of_map_to_list.
Qed.

(** X2: in an encoder built by [newSimpleEncoderFromMap], whatever the
    order of the range loop, [RuneToCharcode] accepts exactly the runes
    that some code decodes to; the code it returns is at most 255 and
    decodes to the rune again, and a rune that no code decodes to gives
    code 0 and false. *)
Theorem RuneToCharcode_domain (mcr : rune) (order : list (byte * rune))
    (name : string) (encoding : gmap byte Z) (r : rune) :
  range_of encoding order ->
  let enc := newSimpleEncoderFromMap order name encoding in
  (snd (RuneToCharcode enc r) = true <->
   exists c : CharCode, CharcodeToRune mcr enc c = (r, true))
  /\ (forall c : CharCode,
        CharcodeToRune mcr enc c = (r, true) ->
        exists c' : CharCode,
          RuneToCharcode enc r = (c', true) /\ (c' <= 255)%N
          /\ CharcodeToRune mcr enc c' = (r, true))
  /\ ((forall c : CharCode, CharcodeToRune mcr enc c <> (r, true)) ->
      RuneToCharcode enc r = (0%N, false)).
Proof.
  intros Hr enc.
  assert (forall b, encode enc !! r = Some b ->
            RuneToCharcode enc r = (CharCode_of_byte b, true)
            /\ CharcodeToRune mcr enc (CharCode_of_byte b) = (r, true)) as Hsome.
  { intros b Hb. split.
    - unfold RuneToCharcode. by rewrite Hb.
    - apply CharcodeToRune_byte. simpl. by apply (encode_sound order name). }
  assert (forall c, CharcodeToRune mcr enc c = (r, true) -> is_Some (encode enc !! r))
    as Hdom.
  { intros c H. apply CharcodeToRune_ok in H as [_ H].
    apply (encode_complete order name encoding r Hr). by eexists. }
  split; [|split].
  - split.
    + unfold RuneToCharcode. destruct (encode enc !! r) as [b|] eqn:Hb; [|done].
      intros _. exists (CharCode_of_byte b). by apply Hsome.
    + intros [c H]. destruct (Hdom c H) as [b Hb].
      destruct (Hsome b Hb) as [-> _]. done.
  - intros c H. destruct (Hdom c H) as [b Hb]. destruct (Hsome b Hb) as [H1 H2].
    exists (CharCode_of_byte b). split; [done|]. split; [|done].
    pose proof (byte_to_N_lt b). unfold CharCode_of_byte. lia.
  - intros Hno. unfold RuneToCharcode.
    destruct (encode enc !! r) as [b|] eqn:Hb; [|done].
    destruct (Hsome b eq_refl) as [_ H]. by apply Hno in H.
Qed.

Lemma RuneToCharcode_domain_witness :
  snd (RuneToCharcode MacRoman 0xC4) = true <->
  exists c : CharCode, CharcodeToRune MissingCodeRune_value MacRoman c = (0xC4, true).
Proof.
  apply (RuneToCharcode_domain MissingCodeRune_value
           (map_to_list (list_to_map (M := gmap byte Z) MacRomanEncoding_table))
           "MacRomanEncoding" (list_to_map MacRomanEncoding_table) 0xC4).
  unfold range_of. reflexivity.
Defined.

Lemma encode_inverse (order : list (byte * rune)) (name : string)
    (encoding : gmap byte Z) (r : rune) (b : byte) :
  range_of encoding order -> injective_map encoding ->
  encode (newSimpleEncoderFromMap order name encoding) !! r = Some b
  <-> encoding !! b = Some r.
Proof.
  intros Hr Hinj. split; [by apply encode_sound|].
  intros Hb.
  destruct (proj2 (encode_complete order name encoding r Hr)) as [b' Hb'];
    [by exists b|].
  pose proof (encode_sound order name encoding r b' Hr Hb') as Hb2.
  by rewrite (Hinj b b' r Hb Hb2).
Qed.

Lemma injective_table_map (table : list (byte * rune)) :
  injective_table table = true -> injective_map (list_to_map table).
Proof.
  intros H b b' r Hb Hb'.
  apply elem_of_list_to_map_2, list_elem_of_In in Hb, Hb'.
  unfold injective_table in H. rewrite forallb_forall in H.
  specialize (H _ Hb). simpl in H. rewrite forallb_forall in H.
  specialize (H _ Hb'). simpl in H. rewrite Z.eqb_refl in H. simpl in H.
  by apply Byte.byte_dec_bl.
Qed.

Lemma MacRoman_injective : injective_map (list_to_map MacRomanEncoding_table).
Proof. apply injective_table_map. vm_compute. reflexivity. Qed.

Lemma MacExpert_injective : injective_map (list_to_map MacExpertEncoding_table).
Proof. apply injective_table_map. vm_compute. reflexivity. Qed.

(** X3: when no two codes of the table decode to the same rune, the
    encoder built by [newSimpleEncoderFromMap] is the exact inverse of the
    decoder, [RuneToCharcode] returning [c] for [r] exactly when
    [CharcodeToRune] returns [r] for [c], and the encode map does not
    depend on the order of the range loop. *)
Theorem RuneToCharcode_inverse (mcr : rune) (order order' : list (byte * rune))
    (name : string) (encoding : gmap byte Z) :
  range_of encoding order -> range_of encoding order' -> injective_map encoding ->
  (forall (r : rune) (c : CharCode),
     RuneToCharcode (newSimpleEncoderFromMap order name encoding) r = (c, true)
     <-> CharcodeToRune mcr (newSimpleEncoderFromMap order name encoding) c = (r, true))
  /\ encode (newSimpleEncoderFromMap order' name encoding)
     = encode (newSimpleEncoderFromMap order name encoding).
Proof.
  intros Hr Hr' Hinj. split.
  - intros r c. rewrite RuneToCharcode_ok, CharcodeToRune_ok. split.
    + intros (b & Hb & ->). apply (encode_inverse order name) in Hb; [|done..].
      unfold CharCode_of_byte. rewrite byte_of_N_to_N.
      pose proof (byte_to_N_lt b). split; [lia|done].
    + intros [Hle Hb]. exists (byte_of_N c). split.
      * by apply (encode_inverse order name).
      * unfold CharCode_of_byte. rewrite byte_to_N_of_N_small; [done|lia].
  - apply map_eq. intros r. apply option_eq. intros b.
    rewrite (encode_inverse order' name encoding r b Hr' Hinj).
    by rewrite (encode_inverse order name encoding r b Hr Hinj).
Qed.

Lemma RuneToCharcode_inverse_witness :
  RuneToCharcode MacRoman 0xC4 = (0x80%N, true)
  <-> CharcodeToRune MissingCodeRune_value MacRoman 0x80 = (0xC4, true).
Proof.
  refine (proj1 (RuneToCharcode_inverse MissingCodeRune_value
                   (map_to_list (list_to_map (M := gmap byte Z) MacRomanEncoding_table))
                   (map_to_list (list_to_map (M := gmap byte Z) MacRomanEncoding_table))
                   "MacRomanEncoding" (list_to_map MacRomanEncoding_table) _ _ _)
                0xC4 0x80%N).
  - unfold range_of. reflexivity.
  - unfold range_of. reflexivity.
  - exact MacRoman_injective.
Defined.

Lemma visited_last (name : string) (encoding : gmap byte Z) (b : byte) (r : rune) :
  encoding !! b = Some r ->
  exists order : list (byte * rune),
    range_of encoding order
    /\ encode (newSimpleEncoderFromMap order name encoding) !! r = Some b.
Proof.
  intros Hb. exists (map_to_list (delete b encoding) ++ [(b, r)]). split.
  - unfold range_of. rewrite <- Permutation_cons_append.
    by apply map_to_list_delete.
  - simpl. rewrite foldl_app. simpl. apply lookup_insert_eq.
Qed.

(** X4: when two different codes of the table decode to the same rune,
    the code [RuneToCharcode] returns for that rune depends on the order
    in which the range loop of [newSimpleEncoderFromMap] visits the map:
    there is an order for which it is the first code and one for which it
    is the second. *)
Theorem RuneToCharcode_order_dependent (name : string) (encoding : gmap byte Z)
    (b1 b2 : byte) (r : rune) :
  encoding !! b1 = Some r -> encoding !! b2 = Some r -> b1 <> b2 ->
  exists o1 o2 : list (byte * rune),
    range_of encoding o1 /\ range_of encoding o2
    /\ RuneToCharcode (newSimpleEncoderFromMap o1 name encoding) r
       = (CharCode_of_byte b1, true)
    /\ RuneToCharcode (newSimpleEncoderFromMap o2 name encoding) r
       = (CharCode_of_byte b2, true)
    /\ CharCode_of_byte b1 <> CharCode_of_byte b2.
Proof.
  intros H1 H2 Hne.
  destruct (visited_last name encoding b1 r H1) as (o1 & Hr1 & He1).
  destruct (visited_last name encoding b2 r H2) as (o2 & Hr2 & He2).
  exists o1, o2. split; [done|]. split; [done|].
  split; [|split].
  - apply RuneToCharcode_ok. by exists b1.
  - apply RuneToCharcode_ok. by exists b2.
  - intros H. by apply byte_to_N_inj in H.
Qed.

Lemma RuneToCharcode_order_dependent_witness :
  exists o1 o2 : list (byte * rune),
    range_of (decode StandardEncoding) o1 /\ range_of (decode StandardEncoding) o2
    /\ RuneToCharcode
         (newSimpleEncoderFromMap o1 "StandardEncoding" (decode StandardEncoding)) 0x60
       = (0x60%N, true)
    /\ RuneToCharcode
         (newSimpleEncoderFromMap o2 "StandardEncoding" (decode StandardEncoding)) 0x60
       = (0xc1%N, true)
    /\ 0x60%N <> 0xc1%N.
Proof.
  apply (RuneToCharcode_order_dependent "StandardEncoding"
           (list_to_map StandardEncoding_table) Byte.x60 Byte.xc1 0x60).
  - vm_compute. reflexivity.
  - vm_compute. reflexivity.
  - discriminate.
Defined.

(** ** The constructor by name and the registry *)

Lemma simpleEncodings_None (name : string) :
  simpleEncodings !! name = None <->
  ~ (name = "MacExpertEncoding"%string \/ name = "MacRomanEncoding"%string
     \/ name = "PdfDocEncoding"%string \/ name = "StandardEncoding"%string).
Proof.
  unfold simpleEncodings. cbn [list_to_map foldr uncurry fst snd].
  rewrite !lookup_insert_None, lookup_empty. split.
  - intros H Hn. destruct Hn as [Hn|[Hn|[Hn|Hn]]]; subst name; tauto.
  - intros H. repeat split; try done; intros E; apply H; rewrite <- E; tauto.
Qed.

Lemma no_differences (enc enc' : simpleEncoding) :
  (if negb (size (∅ : gmap N string) =? 0)%nat then enc' else enc) = enc.
Proof. by rewrite map_size_empty. Qed.

(** X5: [NewSimpleTextEncoder] fails, with the error unsupported font
    encoding, exactly when the name is neither registered nor one of the
    four names of [simpleEncodings]; a registered constructor is used
    before the tables, and without differences the result is the
    registered encoder, or else the encoder built from the table of that
    name with the name as its base name. *)
Theorem NewSimpleTextEncoder_lookup (g : GlyphName -> option rune)
    (simple : gmap string simpleEncoding) (o_base : list (byte * rune))
    (o_diff : list (CharCode * GlyphName)) (o_inv : list (byte * rune))
    (name : string) (differences : gmap N string) :
  (NewSimpleTextEncoder g simple o_base o_diff o_inv name differences
   = Err "unsupported font encoding"
   <-> simple !! name = None
       /\ ~ (name = "MacExpertEncoding"%string \/ name = "MacRomanEncoding"%string
             \/ name = "PdfDocEncoding"%string \/ name = "StandardEncoding"%string))
  /\ (forall msg : string,
        NewSimpleTextEncoder g simple o_base o_diff o_inv name differences = Err msg ->
        msg = "unsupported font encoding"%string)
  /\ (forall fnc : simpleEncoding,
        simple !! name = Some fnc ->
        NewSimpleTextEncoder g simple o_base o_diff o_inv name ∅ = Ok fnc)
  /\ (forall table : gmap byte Z,
        simple !! name = None -> simpleEncodings !! name = Some table ->
        NewSimpleTextEncoder g simple o_base o_diff o_inv name ∅
        = Ok (newSimpleEncoderFromMap o_base name table)
        /\ BaseName (newSimpleEncoderFromMap o_base name table) = name).
Proof.
  rewrite <- simpleEncodings_None. unfold NewSimpleTextEncoder.
  destruct (simple !! name) as [fnc|] eqn:Hs.
  - split; [|split; [|split]].
    + split; [discriminate|]. intros [H _]. discriminate.
    + discriminate.
    + intros fnc' [= <-]. by rewrite no_differences.
    + discriminate.
  - destruct (simpleEncodings !! name) as [table|] eqn:Ht.
    + split; [|split; [|split]].
      * split; [discriminate|]. intros [_ H]. discriminate.
      * discriminate.
      * discriminate.
      * intros table' _ [= <-]. by rewrite no_differences.
    + split; [|split; [|split]].
      * done.
      * by intros msg [= <-].
      * discriminate.
      * discriminate.
Qed.

Lemma NewSimpleTextEncoder_lookup_witness :
  NewSimpleTextEncoder sampleGlyphToRune ∅ [] [] [] "WinAnsiEncoding" ∅
  = Err "unsupported font encoding".
Proof.
  apply (NewSimpleTextEncoder_lookup sampleGlyphToRune ∅ [] [] [] "WinAnsiEncoding" ∅).
  split; [apply lookup_empty|].
  intros [H | [H | [H | H]]]; discriminate.
Defined.

(** X6: [RegisterSimpleEncoding] panics exactly when the name is already
    registered; otherwise [NewSimpleTextEncoder] then answers that name
    with the registered encoder, also when the name is one of the tables,
    answers every other name as before, and registering the name once
    more panics. *)
Theorem RegisterSimpleEncoding_lookup (simple : gmap string simpleEncoding)
    (name : string) (fnc : simpleEncoding) :
  (RegisterSimpleEncoding simple name fnc = Panics <-> is_Some (simple !! name))
  /\ (forall simple' : gmap string simpleEncoding,
        RegisterSimpleEncoding simple name fnc = Returns simple' ->
        (forall g o_base o_diff o_inv,
           NewSimpleTextEncoder g simple' o_base o_diff o_inv name ∅ = Ok fnc)
        /\ (forall g o_base o_diff o_inv (name' : string) (differences : gmap N string),
              name' <> name ->
              NewSimpleTextEncoder g simple' o_base o_diff o_inv name' differences
              = NewSimpleTextEncoder g simple o_base o_diff o_inv name' differences)
        /\ (forall fnc' : simpleEncoding,
              RegisterSimpleEncoding simple' name fnc' = Panics)).
Proof.
  unfold RegisterSimpleEncoding. destruct (simple !! name) as [old|] eqn:Hs.
  - split; [|discriminate]. split; [by eexists|done].
  - split.
    + split; [discriminate|]. intros [x H]. discriminate.
    + intros simple' [= <-]. split; [|split].
      * intros. unfold NewSimpleTextEncoder. rewrite lookup_insert_eq.
        by rewrite no_differences.
      * intros. unfold NewSimpleTextEncoder. by rewrite lookup_insert_ne.
      * intros. by rewrite lookup_insert_eq.
Qed.

Lemma RegisterSimpleEncoding_lookup_witness :
  NewSimpleTextEncoder sampleGlyphToRune
    (<["MacRomanEncoding"%string := StandardEncoding]> ∅) [] [] []
    "MacRomanEncoding" ∅
  = Ok StandardEncoding.
Proof.
  refine (proj1 (proj2 (RegisterSimpleEncoding_lookup ∅ "MacRomanEncoding"
                          StandardEncoding)
                   (<["MacRomanEncoding"%string := StandardEncoding]> ∅) _)
                sampleGlyphToRune [] [] []).
  unfold RegisterSimpleEncoding. by rewrite lookup_empty.
Defined.

(** ** Glyph names *)

(** X7: [GlyphToCharcode] answers a glyph name that the glyph list does
    not have with the code of [MissingCodeRune] and false; a code it
    returns with true is one that [CharcodeToRune] maps to the rune of the
    glyph, and [CharcodeToGlyph] on that code is the glyph of that rune;
    [CharcodeToGlyph] answers a code that [CharcodeToRune] rejects with
    the empty name and false. *)
Theorem GlyphToCharcode_CharcodeToGlyph (mcr : rune) (g : GlyphName -> option rune)
    (rtg : rune -> GlyphName * bool) (order : list (byte * rune)) (name : string)
    (encoding : gmap byte Z) :
  range_of encoding order ->
  let enc := newSimpleEncoderFromMap order name encoding in
  (forall glyph : GlyphName,
     g glyph = None -> GlyphToCharcode mcr g enc glyph = (Z.to_N mcr, false))
  /\ (forall (glyph : GlyphName) (c : CharCode),
        GlyphToCharcode mcr g enc glyph = (c, true) ->
        exists r : rune,
          g glyph = Some r /\ CharcodeToRune mcr enc c = (r, true)
          /\ CharcodeToGlyph mcr rtg enc c = rtg r)
  /\ (forall (glyph : GlyphName) (r : rune),
        g glyph = Some r -> (exists c, CharcodeToRune mcr enc c = (r, true)) ->
        snd (GlyphToCharcode mcr g enc glyph) = true)
  /\ (forall c : CharCode,
        snd (CharcodeToRune mcr enc c) = false ->
        CharcodeToGlyph mcr rtg enc c = (""%string, false)).
Proof.
  intros Hr enc. split; [|split; [|split]].
  - intros glyph Hg. unfold GlyphToCharcode. by rewrite Hg.
  - intros glyph c. unfold GlyphToCharcode.
    destruct (g glyph) as [r|] eqn:Hg; [|discriminate].
    intros H. exists r. split; [done|].
    apply RuneToCharcode_ok in H as (b & Hb & ->).
    apply (encode_sound order name encoding r b Hr) in Hb.
    assert (CharcodeToRune mcr enc (CharCode_of_byte b) = (r, true)) as H
      by (by apply CharcodeToRune_byte).
    split; [exact H|]. unfold CharcodeToGlyph. by rewrite H.
  - intros glyph r Hg [c Hc]. unfold GlyphToCharcode. rewrite Hg.
    apply CharcodeToRune_ok in Hc as [_ Hc].
    destruct (proj2 (encode_complete order name encoding r Hr)) as [b Hb];
      [by eexists|].
    unfold RuneToCharcode. fold enc in Hb |- *. by rewrite Hb.
  - intros c. unfold CharcodeToGlyph.
    destruct (CharcodeToRune mcr enc c) as [r ok]. simpl. by intros ->.
Qed.

Lemma GlyphToCharcode_CharcodeToGlyph_witness :
  exists r : rune,
    sampleGlyphToRune "Adieresis" = Some r
    /\ CharcodeToRune MissingCodeRune_value MacRoman 0x80 = (r, true)
    /\ CharcodeToGlyph MissingCodeRune_value sampleRuneToGlyph MacRoman 0x80
       = sampleRuneToGlyph r.
Proof.
  refine (proj1 (proj2 (GlyphToCharcode_CharcodeToGlyph MissingCodeRune_value
                          sampleGlyphToRune sampleRuneToGlyph
                          (map_to_list (list_to_map (M := gmap byte Z)
                                          MacRomanEncoding_table))
                          "MacRomanEncoding" (list_to_map MacRomanEncoding_table) _))
                "Adieresis"%string 0x80%N _).
  - unfold range_of. reflexivity.
  - vm_compute. reflexivity.
Defined.

(** ** One call of the decoder *)

Lemma decode_text_length (mcr : rune) (m : gmap byte Z) (src : list byte) :
  (length src <= length (decode_text mcr m src) <= utf8.UTFMax * length src)%nat.
Proof.
  induction src as [|b src IH]; [simpl; lia|].
  rewrite decode_text_cons, length_app.
  pose proof (utf8_bytes_length (decoded_rune mcr m b)) as H.
  unfold utf8.UTFMax in *. simpl length. lia.
Qed.

(** X8: a call of the decoder's [Transform] that returns has consumed a
    prefix of the source and written the UTF-8 of the runes of exactly
    those bytes, between one and [utf8.UTFMax] bytes for each; the
    destination keeps its length and its bytes beyond [nDst]; the error is
    never [ErrShortSrc], it is nil exactly when the whole source was
    consumed, and [ErrShortDst] leaves less than [utf8.UTFMax] bytes of
    room; [atEOF] plays no part. *)
Theorem simpleDecoder_Transform_bounds (mcr : rune) (m : gmap byte Z)
    (dst src : list byte) (atEOF : bool) (res : TransformResult) :
  simpleDecoder_Transform mcr m dst src atEOF = Returns res ->
  (nSrc res <= length src)%nat
  /\ (nSrc res <= nDst res <= utf8.UTFMax * nSrc res)%nat
  /\ (nDst res <= length dst)%nat
  /\ take (nDst res) (buf res) = decode_text mcr m (take (nSrc res) src)
  /\ drop (nDst res) (buf res) = drop (nDst res) dst
  /\ length (buf res) = length dst
  /\ err res <> ErrShortSrc
  /\ (err res = ErrNil <-> nSrc res = length src)
  /\ (err res = ErrShortDst -> (length dst - nDst res < utf8.UTFMax)%nat)
  /\ simpleDecoder_Transform mcr m dst src (negb atEOF) = Returns res.
Proof.
  intros H. unfold simpleDecoder_Transform in *.
  destruct (simpleDecoder_loop_returns mcr m src [] dst 0 0 res H)
    as (k & Hk & HnS & HnD & Hbuf & Hlen & Herr).
  simpl in HnS, HnD, Hbuf. rewrite HnS, HnD, Hbuf.
  pose proof (decode_text_length mcr m (take k src)) as Hbounds.
  rewrite length_take, Nat.min_l in Hbounds by lia.
  split; [done|]. split; [lia|]. split; [done|].
  split; [by rewrite take_app_length|].
  split; [by rewrite drop_app_length|].
  split; [rewrite length_app, length_drop; lia|].
  split; [destruct Herr as [[-> _]|[-> _]]; discriminate|].
  split; [|split; [|done]].
  - destruct Herr as [[-> ->]|(-> & b & Hb & _)]; [done|].
    apply lookup_lt_Some in Hb. split; [discriminate|lia].
  - destruct Herr as [[-> _]|(_ & b & _ & Hlt)]; [discriminate|]. intros _.
    pose proof (RuneLen_le_bytes (decoded_rune mcr m b)).
    pose proof (utf8_bytes_length (decoded_rune mcr m b)). lia.
Qed.

Lemma simpleDecoder_Transform_bounds_witness :
  take 2 [Byte.xc3; Byte.x84]
  = decode_text MissingCodeRune_value (decode MacRoman) (take 1 [Byte.x80; Byte.x81]).
Proof.
  apply (simpleDecoder_Transform_bounds MissingCodeRune_value (decode MacRoman)
           [Byte.x00; Byte.x00] [Byte.x80; Byte.x81] false
           {| buf := [Byte.xc3; Byte.x84]; nDst := 2; nSrc := 1; err := ErrShortDst |}).
  unfold simpleDecoder_Transform.
  rewrite simpleDecoder_loop_fits by (rewrite MacRoman_x80; vm_compute; lia).
  rewrite simpleDecoder_loop_short by (rewrite MacRoman_x80, MacRoman_x81; vm_compute; reflexivity).
  rewrite MacRoman_x80. reflexivity.
Defined.

(** ** Runes that are not scalar values *)

Lemma utf8_bytes_invalid (r : rune) :
  int32 r -> ~ valid_rune r -> utf8_bytes r = [Byte.xef; Byte.xbf; Byte.xbd].
Proof.
  intros Hr Hv.
  rewrite (utf8_bytes_store r
             [Z.lor utf8.t3 (utf8.to_byte (Z.shiftr utf8.RuneError 12));
              Z.lor utf8.tx (Z.land (utf8.to_byte (Z.shiftr utf8.RuneError 6)) utf8.maskx);
              Z.lor utf8.tx (Z.land (utf8.to_byte utf8.RuneError) utf8.maskx)]).
  - vm_compute. reflexivity.
  - simpl. lia.
  - intros p. unfold utf8.EncodeRune.
    unfold int32 in Hr. unfold valid_rune in Hv.
    unfold utf8.MaxRune, utf8.surrogateMin, utf8.surrogateMax,
      utf8.rune1Max, utf8.rune2Max, utf8.rune3Max in *.
    assert (r < 0 /\ r mod 2 ^ 32 = r + 2 ^ 32 \/ 0 <= r /\ r mod 2 ^ 32 = r) as Hmod.
    { destruct (Z.lt_ge_cases r 0); [left|right]; (split; [lia|]).
      - symmetry. apply (Z.mod_unique_pos _ _ (-1)); lia.
      - apply Z.mod_small. lia. }
    destruct Hmod as [[Hs ->]|[Hs ->]].
    all: repeat match goal with
           | |- context [?x <=? ?y] => destruct (Z.leb_spec x y); try lia
           | |- context [?x <? ?y] => destruct (Z.ltb_spec x y); try lia
           end; simpl; try reflexivity.
Qed.

Lemma RuneLen_invalid (r : rune) : ~ valid_rune r -> utf8.RuneLen r = -1.
Proof.
  unfold valid_rune, utf8.RuneLen, utf8.MaxRune, utf8.surrogateMin, utf8.surrogateMax,
    utf8.rune1Max, utf8.rune2Max, utf8.rune3Max.
  utf8_tests; lia.
Qed.

Lemma simpleDecoder_loop_panics_iff (mcr : rune) (m : gmap byte Z) (src : list byte) :
  (forall b, int32 (decoded_rune mcr m b)) ->
  forall (done dst : list byte) (nDst0 nSrc0 : nat),
    simpleDecoder_loop mcr m done dst src nDst0 nSrc0 = Panics <->
    exists (k : nat) (b : byte),
      src !! k = Some b /\ ~ valid_rune (decoded_rune mcr m b)
      /\ (length (decode_text mcr m (take k src)) <= length dst
          < length (decode_text mcr m (take k src)) + 3)%nat.
Proof.
  intros H32. induction src as [|b src IH]; intros done dst nDst0 nSrc0.
  - simpl. split; [discriminate|]. intros (k & b & Hb & _). by destruct k.
  - pose proof (RuneLen_le_bytes (decoded_rune mcr m b)) as Hle.
    pose proof (valid_rune_RuneLen (decoded_rune mcr m b)) as Hvalid.
    destruct (Z.ltb_spec (Z.of_nat (length dst)) (utf8.RuneLen (decoded_rune mcr m b)))
      as [Hs|Hs].
    + rewrite simpleDecoder_loop_short by done. split; [discriminate|].
      intros (k & b' & Hb & Hv & Hlen). exfalso. destruct k as [|k].
      * simpl in Hb. injection Hb as <-. apply Hv, Hvalid. lia.
      * rewrite firstn_cons, decode_text_cons, length_app in Hlen. lia.
    + destruct (Nat.leb_spec (length (utf8_bytes (decoded_rune mcr m b))) (length dst))
        as [Hf|Hf].
      * rewrite simpleDecoder_loop_fits by done. rewrite IH. split.
        -- intros (k & b' & Hb & Hv & Hlen). exists (S k), b'.
           rewrite firstn_cons, decode_text_cons, length_app.
           rewrite length_drop in Hlen. repeat split; [done|done|lia|lia].
        -- intros (k & b' & Hb & Hv & Hlen). destruct k as [|k].
           ++ simpl in Hb. injection Hb as <-. exfalso.
              rewrite (utf8_bytes_invalid _ (H32 b) Hv) in Hf.
              simpl in Hf, Hlen. lia.
           ++ exists k, b'. rewrite firstn_cons, decode_text_cons, length_app in Hlen.
              rewrite length_drop. repeat split; [done|done|lia|lia].
      * rewrite simpleDecoder_loop_panics by (done || lia). split; [intros _|done].
        assert (~ valid_rune (decoded_rune mcr m b)) as Hv.
        { intros Hv. rewrite (RuneLen_bytes _ Hv) in Hs. lia. }
        exists 0%nat, b. rewrite (utf8_bytes_invalid _ (H32 b) Hv) in Hf.
        simpl in Hf |- *. repeat split; [done|lia|lia].
Qed.

(** X9: the decoder's [Transform] panics exactly when it reaches a byte
    whose rune is not a Unicode scalar value with less than three bytes of
    room left: for such a rune [utf8.RuneLen] is -1, the test for a short
    destination lets it pass, and [utf8.EncodeRune] writes the three bytes
    of U+FFFD. With three bytes of room the call goes on, and a table of
    scalar values never panics. *)
Theorem simpleDecoder_Transform_panics (mcr : rune) (m : gmap byte Z)
    (dst src : list byte) (atEOF : bool) :
  (forall b, int32 (decoded_rune mcr m b)) ->
  (simpleDecoder_Transform mcr m dst src atEOF = Panics <->
   exists (k : nat) (b : byte),
     src !! k = Some b /\ ~ valid_rune (decoded_rune mcr m b)
     /\ (length (decode_text mcr m (take k src)) <= length dst
         < length (decode_text mcr m (take k src)) + 3)%nat)
  /\ (forall b, ~ valid_rune (decoded_rune mcr m b) ->
        utf8.RuneLen (decoded_rune mcr m b) = -1
        /\ utf8_bytes (decoded_rune mcr m b) = [Byte.xef; Byte.xbf; Byte.xbd])
  /\ ((forall b, valid_rune (decoded_rune mcr m b)) ->
      exists res, simpleDecoder_Transform mcr m dst src atEOF = Returns res).
Proof.
  intros H32. split; [|split].
  - unfold simpleDecoder_Transform. by apply simpleDecoder_loop_panics_iff.
  - intros b Hv. split; [by apply RuneLen_invalid|by apply utf8_bytes_invalid].
  - intros Hv. by apply simpleDecoder_loop_total.
Qed.

Lemma surrogateTable_int32 (b : byte) :
  int32 (decoded_rune MissingCodeRune_value surrogateTable b).
Proof.
  unfold decoded_rune, surrogateTable, int32, MissingCodeRune_value.
  destruct (decide (b = Byte.x00)) as [->|Hne].
  - rewrite lookup_singleton_eq. lia.
  - rewrite lookup_singleton_ne by done. lia.
Qed.

Lemma simpleDecoder_Transform_panics_witness :
  simpleDecoder_Transform MissingCodeRune_value surrogateTable
    [Byte.x00; Byte.x00] [Byte.x00] true = Panics.
Proof.
  apply (simpleDecoder_Transform_panics MissingCodeRune_value surrogateTable
           [Byte.x00; Byte.x00] [Byte.x00] true surrogateTable_int32).
  exists 0%nat, Byte.x00. split; [reflexivity|]. split.
  - unfold decoded_rune, surrogateTable. rewrite lookup_singleton_eq.
    unfold valid_rune, utf8.surrogateMin, utf8.surrogateMax. lia.
  - simpl. lia.
Defined.

(** ** Chunks and a rune that is not a scalar value *)

Lemma surrogateTable_x00 (mcr : rune) : decoded_rune mcr surrogateTable Byte.x00 = 0xD800.
Proof. unfold decoded_rune, surrogateTable. by rewrite lookup_singleton_eq. Qed.

Lemma surrogate_not_valid : ~ valid_rune 0xD800.
Proof. unfold valid_rune, utf8.surrogateMin, utf8.surrogateMax. lia. Qed.

Lemma surrogate_bytes : utf8_bytes 0xD800 = [Byte.xef; Byte.xbf; Byte.xbd].
Proof.
  apply utf8_bytes_invalid; [unfold int32; lia|exact surrogate_not_valid].
Qed.

Lemma surrogate_two_bytes_panic (dst : list byte) (atEOF : bool) :
  (length dst <= 5)%nat ->
  simpleDecoder_Transform MissingCodeRune_value surrogateTable dst
    [Byte.x00; Byte.x00] atEOF = Panics.
Proof.
  intros Hlen. unfold simpleDecoder_Transform.
  apply (simpleDecoder_loop_panics_iff _ _ _ surrogateTable_int32).
  destruct (Nat.ltb_spec (length dst) 3) as [Hs|Hs].
  - exists 0%nat, Byte.x00. split; [reflexivity|].
    rewrite surrogateTable_x00. split; [exact surrogate_not_valid|]. simpl. lia.
  - exists 1%nat, Byte.x00. split; [reflexivity|].
    rewrite surrogateTable_x00. split; [exact surrogate_not_valid|].
    cbn [take]. rewrite decode_text_cons, surrogateTable_x00, surrogate_bytes.
    simpl. lia.
Qed.

(** C3: the claim fails for the decoder on a [simpleEncoding] whose table
    has a rune that is not a scalar value. With the table of code 0x00 at
    U+D800 and the source 00 00 00, one call with nine bytes of room or
    more consumes the three bytes, writes EF BF BD three times and returns
    nil. A call on 00 00 with five bytes of room or less panics:
    [utf8.RuneLen] is -1 for the rune, the test for a short destination
    lets it pass and [utf8.EncodeRune] indexes beyond the destination. So
    the run on the chunks 00 00 and 00 gives no output, whatever
    destination buffers of at most five bytes it is given, [utf8.UTFMax]
    bytes among them. *)
Theorem chunked_decoder_panics_on_surrogate :
  (forall (dst : list byte) (atEOF : bool),
     (9 <= length dst)%nat ->
     simpleDecoder_Transform MissingCodeRune_value (decode surrogateEncoding) dst
       [Byte.x00; Byte.x00; Byte.x00] atEOF
     = Returns {| buf := [Byte.xef; Byte.xbf; Byte.xbd; Byte.xef; Byte.xbf; Byte.xbd;
                          Byte.xef; Byte.xbf; Byte.xbd] ++ drop 9 dst;
                  nDst := 9; nSrc := 3; err := ErrNil |})
  /\ (forall (dst : list byte) (atEOF : bool),
        (length dst <= 5)%nat ->
        simpleDecoder_Transform MissingCodeRune_value (decode surrogateEncoding) dst
          [Byte.x00; Byte.x00] atEOF = Panics)
  /\ (forall dsts : list (list byte),
        Forall (fun dst => (length dst <= 5)%nat) dsts ->
        transformChunks (decoderOf MissingCodeRune_value surrogateEncoding) dsts
          [[Byte.x00; Byte.x00]; [Byte.x00]] = None)
  /\ transformChunks (decoderOf MissingCodeRune_value surrogateEncoding)
       (repeat (repeat Byte.x00 utf8.UTFMax) 8) [[Byte.x00; Byte.x00]; [Byte.x00]]
     = None
  /\ ~ valid_rune (decoded_rune MissingCodeRune_value (decode surrogateEncoding) Byte.x00).
Proof.
  change (decode surrogateEncoding) with surrogateTable.
  assert (forall dsts : list (list byte),
            Forall (fun dst => (length dst <= 5)%nat) dsts ->
            transformChunks (decoderOf MissingCodeRune_value surrogateEncoding) dsts
              [[Byte.x00; Byte.x00]; [Byte.x00]] = None) as Hchunks.
  { intros dsts Hdsts. unfold transformChunks.
    destruct dsts as [|d0 dsts]; [reflexivity|].
    apply Forall_cons in Hdsts as [_ Hdsts].
    cbn [resume]. unfold decoderOf at 1.
    change (decode surrogateEncoding) with surrogateTable.
    unfold simpleDecoder_Transform. cbn [simpleDecoder_loop returned err nSrc nDst buf].
    cbn [drop app]. destruct dsts as [|d1 dsts]; [reflexivity|].
    apply Forall_cons in Hdsts as [Hd1 _].
    cbn [resume]. unfold decoderOf at 1.
    change (decode surrogateEncoding) with surrogateTable.
    by rewrite (surrogate_two_bytes_panic d1 false Hd1). }
  split; [|split; [|split; [|split]]].
  - intros dst atEOF Hlen. unfold simpleDecoder_Transform.
    assert (decode_text MissingCodeRune_value surrogateTable
              [Byte.x00; Byte.x00; Byte.x00]
            = [Byte.xef; Byte.xbf; Byte.xbd; Byte.xef; Byte.xbf; Byte.xbd;
               Byte.xef; Byte.xbf; Byte.xbd]) as Htext.
    { rewrite !decode_text_cons, surrogateTable_x00, surrogate_bytes. reflexivity. }
    rewrite simpleDecoder_loop_whole by (rewrite Htext; simpl; lia).
    rewrite Htext. reflexivity.
  - intros dst atEOF. apply surrogate_two_bytes_panic.
  - exact Hchunks.
  - apply Hchunks. apply Forall_forall. intros dst Hin.
    apply list_elem_of_In, repeat_spec in Hin. subst dst. rewrite repeat_length.
    unfold utf8.UTFMax. lia.
  - rewrite surrogateTable_x00. exact surrogate_not_valid.
Qed.

(** ** The tables of [simpleEncodings] *)

Lemma valid_runeb_spec (r : rune) : valid_runeb r = true <-> valid_rune r.
Proof.
  unfold valid_runeb, valid_rune.
  rewrite !andb_true_iff, negb_true_iff, andb_false_iff, !Z.leb_le, !Z.leb_gt.
  unfold utf8.MaxRune, utf8.surrogateMin, utf8.surrogateMax. lia.
Qed.

Lemma simpleEncodings_Some (name : string) (table : gmap byte Z) :
  simpleEncodings !! name = Some table ->
  table = list_to_map MacExpertEncoding_table
  \/ table = list_to_map MacRomanEncoding_table
  \/ table = list_to_map PdfDocEncoding_table
  \/ table = list_to_map StandardEncoding_table.
Proof.
  unfold simpleEncodings. cbn [list_to_map foldr uncurry fst snd].
  rewrite !lookup_insert_Some, lookup_empty.
  intros [[_ <-] | [_ [[_ <-] | [_ [[_ <-] | [_ [[_ <-] | [_ H]]]]]]]]; try tauto.
  discriminate.
Qed.

Lemma table_Forall (P : byte -> rune -> bool) (table : list (byte * rune))
    (b : byte) (r : rune) :
  forallb (fun '(b, r) => P b r) table = true ->
  list_to_map (M := gmap byte Z) table !! b = Some r -> P b r = true.
Proof.
  intros H Hb. apply elem_of_list_to_map_2, list_elem_of_In in Hb.
  rewrite forallb_forall in H. apply (H _ Hb).
Qed.

Lemma simpleEncodings_runes (name : string) (table : gmap byte Z) (b : byte) (r : rune) :
  simpleEncodings !! name = Some table -> table !! b = Some r ->
  valid_rune r /\ r < 0x10000 /\ r <> utf8.RuneError.
Proof.
  intros Ht Hb.
  assert (valid_runeb r && (r <? 0x10000) && negb (r =? utf8.RuneError) = true) as H.
  { apply simpleEncodings_Some in Ht as [-> | [-> | [-> | ->]]];
      refine (table_Forall
                (fun _ r => valid_runeb r && (r <? 0x10000) && negb (r =? utf8.RuneError))
                _ b r _ Hb);
      vm_compute; reflexivity. }
  rewrite !andb_true_iff, negb_true_iff, Z.ltb_lt, Z.eqb_neq, valid_runeb_spec in H.
  tauto.
Qed.

(** X10: every rune of the four tables of [simpleEncodings] is a Unicode
    scalar value below U+10000 other than U+FFFD; so, when
    [MissingCodeRune] is a scalar value, the decoder of a table never
    panics, and it writes at most three bytes for a code that the table
    has. *)
Theorem simpleEncodings_decoder_total (mcr : rune) (name : string) (table : gmap byte Z) :
  simpleEncodings !! name = Some table ->
  (forall (b : byte) (r : rune),
     table !! b = Some r ->
     valid_rune r /\ r < 0x10000 /\ r <> utf8.RuneError
     /\ (length (utf8_bytes r) <= 3)%nat)
  /\ (valid_rune mcr ->
      forall (dst src : list byte) (atEOF : bool),
      exists res, simpleDecoder_Transform mcr table dst src atEOF = Returns res).
Proof.
  intros Ht. split.
  - intros b r Hb.
    destruct (simpleEncodings_runes name table b r Ht Hb) as (Hv & Hlt & Hne).
    split; [done|]. split; [done|]. split; [done|].
    pose proof (RuneLen_bytes r Hv) as Hlen.
    assert (utf8.RuneLen r <= 3) as Hthree; [|lia].
    clear - Hlt. unfold utf8.RuneLen, utf8.MaxRune, utf8.surrogateMin, utf8.surrogateMax,
      utf8.rune1Max, utf8.rune2Max, utf8.rune3Max.
    utf8_tests; lia.
  - intros Hmcr dst src atEOF. apply simpleDecoder_loop_total.
    intros b. unfold decoded_rune. destruct (table !! b) as [r|] eqn:Hb; [|done].
    by destruct (simpleEncodings_runes name table b r Ht Hb).
Qed.

Lemma simpleEncodings_decoder_total_witness :
  exists res,
    simpleDecoder_Transform MissingCodeRune_value
      (list_to_map PdfDocEncoding_table) [Byte.x00] [Byte.x41; Byte.x42] true
    = Returns res.
Proof.
  refine (proj2 (simpleEncodings_decoder_total MissingCodeRune_value "PdfDocEncoding"
                   (list_to_map PdfDocEncoding_table) _) _
                [Byte.x00] [Byte.x41; Byte.x42] true).
  - unfold simpleEncodings. cbn [list_to_map foldr uncurry fst snd].
    rewrite lookup_insert_ne by discriminate.
    rewrite lookup_insert_ne by discriminate.
    apply lookup_insert_eq.
  - unfold valid_rune, MissingCodeRune_value, utf8.MaxRune, utf8.surrogateMin,
      utf8.surrogateMax. lia.
Defined.

(** ** One call of the encoder *)

Lemma simpleEncoder_loop_short_tail (mcr : rune) (m : gmap Z byte) (fuel : nat) :
  forall (src done dst : list byte) (atEOF : bool) (nDst0 nSrc0 : nat)
         (res : TransformResult),
    (length src <= fuel)%nat ->
    simpleEncoder_loop mcr fuel m done dst src atEOF nDst0 nSrc0 = Some res ->
    err res = ErrShortSrc ->
    exists k : nat,
      nSrc res = (nSrc0 + k)%nat /\ (k < length src)%nat
      /\ utf8.FullRune (drop k src) = false.
Proof.
  induction fuel as [|fuel IH]; intros src done dst atEOF nDst0 nSrc0 res Hfuel H He.
  - destruct src; [|simpl in Hfuel; lia].
    rewrite simpleEncoder_loop_nil in H. injection H as <-. discriminate.
  - destruct (decide (src = [])) as [->|Hne].
    { rewrite simpleEncoder_loop_nil in H. injection H as <-. discriminate. }
    assert (0 < length src)%nat as Hpos by (destruct src; [done|simpl; lia]).
    destruct (negb (utf8.FullRune src) && negb atEOF) eqn:Hc.
    { apply andb_true_iff in Hc as [Hfull Hat].
      apply negb_true_iff in Hfull, Hat. subst atEOF.
      rewrite simpleEncoder_loop_short_src in H by done. injection H as <-.
      exists 0%nat. simpl. rewrite drop_0. split; [lia|]. split; [lia|done]. }
    assert (utf8.FullRune src = true \/ atEOF = true) as Hgo.
    { apply andb_false_iff in Hc as [Hc|Hc]; apply negb_false_iff in Hc; tauto. }
    clear Hc. destruct dst as [|d dst].
    { rewrite simpleEncoder_loop_short_dst in H by done. injection H as <-.
      discriminate. }
    rewrite simpleEncoder_loop_step in H by done.
    pose proof (DecodeRune_size src Hne) as Hn.
    apply IH in H as (k & HnS & Hk & Hfull); [|rewrite length_drop; lia|done].
    rewrite length_drop in Hk. rewrite drop_drop in Hfull.
    exists (snd (utf8.DecodeRune src) + k)%nat.
    split; [lia|]. split; [lia|done].
Qed.

Lemma utf8_incomplete_length (src : list byte) :
  utf8_incomplete src -> (length src < utf8.UTFMax)%nat.
Proof.
  intros (r & ext & _ & Hext & Hsrc).
  pose proof (utf8_bytes_length r) as Hlen. rewrite Hsrc, length_app in Hlen.
  destruct ext; [done|]. simpl in Hlen. lia.
Qed.

Lemma encode_text_alphabet (mcr : rune) (m : gmap Z byte) (src : list byte) :
  Forall (fun b => b = Byte.x00 \/ exists r, m !! r = Some b) (encode_text mcr m src).
Proof.
  unfold encode_text. generalize 0%nat as skip.
  induction src as [|s src IH]; intros skip; [constructor|].
  cbn [encode_text_skip]. destruct skip as [|skip]; [|apply IH].
  destruct (utf8.DecodeRune (s :: src)) as [r n]. constructor; [|apply IH].
  unfold encoded_byte.
  destruct (m !! (if r =? utf8.RuneError then mcr else r)) as [b|] eqn:Hb;
    [right; by eexists|].
  destruct (m !! mcr) as [b|] eqn:Hm; [right; by eexists|by left].
Qed.

(** X11: the encoder's [Transform] always returns. It consumes a prefix
    of the source and writes at most one byte for each byte consumed,
    never beyond the destination, which keeps its length and its bytes
    beyond [nDst]; every byte written is a value of the encode map or
    zero. The error is nil only when the whole source was consumed,
    [ErrShortDst] only when the destination is full, and [ErrShortSrc]
    only when [atEOF] is false and what is left of the source is an
    unfinished UTF-8 sequence, of less than [utf8.UTFMax] bytes. *)
Theorem simpleEncoder_Transform_bounds (mcr : rune) (m : gmap Z byte)
    (dst src : list byte) (atEOF : bool) :
  exists res : TransformResult,
    simpleEncoder_Transform mcr m dst src atEOF = Some res
    /\ (nDst res <= nSrc res <= length src)%nat
    /\ (nDst res <= length dst)%nat
    /\ length (buf res) = length dst
    /\ drop (nDst res) (buf res) = drop (nDst res) dst
    /\ Forall (fun b => b = Byte.x00 \/ exists r, m !! r = Some b)
              (take (nDst res) (buf res))
    /\ match err res with
       | ErrNil => nSrc res = length src
       | ErrShortDst => (nSrc res < length src)%nat /\ nDst res = length dst
       | ErrShortSrc =>
           atEOF = false /\ utf8_incomplete (drop (nSrc res) src)
           /\ (0 < length src - nSrc res < utf8.UTFMax)%nat
       end.
Proof.
  unfold simpleEncoder_Transform.
  destruct (simpleEncoder_loop_returns mcr m (length src) src [] dst atEOF 0 0 [])
    as (res & k & w & Hres & Hk & HnS & HnD & Hbuf & Hlen & Hwk & Htext & Herr);
    [lia|done|].
  exists res. split; [done|]. simpl in HnS, HnD, Hbuf.
  rewrite HnS, HnD, Hbuf. split; [lia|]. split; [done|].
  split; [rewrite length_app, length_drop; lia|].
  split; [by rewrite drop_app_length|].
  split.
  { rewrite take_app_length. rewrite app_nil_r in Htext.
    pose proof (encode_text_alphabet mcr m src) as Hall.
    rewrite Htext in Hall. by apply Forall_app in Hall as [Hall _]. }
  destruct (err res) eqn:He; [done|done|].
  destruct Herr as [Hat Hlt]. split; [done|].
  destruct (simpleEncoder_loop_short_tail mcr m (length src) src [] dst atEOF 0 0 res)
    as (k' & HnS' & Hk' & Hfull); [lia|done|done|].
  simpl in HnS'. assert (k' = k) as -> by lia.
  assert (utf8_incomplete (drop k src)) as Hinc.
  { apply FullRune_false_incomplete; [|done].
    intros Hnil. apply (f_equal length) in Hnil. rewrite length_drop in Hnil.
    simpl in Hnil. lia. }
  split; [done|]. apply utf8_incomplete_length in Hinc.
  rewrite length_drop in Hinc. lia.
Qed.

Lemma simpleEncoder_Transform_bounds_witness :
  exists res : TransformResult,
    simpleEncoder_Transform MissingCodeRune_value (encode MacRoman)
      [Byte.x00] [Byte.xc3] false = Some res
    /\ (nDst res <= nSrc res <= length [Byte.xc3])%nat.
Proof.
  destruct (simpleEncoder_Transform_bounds MissingCodeRune_value (encode MacRoman)
              [Byte.x00] [Byte.xc3] false) as (res & H1 & H2 & _).
  exists res. split; [exact H1|exact H2].
Defined.

Lemma simpleEncoder_loop_runes (mcr : rune) (m : gmap Z byte) (atEOF : bool)
    (rs : list rune) :
  forall (fuel : nat) (done dst : list byte) (nDst0 nSrc0 : nat),
    Forall valid_rune rs ->
    (length rs <= length dst)%nat ->
    (length (flat_map utf8_bytes rs) <= fuel)%nat ->
    simpleEncoder_loop mcr fuel m done dst (flat_map utf8_bytes rs) atEOF nDst0 nSrc0
    = Some {| buf := done ++ map (encoded_byte mcr m) rs ++ drop (length rs) dst;
              nDst := nDst0 + length rs;
              nSrc := nSrc0 + length (flat_map utf8_bytes rs);
              err := ErrNil |}.
Proof.
  induction rs as [|r rs IH]; intros fuel done dst nDst0 nSrc0 Hv Hdst Hfuel.
  - cbn [flat_map]. rewrite simpleEncoder_loop_nil. simpl.
    rewrite drop_0, !Nat.add_0_r. reflexivity.
  - apply Forall_cons in Hv as [Hr Hv].
    cbn [flat_map] in *. rewrite length_app in Hfuel.
    pose proof (utf8_bytes_length r) as Hlen.
    destruct fuel as [|fuel]; [lia|].
    destruct dst as [|d dst]; [simpl in Hdst; lia|].
    rewrite simpleEncoder_loop_step;
      [| intros Hnil; apply (f_equal length) in Hnil;
         rewrite length_app in Hnil; simpl in Hnil; lia
       | left; by apply FullRune_utf8_bytes ].
    rewrite (DecodeRune_utf8_bytes r _ Hr). cbn [fst snd].
    rewrite drop_app_length.
    rewrite IH; [|done|simpl in Hdst; lia|lia].
    rewrite length_app. simpl. rewrite <- !app_assoc. simpl.
    do 2 f_equal; lia.
Qed.

(** X12: on a source that is the UTF-8 of a list of Unicode scalar
    values, with room for one byte for each, the encoder's [Transform]
    consumes the whole source, writes exactly one byte for each rune, in
    order, and returns nil, whether [atEOF] is set or not. *)
Theorem simpleEncoder_Transform_runes (mcr : rune) (m : gmap Z byte)
    (rs : list rune) (dst : list byte) (atEOF : bool) :
  Forall valid_rune rs ->
  (length rs <= length dst)%nat ->
  simpleEncoder_Transform mcr m dst (flat_map utf8_bytes rs) atEOF
  = Some {| buf := map (encoded_byte mcr m) rs ++ drop (length rs) dst;
            nDst := length rs;
            nSrc := length (flat_map utf8_bytes rs);
            err := ErrNil |}.
Proof.
  intros Hv Hdst. unfold simpleEncoder_Transform.
  by rewrite (simpleEncoder_loop_runes mcr m atEOF rs _ [] dst 0 0 Hv Hdst).
Qed.

Lemma simpleEncoder_Transform_runes_witness :
  simpleEncoder_Transform MissingCodeRune_value (encode MacRoman)
    [Byte.x00; Byte.x00; Byte.x00] (flat_map utf8_bytes [0xC4; 0x41]) false
  = Some {| buf := map (encoded_byte MissingCodeRune_value (encode MacRoman)) [0xC4; 0x41]
                   ++ drop (length [0xC4; 0x41]) [Byte.x00; Byte.x00; Byte.x00];
            nDst := length [0xC4; 0x41];
            nSrc := length (flat_map utf8_bytes [0xC4; 0x41]);
            err := ErrNil |}.
Proof.
  apply (simpleEncoder_Transform_runes MissingCodeRune_value (encode MacRoman)
           [0xC4; 0x41] [Byte.x00; Byte.x00; Byte.x00] false).
  - repeat constructor;
      unfold utf8.MaxRune, utf8.surrogateMin, utf8.surrogateMax; lia.
  - simpl. lia.
Defined.

(** ** Round trips *)

Lemma encoded_byte_lookup (mcr : rune) (m : gmap Z byte) (r : rune) (b : byte) :
  r <> utf8.RuneError -> m !! r = Some b -> encoded_byte mcr m r = b.
Proof.
  intros Hne Hb. unfold encoded_byte.
  destruct (Z.eqb_spec r utf8.RuneError) as [|_]; [done|]. by rewrite Hb.
Qed.

Lemma decode_text_runes (mcr : rune) (m : gmap byte Z) (src : list byte) :
  decode_text mcr m src = flat_map utf8_bytes (map (decoded_rune mcr m) src).
Proof.
  unfold decode_text. induction src as [|b src IH]; [done|]. simpl. by rewrite IH.
Qed.

(** X13: encoding then decoding gives the text back. For an encoder built
    by [newSimpleEncoderFromMap], in any order of its range loop, and a
    text of scalar values other than U+FFFD that [RuneToCharcode] accepts,
    the encoder's [Transform] with room for one byte for each rune returns
    nil, and the decoder's [Transform] on the bytes it wrote, with room for
    the text, returns nil and writes the text. *)
Theorem encode_decode_roundtrip (mcr : rune) (order : list (byte * rune))
    (name : string) (encoding : gmap byte Z) (rs : list rune)
    (dst dst' : list byte) (atEOF atEOF' : bool) :
  range_of encoding order ->
  Forall (fun r => valid_rune r /\ r <> utf8.RuneError
                   /\ snd (RuneToCharcode
                             (newSimpleEncoderFromMap order name encoding) r) = true) rs ->
  (length rs <= length dst)%nat ->
  (length (flat_map utf8_bytes rs) <= length dst')%nat ->
  exists res res' : TransformResult,
    simpleEncoder_Transform mcr (encode (newSimpleEncoderFromMap order name encoding))
      dst (flat_map utf8_bytes rs) atEOF = Some res
    /\ err res = ErrNil /\ nDst res = length rs
    /\ simpleDecoder_Transform mcr (decode (newSimpleEncoderFromMap order name encoding))
         dst' (take (nDst res) (buf res)) atEOF' = Returns res'
    /\ err res' = ErrNil
    /\ take (nDst res') (buf res') = flat_map utf8_bytes rs.
Proof.
  intros Hr Hrs Hdst Hdst'.
  set (enc := newSimpleEncoderFromMap order name encoding) in *.
  assert (Forall valid_rune rs) as Hv.
  { eapply Forall_impl; [exact Hrs|]. simpl. tauto. }
  assert (decode_text mcr (decode enc) (map (encoded_byte mcr (encode enc)) rs)
          = flat_map utf8_bytes rs) as Htext.
  { clear Hdst Hdst' Hv. induction rs as [|r rs IH]; [done|].
    apply Forall_cons in Hrs as [(_ & Hne & Hok) Hrs].
    cbn [map]. rewrite decode_text_cons, (IH Hrs). cbn [flat_map]. f_equal.
    unfold RuneToCharcode in Hok.
    destruct (encode enc !! r) as [b|] eqn:Hb; [|discriminate].
    rewrite (encoded_byte_lookup mcr _ r b Hne Hb).
    unfold decoded_rune. simpl.
    by rewrite (encode_sound order name encoding r b Hr Hb). }
  eexists _, _. unfold simpleEncoder_Transform.
  rewrite (simpleEncoder_loop_runes mcr (encode enc) atEOF rs _ [] dst 0 0 Hv Hdst)
    by done.
  split; [reflexivity|]. cbn [err nDst buf app Nat.add].
  split; [done|]. split; [done|].
  rewrite take_app_length' by (by rewrite length_map).
  unfold simpleDecoder_Transform.
  rewrite simpleDecoder_loop_whole by (rewrite Htext; exact Hdst').
  split; [reflexivity|]. cbn [err nDst buf]. split; [done|].
  rewrite Htext. simpl. by rewrite take_app_length.
Qed.

Lemma encode_decode_roundtrip_witness :
  exists res res' : TransformResult,
    simpleEncoder_Transform MissingCodeRune_value (encode MacRoman)
      [Byte.x00; Byte.x00] (flat_map utf8_bytes [0xC4; 0x41]) true = Some res
    /\ err res = ErrNil /\ nDst res = length [0xC4; 0x41]
    /\ simpleDecoder_Transform MissingCodeRune_value (decode MacRoman)
         [Byte.x00; Byte.x00; Byte.x00] (take (nDst res) (buf res)) true = Returns res'
    /\ err res' = ErrNil
    /\ take (nDst res') (buf res') = flat_map utf8_bytes [0xC4; 0x41].
Proof.
  apply (encode_decode_roundtrip MissingCodeRune_value
           (map_to_list (list_to_map (M := gmap byte Z) MacRomanEncoding_table))
           "MacRomanEncoding" (list_to_map MacRomanEncoding_table) [0xC4; 0x41]
           [Byte.x00; Byte.x00] [Byte.x00; Byte.x00; Byte.x00] true true).
  - unfold range_of. reflexivity.
  - repeat constructor;
      unfold utf8.MaxRune, utf8.surrogateMin, utf8.surrogateMax, utf8.RuneError;
      try lia; vm_compute; reflexivity.
  - simpl. lia.
  - vm_compute. lia.
Defined.

(** X14: decoding then encoding gives the bytes back. For an encoder
    built by [newSimpleEncoderFromMap], in any order of its range loop,
    and source bytes that the table maps to scalar values other than
    U+FFFD which no other byte of the table maps to, the decoder's
    [Transform] with room for the text returns nil, and the encoder's
    [Transform] on the text it wrote, with room for one byte for each
    source byte, returns nil and writes the source bytes. *)
Theorem decode_encode_roundtrip (mcr : rune) (order : list (byte * rune))
    (name : string) (encoding : gmap byte Z) (src dst dst' : list byte)
    (atEOF atEOF' : bool) :
  range_of encoding order ->
  Forall (fun b => exists r : rune,
            encoding !! b = Some r /\ valid_rune r /\ r <> utf8.RuneError
            /\ forall b' : byte, encoding !! b' = Some r -> b' = b) src ->
  (length (decode_text mcr encoding src) <= length dst)%nat ->
  (length src <= length dst')%nat ->
  exists res res' : TransformResult,
    simpleDecoder_Transform mcr (decode (newSimpleEncoderFromMap order name encoding))
      dst src atEOF = Returns res
    /\ err res = ErrNil /\ nSrc res = length src
    /\ simpleEncoder_Transform mcr (encode (newSimpleEncoderFromMap order name encoding))
         dst' (take (nDst res) (buf res)) atEOF' = Some res'
    /\ err res' = ErrNil
    /\ take (nDst res') (buf res') = src.
Proof.
  intros Hr Hsrc Hdst Hdst'.
  set (enc := newSimpleEncoderFromMap order name encoding) in *.
  assert (Forall valid_rune (map (decoded_rune mcr encoding) src)) as Hv.
  { apply Forall_fmap. eapply Forall_impl; [exact Hsrc|]. simpl.
    intros b (r & Hb & Hvr & _). unfold decoded_rune. by rewrite Hb. }
  assert (map (encoded_byte mcr (encode enc)) (map (decoded_rune mcr encoding) src)
          = src) as Hback.
  { clear Hdst Hdst' Hv. induction src as [|b src IH]; [done|].
    apply Forall_cons in Hsrc as [(r & Hb & _ & Hne & Huniq) Hsrc].
    cbn [map]. rewrite (IH Hsrc). f_equal.
    unfold decoded_rune. rewrite Hb.
    destruct (proj2 (encode_complete order name encoding r Hr)) as [b' Hb'];
      [by exists b|].
    pose proof (encode_sound order name encoding r b' Hr Hb') as Hb2.
    apply Huniq in Hb2 as ->. by apply encoded_byte_lookup. }
  eexists _, _. unfold simpleDecoder_Transform.
  change (decode enc) with encoding.
  rewrite simpleDecoder_loop_whole by exact Hdst.
  split; [reflexivity|]. cbn [err nDst nSrc buf app Nat.add].
  split; [done|]. split; [done|].
  rewrite take_app_length, decode_text_runes.
  unfold simpleEncoder_Transform.
  rewrite (simpleEncoder_loop_runes mcr (encode enc) atEOF' _ _ [] dst' 0 0 Hv);
    [|by rewrite length_map|done].
  split; [reflexivity|]. cbn [err nDst buf app Nat.add]. split; [done|].
  rewrite Hback. rewrite length_map. by rewrite take_app_length.
Qed.

Lemma decode_encode_roundtrip_witness :
  exists res res' : TransformResult,
    simpleDecoder_Transform MissingCodeRune_value (decode MacRoman)
      [Byte.x00; Byte.x00; Byte.x00] [Byte.x80; Byte.x41] true = Returns res
    /\ err res = ErrNil /\ nSrc res = length [Byte.x80; Byte.x41]
    /\ simpleEncoder_Transform MissingCodeRune_value (encode MacRoman)
         [Byte.x00; Byte.x00] (take (nDst res) (buf res)) true = Some res'
    /\ err res' = ErrNil
    /\ take (nDst res') (buf res') = [Byte.x80; Byte.x41].
Proof.
  apply (decode_encode_roundtrip MissingCodeRune_value
           (map_to_list (list_to_map (M := gmap byte Z) MacRomanEncoding_table))
           "MacRomanEncoding" (list_to_map MacRomanEncoding_table)
           [Byte.x80; Byte.x41] [Byte.x00; Byte.x00; Byte.x00] [Byte.x00; Byte.x00]
           true true).
  - unfold range_of. reflexivity.
  - constructor; [|constructor; [|constructor]].
    + exists 0xC4. split; [vm_compute; reflexivity|].
      split; [unfold valid_rune, utf8.MaxRune, utf8.surrogateMin, utf8.surrogateMax; lia|].
      split; [discriminate|]. intros b' Hb'. apply (MacRoman_injective b' Byte.x80 0xC4 Hb').
      vm_compute. reflexivity.
    + exists 0x41. split; [vm_compute; reflexivity|].
      split; [unfold valid_rune, utf8.MaxRune, utf8.surrogateMin, utf8.surrogateMax; lia|].
      split; [discriminate|]. intros b' Hb'. apply (MacRoman_injective b' Byte.x41 0x41 Hb').
      vm_compute. reflexivity.
  - vm_compute. lia.
  - simpl. lia.
Defined.

(** ** Printable ASCII in MacRomanEncoding and PdfDocEncoding *)

Lemma byte_Z_inj (a b : byte) : byte_Z a = byte_Z b -> a = b.
Proof. unfold byte_Z. intros H. apply byte_to_N_inj. lia. Qed.

Lemma printable_lookup (table : list (byte * rune)) (b : byte) :
  printable_identity table = true -> printable b ->
  list_to_map (M := gmap byte Z) table !! b = Some (byte_Z b).
Proof.
  unfold printable_identity, printable, byte_Z. intros H Hb.
  rewrite forallb_forall in H.
  specialize (H (N.to_nat (Byte.to_N b))). rewrite N2Nat.id, byte_of_N_to_N in H.
  destruct (list_to_map table !! b) as [r|].
  - f_equal. rewrite N_nat_Z in H. apply Z.eqb_eq, H, in_seq. lia.
  - exfalso. assert (false = true); [|done]. apply H, in_seq. lia.
Qed.

Lemma printable_unique (table : list (byte * rune)) (b b' : byte) :
  forallb (fun '(b, r) => implb ((0x20 <=? r) && (r <=? 0x7e)) (r =? byte_Z b)) table
  = true ->
  printable b -> list_to_map (M := gmap byte Z) table !! b' = Some (byte_Z b) -> b' = b.
Proof.
  intros H Hb Hb'.
  pose proof (table_Forall
                (fun b r => implb ((0x20 <=? r) && (r <=? 0x7e)) (r =? byte_Z b))
                table b' (byte_Z b) H Hb') as Himp.
  simpl in Himp. unfold printable in Hb.
  destruct (Z.leb_spec 0x20 (byte_Z b)); [|lia].
  destruct (Z.leb_spec (byte_Z b) 0x7e); [|lia].
  simpl in Himp. apply Z.eqb_eq in Himp. symmetry. by apply byte_Z_inj.
Qed.

Lemma printable_table (name : string) (table : gmap byte Z) :
  name = "MacRomanEncoding"%string \/ name = "PdfDocEncoding"%string ->
  simpleEncodings !! name = Some table ->
  forall b : byte,
    printable b ->
    table !! b = Some (byte_Z b)
    /\ forall b' : byte, table !! b' = Some (byte_Z b) -> b' = b.
Proof.
  intros Hname Ht b Hb. unfold simpleEncodings in Ht.
  cbn [list_to_map foldr uncurry fst snd] in Ht.
  destruct Hname as [-> | ->].
  - rewrite lookup_insert_ne in Ht by discriminate.
    rewrite lookup_insert_eq in Ht. apply Some_eq_inv in Ht. subst table. split.
    + apply printable_lookup; [vm_compute; reflexivity|done].
    + intros b'. apply printable_unique; [vm_compute; reflexivity|done].
  - rewrite lookup_insert_ne in Ht by discriminate.
    rewrite lookup_insert_ne in Ht by discriminate.
    rewrite lookup_insert_eq in Ht. apply Some_eq_inv in Ht. subst table. split.
    + apply printable_lookup; [vm_compute; reflexivity|done].
    + intros b'. apply printable_unique; [vm_compute; reflexivity|done].
Qed.

Lemma utf8_bytes_ascii (b : byte) : byte_Z b <= 0x7F -> utf8_bytes (byte_Z b) = [b].
Proof.
  intros Hb. pose proof (byte_Z_range b) as Hrange.
  rewrite utf8_bytes_arith.
  - unfold utf8_arith, utf8.rune1Max.
    destruct (Z.leb_spec (byte_Z b) 127); [|lia].
    simpl. by rewrite byte_of_Z_byte_Z.
  - unfold valid_rune, utf8.MaxRune, utf8.surrogateMin, utf8.surrogateMax. lia.
Qed.

(** X15: MacRomanEncoding and PdfDocEncoding leave printable ASCII as it
    is. On a source of bytes 0x20 to 0x7e, with room for as many bytes,
    the decoder's [Transform] of either table and the encoder's
    [Transform] of the encoder built from it, in any order of the range
    loop, both copy the source to the destination, consume it all and
    return nil. *)
Theorem printable_ascii_unchanged (mcr : rune) (name : string) (table : gmap byte Z)
    (order : list (byte * rune)) (src dst : list byte) (atEOF : bool) :
  name = "MacRomanEncoding"%string \/ name = "PdfDocEncoding"%string ->
  simpleEncodings !! name = Some table ->
  range_of table order ->
  Forall printable src ->
  (length src <= length dst)%nat ->
  simpleDecoder_Transform mcr table dst src atEOF
  = Returns {| buf := src ++ drop (length src) dst;
               nDst := length src; nSrc := length src; err := ErrNil |}
  /\ simpleEncoder_Transform mcr (encode (newSimpleEncoderFromMap order name table))
       dst src atEOF
     = Some {| buf := src ++ drop (length src) dst;
               nDst := length src; nSrc := length src; err := ErrNil |}.
Proof.
  intros Hname Ht Hr Hsrc Hdst.
  pose proof (printable_table name table Hname Ht) as Htable.
  set (enc := newSimpleEncoderFromMap order name table).
  assert (decode_text mcr table src = src) as Hdec.
  { clear Hdst. induction src as [|b src IH]; [done|].
    apply Forall_cons in Hsrc as [Hb Hsrc].
    rewrite decode_text_cons, (IH Hsrc). unfold decoded_rune.
    destruct (Htable b Hb) as [-> _].
    rewrite utf8_bytes_ascii; [done|]. unfold printable in Hb. lia. }
  assert (flat_map utf8_bytes (map byte_Z src) = src) as Htext.
  { clear Hdst Hdec. induction src as [|b src IH]; [done|].
    apply Forall_cons in Hsrc as [Hb Hsrc].
    cbn [map flat_map]. rewrite (IH Hsrc).
    rewrite utf8_bytes_ascii; [done|]. unfold printable in Hb. lia. }
  assert (map (encoded_byte mcr (encode enc)) (map byte_Z src) = src) as Henc.
  { clear Hdst Hdec Htext. induction src as [|b src IH]; [done|].
    apply Forall_cons in Hsrc as [Hb Hsrc].
    cbn [map]. rewrite (IH Hsrc). f_equal.
    destruct (Htable b Hb) as [Hlook Huniq].
    destruct (proj2 (encode_complete order name table (byte_Z b) Hr)) as [b' Hb'];
      [by exists b|].
    pose proof (encode_sound order name table _ b' Hr Hb') as Hb2.
    apply Huniq in Hb2 as ->. apply encoded_byte_lookup; [|done].
    unfold printable in Hb. unfold utf8.RuneError. lia. }
  assert (Forall valid_rune (map byte_Z src)) as Hv.
  { apply Forall_fmap. eapply Forall_impl; [exact Hsrc|]. simpl.
    intros b Hb. unfold printable in Hb.
    unfold valid_rune, utf8.MaxRune, utf8.surrogateMin, utf8.surrogateMax. lia. }
  split.
  - unfold simpleDecoder_Transform.
    rewrite simpleDecoder_loop_whole by (by rewrite Hdec).
    rewrite Hdec. reflexivity.
  - unfold simpleEncoder_Transform.
    pose proof (simpleEncoder_loop_runes mcr (encode enc) atEOF (map byte_Z src)
                  (length src) [] dst 0 0 Hv) as Hloop.
    rewrite Htext, Henc, length_map in Hloop. by apply Hloop.
Qed.

Lemma printable_ascii_unchanged_witness :
  simpleDecoder_Transform MissingCodeRune_value (decode MacRoman)
    [Byte.x00; Byte.x00; Byte.x00] [Byte.x50; Byte.x44; Byte.x46] true
  = Returns {| buf := [Byte.x50; Byte.x44; Byte.x46]
                      ++ drop (length [Byte.x50; Byte.x44; Byte.x46])
                           [Byte.x00; Byte.x00; Byte.x00];
               nDst := length [Byte.x50; Byte.x44; Byte.x46];
               nSrc := length [Byte.x50; Byte.x44; Byte.x46]; err := ErrNil |}.
Proof.
  apply (printable_ascii_unchanged MissingCodeRune_value "MacRomanEncoding"
           (decode MacRoman)
           (map_to_list (list_to_map (M := gmap byte Z) MacRomanEncoding_table))
           [Byte.x50; Byte.x44; Byte.x46] [Byte.x00; Byte.x00; Byte.x00] true).
  - by left.
  - exact MacRoman_table.
  - unfold range_of. reflexivity.
  - repeat constructor; unfold byte_Z; simpl; lia.
  - simpl. lia.
Defined.

(** ** The codes of a custom encoding *)

Lemma setGlyph_fold_lookup (g : GlyphName -> option rune)
    (order : list (CharCode * GlyphName)) :
  forall (acc : gmap byte Z) (b : byte) (r : rune),
    NoDup ((byte_of_N ∘ fst) <$> order) ->
    foldl (setGlyph g) acc order !! b = Some r <->
    (exists code glyph, (code, glyph) ∈ order /\ byte_of_N code = b /\ g glyph = Some r)
    \/ (acc !! b = Some r
        /\ forall code glyph, (code, glyph) ∈ order -> byte_of_N code = b -> g glyph = None).
Proof.
  induction order as [|[c0 g0] order IH]; intros acc b r Hnd.
  - simpl. split.
    + intros H. right. split; [done|]. intros code glyph Hin. by apply elem_of_nil in Hin.
    + intros [(code & glyph & Hin & _)|[H _]]; [by apply elem_of_nil in Hin|done].
  - rewrite fmap_cons in Hnd. apply NoDup_cons in Hnd as [Hfresh Hnd].
    cbn [foldl]. rewrite (IH _ b r Hnd). unfold setGlyph.
    destruct (g g0) as [r0|] eqn:Hg0.
    + split.
      * intros [(code & glyph & Hin & Hb & Hg)|[Hacc Hnone]].
        -- left. exists code, glyph. split; [by right|done].
        -- destruct (decide (byte_of_N c0 = b)) as [Heq|Hne].
           ++ subst b. rewrite lookup_insert_eq in Hacc. injection Hacc as ->.
              left. exists c0, g0. split; [by left|done].
           ++ rewrite lookup_insert_ne in Hacc by done. right. split; [done|].
              intros code glyph Hin Hb.
              apply elem_of_cons in Hin as [[= -> ->]|Hin]; [done|].
              by apply (Hnone code glyph).
      * intros [(code & glyph & Hin & Hb & Hg)|[Hacc Hnone]].
        -- apply elem_of_cons in Hin as [[= -> ->]|Hin].
           ++ right. subst b. rewrite lookup_insert_eq. split; [congruence|].
              intros code glyph Hin Hb. exfalso. apply Hfresh.
              apply list_elem_of_fmap. exists (code, glyph). split; [|done].
              simpl. by rewrite Hb.
           ++ left. by exists code, glyph.
        -- assert (byte_of_N c0 <> b) as Hne.
           { intros Hb. specialize (Hnone c0 g0). rewrite Hg0 in Hnone.
             assert (Some r0 = None); [|done]. apply Hnone; [by left|done]. }
           right. rewrite lookup_insert_ne by done. split; [done|].
           intros code glyph Hin. apply Hnone. by right.
    + split.
      * intros [(code & glyph & Hin & Hb & Hg)|[Hacc Hnone]].
        -- left. exists code, glyph. split; [by right|done].
        -- right. split; [done|]. intros code glyph Hin Hb.
           apply elem_of_cons in Hin as [[= -> ->]|Hin]; [done|].
           by apply (Hnone code glyph).
      * intros [(code & glyph & Hin & Hb & Hg)|[Hacc Hnone]].
        -- apply elem_of_cons in Hin as [[= -> ->]|Hin]; [congruence|].
           left. by exists code, glyph.
        -- right. split; [done|]. intros code glyph Hin. apply Hnone. by right.
Qed.

(** X16: for a custom encoding that is not empty and has no code above
    255, without differences, [NewCustomSimpleTextEncoder] returns an
    encoder whose [CharcodeToRune] maps a code to a rune exactly when the
    encoding has the code with a glyph name that [GlyphToRune] resolves to
    that rune, whatever the order in which the loop visits the map. *)
Theorem NewCustomSimpleTextEncoder_values (g : GlyphName -> option rune) (mcr : rune)
    (o_enc : list (CharCode * GlyphName)) (o_base : list (byte * rune))
    (o_diff : list (CharCode * GlyphName)) (o_inv : list (byte * rune))
    (encoding : gmap N string) :
  range_of encoding o_enc ->
  encoding <> ∅ ->
  (forall code glyph, encoding !! code = Some glyph -> (code <= 255)%N) ->
  exists enc : simpleEncoding,
    NewCustomSimpleTextEncoder g o_enc o_base o_diff o_inv encoding ∅ = Ok enc
    /\ forall (code : CharCode) (r : rune),
         CharcodeToRune mcr enc code = (r, true) <->
         exists glyph, encoding !! code = Some glyph /\ g glyph = Some r.
Proof.
  intros Hr Hne Hsmall. unfold range_of in Hr.
  exists (newSimpleEncoderFromMap o_base "custom" (customBaseEncoding g o_enc)). split.
  - unfold NewCustomSimpleTextEncoder.
    destruct (Nat.eqb_spec (size encoding) 0) as [Hz|Hnz];
      [by apply map_size_empty_iff in Hz|].
    by rewrite no_differences.
  - assert (NoDup ((byte_of_N ∘ fst) <$> o_enc)) as Hnd.
    { rewrite Hr. rewrite list_fmap_compose. apply NoDup_fmap_2_strong.
      - intros c c' Hc Hc' Heq.
        apply list_elem_of_fmap in Hc as ([c1 g1] & -> & Hc).
        apply list_elem_of_fmap in Hc' as ([c2 g2] & -> & Hc').
        apply elem_of_map_to_list in Hc, Hc'. simpl in *.
        apply Hsmall in Hc, Hc'. apply (f_equal Byte.to_N) in Heq.
        rewrite !byte_to_N_of_N_small in Heq by lia. done.
      - apply NoDup_fst_map_to_list. }
    intros code r. rewrite CharcodeToRune_ok. cbn [decode newSimpleEncoderFromMap].
    unfold customBaseEncoding.
    rewrite (setGlyph_fold_lookup g o_enc ∅ (byte_of_N code) r Hnd). split.
    + intros [Hle [(c & glyph & Hin & Hb & Hg)|[Hacc _]]];
        [|by rewrite lookup_empty in Hacc].
      rewrite Hr in Hin. apply elem_of_map_to_list in Hin.
      pose proof (Hsmall c glyph Hin) as Hc. apply (f_equal Byte.to_N) in Hb.
      rewrite !byte_to_N_of_N_small in Hb by lia. subst c. by exists glyph.
    + intros (glyph & Hin & Hg). split; [by apply (Hsmall code glyph)|].
      left. exists code, glyph. rewrite Hr. by rewrite elem_of_map_to_list.
Qed.

Lemma NewCustomSimpleTextEncoder_values_witness :
  exists enc : simpleEncoding,
    NewCustomSimpleTextEncoder sampleGlyphToRune (map_to_list sampleCustomEncoding)
      [] [] [] sampleCustomEncoding ∅ = Ok enc
    /\ forall (code : CharCode) (r : rune),
         CharcodeToRune MissingCodeRune_value enc code = (r, true) <->
         exists glyph, sampleCustomEncoding !! code = Some glyph
                       /\ sampleGlyphToRune glyph = Some r.
Proof.
  apply (NewCustomSimpleTextEncoder_values sampleGlyphToRune MissingCodeRune_value
           (map_to_list sampleCustomEncoding) [] [] [] sampleCustomEncoding).
  - unfold range_of. reflexivity.
  - intros H. apply (f_equal (fun m : gmap N string => m !! 0x41%N)) in H.
    vm_compute in H. discriminate.
  - intros code glyph H. unfold sampleCustomEncoding in H.
    apply lookup_insert_Some in H as [[<- _]|[_ H]]; [lia|].
    apply lookup_singleton_Some in H as [<- _]. lia.
Defined.

(** ** The order of the range loop and the tables *)

Lemma encode_order_irrelevant (order order' : list (byte * rune)) (name : string)
    (encoding : gmap byte Z) :
  range_of encoding order -> range_of encoding order' -> injective_map encoding ->
  newSimpleEncoderFromMap order' name encoding
  = newSimpleEncoderFromMap order name encoding.
Proof.
  intros Hr Hr' Hinj.
  assert (encode (newSimpleEncoderFromMap order' name encoding)
          = encode (newSimpleEncoderFromMap order name encoding)) as He.
  { apply map_eq. intros r. apply option_eq. intros b.
    rewrite (encode_inverse order' name encoding r b Hr' Hinj).
    by rewrite (encode_inverse order name encoding r b Hr Hinj). }
  unfold newSimpleEncoderFromMap in *. simpl in He. by rewrite He.
Qed.

Lemma two_orders (name : string) (encoding : gmap byte Z) (b1 b2 : byte) (r : rune) :
  encoding !! b1 = Some r -> encoding !! b2 = Some r -> b1 <> b2 ->
  exists o1 o2 : list (byte * rune),
    range_of encoding o1 /\ range_of encoding o2
    /\ fst (RuneToCharcode (newSimpleEncoderFromMap o1 name encoding) r)
       <> fst (RuneToCharcode (newSimpleEncoderFromMap o2 name encoding) r).
Proof.
  intros H1 H2 Hne.
  destruct (visited_last name encoding b1 r H1) as (o1 & Hr1 & He1).
  destruct (visited_last name encoding b2 r H2) as (o2 & Hr2 & He2).
  exists o1, o2. split; [done|]. split; [done|].
  unfold RuneToCharcode. rewrite He1, He2. simpl.
  intros H. by apply byte_to_N_inj in H.
Qed.

(** X17: the encoders that [NewSimpleTextEncoder] builds for
    MacRomanEncoding and MacExpertEncoding do not depend on the order in
    which the range loop of [newSimpleEncoderFromMap] visits the table,
    no rune occurring twice in these tables; for PdfDocEncoding and
    StandardEncoding they do, a rune occurring at two codes: there are two
    orders and a rune for which [RuneToCharcode] returns different
    codes. *)
Theorem NewSimpleTextEncoder_order (g : GlyphName -> option rune) (name : string)
    (table : gmap byte Z) :
  simpleEncodings !! name = Some table ->
  (name = "MacRomanEncoding"%string \/ name = "MacExpertEncoding"%string ->
   forall o1 o2 o_diff o_inv,
     range_of table o1 -> range_of table o2 ->
     NewSimpleTextEncoder g ∅ o1 o_diff o_inv name ∅
     = NewSimpleTextEncoder g ∅ o2 o_diff o_inv name ∅)
  /\ (name = "PdfDocEncoding"%string \/ name = "StandardEncoding"%string ->
      exists (o1 o2 : list (byte * rune)) (enc1 enc2 : simpleEncoding) (r : rune),
        range_of table o1 /\ range_of table o2
        /\ NewSimpleTextEncoder g ∅ o1 [] [] name ∅ = Ok enc1
        /\ NewSimpleTextEncoder g ∅ o2 [] [] name ∅ = Ok enc2
        /\ fst (RuneToCharcode enc1 r) <> fst (RuneToCharcode enc2 r)).
Proof.
  intros Ht.
  assert (forall o_base o_diff o_inv,
            NewSimpleTextEncoder g ∅ o_base o_diff o_inv name ∅
            = Ok (newSimpleEncoderFromMap o_base name table)) as Hnew.
  { intros. unfold NewSimpleTextEncoder. rewrite lookup_empty, Ht.
    by rewrite no_differences. }
  unfold simpleEncodings in Ht. cbn [list_to_map foldr uncurry fst snd] in Ht.
  split.
  - intros Hname o1 o2 o_diff o_inv Hr1 Hr2. rewrite !Hnew. f_equal.
    apply encode_order_irrelevant; [done|done|].
    destruct Hname as [-> | ->].
    + rewrite lookup_insert_ne in Ht by discriminate.
      rewrite lookup_insert_eq in Ht. apply Some_eq_inv in Ht. subst table.
      exact MacRoman_injective.
    + rewrite lookup_insert_eq in Ht. apply Some_eq_inv in Ht. subst table.
      exact MacExpert_injective.
  - intros Hname.
    assert (exists (b1 b2 : byte) (r : rune),
              table !! b1 = Some r /\ table !! b2 = Some r /\ b1 <> b2)
      as (b1 & b2 & r & H1 & H2 & Hne).
    { destruct Hname as [-> | ->].
      - do 2 rewrite lookup_insert_ne in Ht by discriminate.
        rewrite lookup_insert_eq in Ht. apply Some_eq_inv in Ht. subst table.
        exists Byte.x16, Byte.x17, 0x17.
        split; [vm_compute; reflexivity|]. split; [vm_compute; reflexivity|].
        discriminate.
      - do 3 rewrite lookup_insert_ne in Ht by discriminate.
        rewrite lookup_insert_eq in Ht. apply Some_eq_inv in Ht. subst table.
        exists Byte.x60, Byte.xc1, 0x60.
        split; [vm_compute; reflexivity|]. split; [vm_compute; reflexivity|].
        discriminate. }
    destruct (two_orders name table b1 b2 r H1 H2 Hne) as (o1 & o2 & Hr1 & Hr2 & Hdiff).
    exists o1, o2, (newSimpleEncoderFromMap o1 name table),
      (newSimpleEncoderFromMap o2 name table), r.
    rewrite !Hnew. done.
Qed.

Lemma NewSimpleTextEncoder_order_witness :
  exists (o1 o2 : list (byte * rune)) (enc1 enc2 : simpleEncoding) (r : rune),
    range_of (decode StandardEncoding) o1 /\ range_of (decode StandardEncoding) o2
    /\ NewSimpleTextEncoder sampleGlyphToRune ∅ o1 [] [] "StandardEncoding" ∅ = Ok enc1
    /\ NewSimpleTextEncoder sampleGlyphToRune ∅ o2 [] [] "StandardEncoding" ∅ = Ok enc2
    /\ fst (RuneToCharcode enc1 r) <> fst (RuneToCharcode enc2 r).
Proof.
  refine (proj2 (NewSimpleTextEncoder_order sampleGlyphToRune "StandardEncoding"
                   (decode StandardEncoding) _) _).
  - unfold simpleEncodings. cbn [list_to_map foldr uncurry fst snd].
    do 3 rewrite lookup_insert_ne by discriminate.
    apply lookup_insert_eq.
  - by right.
Defined.
